(** * open-wallpaper: the read-through cache and the favorites store

    A shallow embedding of the two services of the application that hold
    state: [FirestoreService] (the TTL cache in front of the remote
    document store, with its paginated and search queries and its counter
    increments) and [FavoritesService] (the persisted list of favorite
    identifiers with its in-memory mirror).

    Conventions of the embedding.
    - [Date.now()] readings, and the way every awaited call to the remote
      store or to [AsyncStorage] settles, are arguments of the operation that
      performs them: the operations are deterministic functions of the
      state and of what the environment answers. For the paginated query
      the answer is given as a function of the query that is sent.
    - A limit is a natural number. The SDK's [limit] refuses a limit that
      is not positive by throwing where the query is built.
    - An [async] function is a computation in a state-and-exception monad:
      a rejected promise is a thrown exception, [try]/[catch] is [try_catch],
      and state written before a throw stays written.
    - A JavaScript string is a [string] whose characters are the code units
      below 256. *)

From Stdlib Require Import ZArith String Ascii List Bool Lia.
From stdpp Require Import gmap strings list fin_maps pretty.

Open Scope Z_scope.

(** ** Computations that may throw *)

Inductive outcome (A : Type) : Type :=
| Returned (a : A)
| Thrown (message : string).
Arguments Returned {A} a.
Arguments Thrown {A} message.

Definition M (S A : Type) : Type := S → outcome A * S.

Definition ret {S A} (a : A) : M S A := λ s, (Returned a, s).

Definition throw {S A} (message : string) : M S A := λ s, (Thrown message, s).

Definition bind {S A B} (m : M S A) (k : A → M S B) : M S B :=
  λ s, match m s with
       | (Returned a, s') => k a s'
       | (Thrown e, s') => (Thrown e, s')
       end.

Definition try_catch {S A} (body : M S A) (handler : string → M S A) : M S A :=
  λ s, match body s with
       | (Returned a, s') => (Returned a, s')
       | (Thrown e, s') => handler e s'
       end.

Definition modify {S} (f : S → S) : M S unit := λ s, (Returned tt, f s).

Definition gets {S A} (f : S → A) : M S A := λ s, (Returned (f s), s).

Declare Scope js_scope.
Delimit Scope js_scope with js.
Notation "x <- m ;; k" := (bind m (λ x, k))
  (at level 100, m at next level, right associativity) : js_scope.
Notation "m ;;; k" := (bind m (λ _, k))
  (at level 100, right associativity) : js_scope.

(** How an awaited promise settles. *)
Inductive settled (A : Type) : Type :=
| Fulfilled (value : A)
| Rejected (reason : string).
Arguments Fulfilled {A} value.
Arguments Rejected {A} reason.

(** [await p]: the value of a fulfilled promise, a throw for a rejected one. *)
Definition await {S A} (p : settled A) : M S A :=
  match p with
  | Fulfilled v => ret v
  | Rejected e => throw e
  end.

(** ** Strings *)

Module Js.

(** [s.includes(pattern)] *)
Fixpoint includes (s pattern : string) : bool :=
  String.prefix pattern s ||
  match s with
  | EmptyString => false
  | String _ s' => includes s' pattern
  end.

(** White space and line terminators among the code units below 256:
    TAB, LF, VT, FF, CR, SP and NBSP. *)
Definition is_whitespace (c : ascii) : bool :=
  let n := nat_of_ascii c in
  ((9 <=? n)%nat && (n <=? 13)%nat) || (n =? 32)%nat || (n =? 160)%nat.

Fixpoint trimStart (s : string) : string :=
  match s with
  | EmptyString => EmptyString
  | String c s' => if is_whitespace c then trimStart s' else s
  end.

Fixpoint trimEnd (s : string) : string :=
  match s with
  | EmptyString => EmptyString
  | String c s' =>
      match trimEnd s' with
      | EmptyString => if is_whitespace c then EmptyString else String c EmptyString
      | t => String c t
      end
  end.

(** [s.trim()] *)
Definition trim (s : string) : string := trimEnd (trimStart s).

(** A string made of white space only (the empty string is one). *)
Fixpoint all_whitespace (s : string) : bool :=
  match s with
  | EmptyString => true
  | String c s' => is_whitespace c && all_whitespace s'
  end.

(** The case mappings on the letters A-Z and a-z; other characters are left
    as they are. They instantiate [toLowerCase] and [toUpperCase] in the
    examples, whose strings hold no other letters. *)
Definition lower_ascii (c : ascii) : ascii :=
  let n := nat_of_ascii c in
  if (65 <=? n)%nat && (n <=? 90)%nat then ascii_of_nat (n + 32) else c.

Definition upper_ascii (c : ascii) : ascii :=
  let n := nat_of_ascii c in
  if (97 <=? n)%nat && (n <=? 122)%nat then ascii_of_nat (n - 32) else c.

Fixpoint map_chars (f : ascii → ascii) (s : string) : string :=
  match s with
  | EmptyString => EmptyString
  | String c s' => String (f c) (map_chars f s')
  end.

Definition toLowerCase_ascii : string → string := map_chars lower_ascii.
Definition toUpperCase_ascii : string → string := map_chars upper_ascii.

(** Truthiness of a string: only the empty string is falsy. *)
Definition truthy (s : string) : bool :=
  match s with
  | EmptyString => false
  | String _ _ => true
  end.

(** [a.includes(x)] on an array of strings *)
Definition array_includes (a : list string) (x : string) : bool :=
  existsb (String.eqb x) a.

(** [a.slice(0, n)] for a count [n] *)
Definition slice0 {A} (n : nat) (a : list A) : list A := take n a.

(** A [Map] with string keys: entries in insertion order; [set] on a key that
    is present replaces its value where it stands. *)
Definition Map (V : Type) : Type := list (string * V).

Fixpoint Map_set {V} (k : string) (v : V) (m : Map V) : Map V :=
  match m with
  | [] => [(k, v)]
  | (k', v') :: m' =>
      if String.eqb k' k then (k', v) :: m' else (k', v') :: Map_set k v m'
  end.

Fixpoint Map_get {V} (k : string) (m : Map V) : option V :=
  match m with
  | [] => None
  | (k', v') :: m' => if String.eqb k' k then Some v' else Map_get k m'
  end.

Definition Map_keys {V} (m : Map V) : list string := m.*1.
Definition Map_values {V} (m : Map V) : list V := m.*2.

End Js.

(** ** The TTL cache of [FirestoreService] *)

Module Cache.
Section cache.
(** The payload type: the cache is declared with [data: any]. *)
Context {A : Type}.

Record entry : Type := Entry { data : A; timestamp : Z; ttl : Z }.

(** [cacheUtils.set(key, data, ttl)], [now] being the [Date.now()] reading *)
Definition set (key : string) (d : A) (t : Z) (now : Z)
    (cache : gmap string entry) : gmap string entry :=
  <[key := {| data := d; timestamp := now; ttl := t |}]> cache.

(** [cacheUtils.get(key)]: the value returned ([None] is [null]) and the
    cache it leaves. *)
Definition get (key : string) (now : Z) (cache : gmap string entry)
    : option A * gmap string entry :=
  match cache !! key with
  | None => (None, cache)
  | Some cached =>
      if now - timestamp cached >? ttl cached
      then (None, delete key cache)
      else (Some (data cached), cache)
  end.

(** [Array.from(cache.keys())] *)
Definition keys (cache : gmap string entry) : list string :=
  (map_to_list cache).*1.

(** The callback of [keys.forEach] in [invalidate] *)
Definition drop_matching (pattern : string) (cache : gmap string entry)
    (key : string) : gmap string entry :=
  if Js.includes key pattern then delete key cache else cache.

(** [cacheUtils.invalidate(pattern)] *)
Definition invalidate (pattern : string) (cache : gmap string entry)
    : gmap string entry :=
  foldl (drop_matching pattern) cache (keys cache).

(** [cache.clear()] *)
Definition clear (cache : gmap string entry) : gmap string entry := ∅.

(** The validity of an entry at a clock reading, as the specification
    words it. *)
Definition valid (e : entry) (now : Z) : Prop := now - timestamp e ≤ ttl e.

#[global] Instance valid_dec (e : entry) (now : Z) : Decision (valid e now).
Proof. unfold valid. apply _. Defined.
End cache.
Arguments entry : clear implicits.
End Cache.

(** ** [FirestoreService] *)

Module Firestore.

(** Field values of a stored document; arrays, nested objects and timestamps
    are kept as their serialised text. *)
Inductive jsval : Type :=
| JStr (s : string)
| JNum (n : Z)
| JBool (b : bool)
| JComposite (json : string).

(** A document snapshot: the identifier the store generated ([doc.id]) and
    the field data ([doc.data()]). *)
Record doc : Type := Doc { doc_id : string; doc_data : gmap string jsval }.

(** [{ id: doc.id, ...doc.data() }]: the fields of the data are written after
    [id], so a field named [id] in the data replaces the generated one. *)
Definition toEntity (d : doc) : gmap string jsval :=
  doc_data d ∪ {["id" := JStr (doc_id d)]}.

(** What the cache holds: lists of entities, single entities, counts. *)
Inductive payload : Type :=
| PList (items : list (gmap string jsval))
| PEntity (item : gmap string jsval)
| PNumber (n : Z).

(** Truthiness of a cached value: arrays and objects are truthy (the empty
    array too), a number is falsy when it is zero. *)
Definition truthy (p : payload) : bool :=
  match p with
  | PNumber 0 => false
  | _ => true
  end.

(** [if (cached) return cached]: the value returned at once, if any. *)
Definition hit (cached : option payload) : option payload :=
  match cached with
  | Some p => if truthy p then Some p else None
  | None => None
  end.

(** The requests the service sends to the remote store. *)
Inductive request : Type :=
| QueryTitlePrefix (normalizedTerm : string) (limitCount : nat)
| QueryTagsContainAny (tags : list string) (limitCount : nat)
| QueryByCategory (categoryId : string) (limitCount : nat) (startAfter : option doc)
| UpdateIncrement (wallpaperId : string) (field : string).

(** The module's state: the global [cache] map, and the requests sent so far. *)
Record world : Type := World {
  cache : gmap string (Cache.entry payload);
  requests : list request
}.

Definition with_cache (f : gmap string (Cache.entry payload) → gmap string (Cache.entry payload))
    (w : world) : world :=
  {| cache := f (cache w); requests := requests w |}.

Definition cacheUtils_get (key : string) (now : Z) : M world (option payload) :=
  λ w, let '(value, c) := Cache.get key now (cache w) in
       (Returned value, with_cache (λ _, c) w).

Definition cacheUtils_set (key : string) (d : payload) (ttl : Z) (now : Z) : M world unit :=
  modify (with_cache (Cache.set key d ttl now)).

Definition cacheUtils_invalidate (pattern : string) : M world unit :=
  modify (with_cache (Cache.invalidate pattern)).

(** The world once the request [r] has been sent. *)
Definition sent (r : request) (w : world) : world :=
  {| cache := cache w; requests := requests w ++ [r] |}.

Definition send (r : request) : M world unit := modify (sent r).

(** [handleFirestoreError]: logs and returns [null]. *)
Definition handleFirestoreError (error operation : string) : M world unit := ret tt.

(** [limit(n)], the query constraint of the Firestore SDK: the SDK checks
    that the limit is a positive number and throws otherwise, so that no
    query is built with [limit(0)]. The value returned is the limit the
    query carries. *)
Definition limit {S} (n : nat) : M S nat :=
  if Nat.eqb n 0 then throw "Function limit() requires a positive number"
  else ret n.

(** [await getDocs(q)]: the query [q] is sent, and the remote store settles
    it; [respond] is the way the store settles each query. *)
Definition getDocs (respond : request → settled (list doc)) (q : request)
    : M world (list doc) :=
  (send q ;;; await (respond q))%js.

(** [results.set(doc.id, { id: doc.id, ...doc.data() })] *)
Definition record (results : Js.Map (gmap string jsval)) (d : doc)
    : Js.Map (gmap string jsval) :=
  Js.Map_set (doc_id d) (toEntity d) results.

(** [querySnapshot.docs.forEach(doc => results.set(...))] when the query was
    fulfilled; nothing when it was rejected. *)
Definition collect (snapshot : settled (list doc)) (results : Js.Map (gmap string jsval))
    : Js.Map (gmap string jsval) :=
  match snapshot with
  | Fulfilled docs => foldl record results docs
  | Rejected _ => results
  end.

(** The documents of a settled query: none when it was rejected. *)
Definition docs_of (snapshot : settled (list doc)) : list doc :=
  match snapshot with
  | Fulfilled docs => docs
  | Rejected _ => []
  end.

(** The last document of a list that carries the identifier [id]. *)
Fixpoint latest (id : string) (docs : list doc) : option doc :=
  match docs with
  | [] => None
  | d :: rest =>
      match latest id rest with
      | Some d' => Some d'
      | None => if String.eqb (doc_id d) id then Some d else None
      end
  end.

(** [wallpaper.id] *)
Definition entity_id (item : gmap string jsval) : option jsval := item !! "id".

(** An entry of the result map whose entity carries, as its [id], the key it
    is stored under. *)
Definition keyed (kv : string * gmap string jsval) : Prop :=
  entity_id kv.2 = Some (JStr kv.1).

Record PaginationState : Type := Pagination { lastDoc : option doc; hasMore : bool }.

Section service.
(** [String.prototype.toLowerCase] and [toUpperCase] *)
Context (toLowerCase toUpperCase : string → string).

(** [searchWallpapers(searchTerm, limitCount)]. [t_get] and [t_set] are the
    clock readings of the cache read and write, [titleSnapshot] and
    [tagSnapshot] the way the two queries settle. *)
Definition searchWallpapers (t_get t_set : Z)
    (titleSnapshot tagSnapshot : settled (list doc))
    (searchTerm : string) (limitCount : nat) : M world payload :=
  if negb (Js.truthy (Js.trim searchTerm)) then ret (PList []) else
  let cacheKey := "search_" +:+ toLowerCase searchTerm +:+ "_" +:+ pretty limitCount in
  (cached <- cacheUtils_get cacheKey t_get ;;
   match hit cached with
   | Some value => ret value
   | None =>
       try_catch
         (let normalizedTerm := toUpperCase (Js.trim searchTerm) in
          titleLimit <- limit limitCount ;;
          let titleQuery := QueryTitlePrefix normalizedTerm titleLimit in
          tagLimit <- limit limitCount ;;
          let tagQuery := QueryTagsContainAny [toLowerCase normalizedTerm] tagLimit in
          send titleQuery ;;;
          send tagQuery ;;;
          let results := collect tagSnapshot (collect titleSnapshot []) in
          let data := Js.slice0 limitCount (Js.Map_values results) in
          cacheUtils_set cacheKey (PList data) (2 * 60 * 1000) t_set ;;;
          ret (PList data))
         (λ error, handleFirestoreError error "searchWallpapers" ;;; ret (PList []))
   end)%js.
End service.

(** [getWallpapersByCategory(categoryId, limitCount, paginationState)]. The
    query carries [startAfter(paginationState.lastDoc)] when there is a
    cursor document; [respond] is the way the store settles the query that
    is sent. *)
Definition getWallpapersByCategory (respond : request → settled (list doc))
    (categoryId : string) (limitCount : nat) (paginationState : option PaginationState)
    : M world (list (gmap string jsval) * PaginationState) :=
  try_catch
    (n <- limit limitCount ;;
     let q := QueryByCategory categoryId n (paginationState ≫= lastDoc) in
     docs <- getDocs respond q ;;
     let wallpapers := toEntity <$> docs in
     let newPaginationState :=
       {| lastDoc := last docs;
          hasMore := Nat.eqb (length docs) limitCount |} in
     ret (wallpapers, newPaginationState))%js
    (λ error, handleFirestoreError error "getWallpapersByCategory" ;;;
              ret ([], {| lastDoc := None; hasMore := false |}))%js.

(** [incrementDownloadCount(wallpaperId)]; [update] is the way [updateDoc]
    settles. *)
Definition incrementDownloadCount (update : settled unit) (wallpaperId : string)
    : M world bool :=
  try_catch
    (send (UpdateIncrement wallpaperId "downloads") ;;;
     await update ;;;
     cacheUtils_invalidate ("wallpaper_" +:+ wallpaperId) ;;;
     ret true)%js
    (λ error, handleFirestoreError error "incrementDownloadCount" ;;; ret false)%js.

(** [incrementViewCount(wallpaperId)] *)
Definition incrementViewCount (update : settled unit) (wallpaperId : string)
    : M world bool :=
  try_catch
    (send (UpdateIncrement wallpaperId "views") ;;;
     await update ;;;
     cacheUtils_invalidate ("wallpaper_" +:+ wallpaperId) ;;;
     ret true)%js
    (λ error, handleFirestoreError error "incrementViewCount" ;;; ret false)%js.

(** *** The remote store, as the paginated query uses it

    The store holds [documents], in the order of the query ([createdAt],
    descending). A query for a category is settled with the documents of
    that category that come after the cursor document, when the query
    carries one, and with at most as many of them as its limit says. *)
Definition in_category (categoryId : string) (d : doc) : bool :=
  match doc_data d !! "categoryId" with
  | Some (JStr c) => String.eqb c categoryId
  | _ => false
  end.

Fixpoint startAfter (cursor : doc) (matching : list doc) : list doc :=
  match matching with
  | [] => []
  | d :: rest =>
      if String.eqb (doc_id d) (doc_id cursor) then rest else startAfter cursor rest
  end.

Definition next_page (matching : list doc) (limitCount : nat) (cursor : option doc)
    : list doc :=
  take limitCount (match cursor with
                   | Some c => startAfter c matching
                   | None => matching
                   end).

Definition serve (documents : list doc) (q : request) : settled (list doc) :=
  match q with
  | QueryByCategory categoryId limitCount cursor =>
      Fulfilled (next_page (List.filter (in_category categoryId) documents)
                   limitCount cursor)
  | _ => Rejected "not a query of the category listing"
  end.

(** The cursor document once the first [i] matching documents have been
    fetched. *)
Definition cursor_at (matching : list doc) (i : nat) : option doc :=
  match i with
  | O => None
  | S j => matching !! j
  end.

(** A scroll session: [n] successive calls, each given the cursor that the
    previous one returned, the store settling each query as it is sent. The
    result lists the pages returned and gives the last cursor. *)
Fixpoint scroll (respond : request → settled (list doc)) (categoryId : string)
    (limitCount n : nat) (state : option PaginationState) (w : world)
    : list (list (gmap string jsval)) * option PaginationState * world :=
  match n with
  | O => ([], state, w)
  | S n' =>
      match getWallpapersByCategory respond categoryId limitCount state w with
      | (Returned (page, state'), w') =>
          let '(pages, final, w'') :=
            scroll respond categoryId limitCount n' (Some state') w' in
          (page :: pages, final, w'')
      | (Thrown _, w') => ([], state, w')
      end
  end.

(** The queries of a scroll over the documents [matching] of the category:
    the [j]-th one resumes after the [j * limitCount] documents fetched
    before it. *)
Definition scroll_queries (matching : list doc) (categoryId : string)
    (limitCount i n : nat) : list request :=
  (λ j, QueryByCategory categoryId limitCount
          (cursor_at matching (i + j * limitCount))) <$> seq 0 n.

End Firestore.

(** ** [FavoritesService] *)

Module Favorites.

Definition CACHE_DURATION : Z := 5 * 60 * 1000.

(** The item [AsyncStorage] holds under [FAVORITES_KEY] ([None] when there is
    none; otherwise the array whose JSON text is stored), the module variable
    [favoritesCache] ([None] is [null]) and [cacheTimestamp]. *)
Record state : Type := State {
  stored : option (list string);
  favoritesCache : option (list string);
  cacheTimestamp : Z
}.

(** [AsyncStorage.getItem(FAVORITES_KEY)] followed by
    [stored ? JSON.parse(stored) : []]; the promise is rejected when [fails]. *)
Definition AsyncStorage_getItem (fails : bool) : M state (option (list string)) :=
  if fails then throw "AsyncStorage.getItem" else gets stored.

(** [AsyncStorage.setItem(FAVORITES_KEY, JSON.stringify(favorites))] *)
Definition AsyncStorage_setItem (fails : bool) (favorites : list string) : M state unit :=
  if fails then throw "AsyncStorage.setItem"
  else modify (λ s, {| stored := Some favorites;
                       favoritesCache := favoritesCache s;
                       cacheTimestamp := cacheTimestamp s |}).

(** [AsyncStorage.removeItem(FAVORITES_KEY)] *)
Definition AsyncStorage_removeItem (fails : bool) : M state unit :=
  if fails then throw "AsyncStorage.removeItem"
  else modify (λ s, {| stored := None;
                       favoritesCache := favoritesCache s;
                       cacheTimestamp := cacheTimestamp s |}).

(** [favoritesCache = favorites; cacheTimestamp = now] *)
Definition set_mirror (favorites : option (list string)) (now : Z) : M state unit :=
  modify (λ s, {| stored := stored s;
                  favoritesCache := favorites;
                  cacheTimestamp := now |}).

(** The list the persisted item stands for. *)
Definition persisted (s : state) : list string := default [] (stored s).

(** [favoritesCache && (now - cacheTimestamp) < CACHE_DURATION]: the mirror
    when it is set (an empty array is truthy) and young enough. *)
Definition fresh_mirror (mirror : option (list string)) (stamp now : Z)
    : option (list string) :=
  match mirror with
  | Some cached => if now - stamp <? CACHE_DURATION then Some cached else None
  | None => None
  end.

(** [getFavorites()]; [now] is the clock reading, [read_fails] tells whether
    the storage read, if it takes place, is rejected. *)
Definition getFavorites (now : Z) (read_fails : bool) : M state (list string) :=
  (mirror <- gets favoritesCache ;;
   stamp <- gets cacheTimestamp ;;
   match fresh_mirror mirror stamp now with
   | Some cached => ret cached
   | None =>
       try_catch
         (item <- AsyncStorage_getItem read_fails ;;
          let favorites := default [] item in
          set_mirror (Some favorites) now ;;;
          ret favorites)
         (λ error, ret [])
   end)%js.

(** [isFavorite(wallpaperId)] *)
Definition isFavorite (now : Z) (read_fails : bool) (wallpaperId : string)
    : M state bool :=
  (favorites <- getFavorites now read_fails ;;
   ret (Js.array_includes favorites wallpaperId))%js.

Record toggled : Type := Toggled { isFavorite_ : bool; message : string }.

(** [toggleFavorite(wallpaperId)]; [now'] is the clock reading taken after
    the write. *)
Definition toggleFavorite (now : Z) (read_fails write_fails : bool) (now' : Z)
    (wallpaperId : string) : M state toggled :=
  try_catch
    (favorites <- getFavorites now read_fails ;;
     let currentlyFavorite := Js.array_includes favorites wallpaperId in
     let newFavorites :=
       if currentlyFavorite
       then List.filter (λ id, negb (String.eqb id wallpaperId)) favorites
       else favorites ++ [wallpaperId] in
     let message :=
       if currentlyFavorite then "Retiré des favoris" else "Ajouté aux favoris" in
     AsyncStorage_setItem write_fails newFavorites ;;;
     set_mirror (Some newFavorites) now' ;;;
     ret {| isFavorite_ := negb currentlyFavorite; message := message |})%js
    (λ error, throw "Erreur lors de la mise à jour des favoris").

(** [addFavorite(wallpaperId)] *)
Definition addFavorite (now : Z) (read_fails write_fails : bool) (now' : Z)
    (wallpaperId : string) : M state bool :=
  (result <- toggleFavorite now read_fails write_fails now' wallpaperId ;;
   ret (isFavorite_ result))%js.

(** [removeFavorite(wallpaperId)]: [now0] and [read_fails0] belong to its own
    call of [getFavorites], the others to the call of [toggleFavorite]. *)
Definition removeFavorite (now0 : Z) (read_fails0 : bool)
    (now : Z) (read_fails write_fails : bool) (now' : Z)
    (wallpaperId : string) : M state bool :=
  (favorites <- getFavorites now0 read_fails0 ;;
   if negb (Js.array_includes favorites wallpaperId) then ret true
   else
     result <- toggleFavorite now read_fails write_fails now' wallpaperId ;;
     ret (negb (isFavorite_ result)))%js.

(** [getFavoritesCount()] *)
Definition getFavoritesCount (now : Z) (read_fails : bool) : M state nat :=
  (favorites <- getFavorites now read_fails ;; ret (length favorites))%js.

(** [clearFavorites()] *)
Definition clearFavorites (remove_fails : bool) (now : Z) : M state unit :=
  try_catch
    (AsyncStorage_removeItem remove_fails ;;;
     set_mirror (Some []) now)%js
    (λ error, throw "Erreur lors de la suppression des favoris").

(** [exportFavorites()] *)
Definition exportFavorites (now : Z) (read_fails : bool) : M state (list string) :=
  getFavorites now read_fails.

(** [importFavorites(favoriteIds)] *)
Definition importFavorites (write_fails : bool) (now : Z) (favoriteIds : list string)
    : M state unit :=
  try_catch
    (let validIds := List.filter (λ id, (0 <? String.length id)%nat) favoriteIds in
     AsyncStorage_setItem write_fails validIds ;;;
     set_mirror (Some validIds) now)%js
    (λ error, throw "Erreur lors de l'importation des favoris").

(** [invalidateCache()] *)
Definition invalidateCache : M state unit := set_mirror None 0.

(** The three operations that write the persisted list, with what the
    environment answers to each. *)
Inductive mutation : Type :=
| ToggleFavorite (now : Z) (read_fails write_fails : bool) (now' : Z)
    (wallpaperId : string)
| ClearFavorites (remove_fails : bool) (now : Z)
| ImportFavorites (write_fails : bool) (now : Z) (favoriteIds : list string).

Definition mutate (m : mutation) : M state unit :=
  match m with
  | ToggleFavorite now read_fails write_fails now' wallpaperId =>
      (toggleFavorite now read_fails write_fails now' wallpaperId ;;; ret tt)%js
  | ClearFavorites remove_fails now => clearFavorites remove_fails now
  | ImportFavorites write_fails now favoriteIds =>
      importFavorites write_fails now favoriteIds
  end.

(** Any call of the service. *)
Inductive call : Type :=
| GetFavorites (now : Z) (read_fails : bool)
| IsFavorite (now : Z) (read_fails : bool) (wallpaperId : string)
| Toggle (now : Z) (read_fails write_fails : bool) (now' : Z) (wallpaperId : string)
| Add (now : Z) (read_fails write_fails : bool) (now' : Z) (wallpaperId : string)
| Remove (now0 : Z) (read_fails0 : bool) (now : Z) (read_fails write_fails : bool)
    (now' : Z) (wallpaperId : string)
| Count (now : Z) (read_fails : bool)
| Clear (remove_fails : bool) (now : Z)
| Export (now : Z) (read_fails : bool)
| Import (write_fails : bool) (now : Z) (favoriteIds : list string)
| Invalidate.

(** The state a call leaves, whether it returns or throws. *)
Definition exec (c : call) (s : state) : state :=
  match c with
  | GetFavorites now r => (getFavorites now r s).2
  | IsFavorite now r id => (isFavorite now r id s).2
  | Toggle now r w now' id => (toggleFavorite now r w now' id s).2
  | Add now r w now' id => (addFavorite now r w now' id s).2
  | Remove now0 r0 now r w now' id => (removeFavorite now0 r0 now r w now' id s).2
  | Count now r => (getFavoritesCount now r s).2
  | Clear r now => (clearFavorites r now s).2
  | Export now r => (exportFavorites now r s).2
  | Import w now ids => (importFavorites w now ids s).2
  | Invalidate => (invalidateCache s).2
  end.

Definition run (calls : list call) (s : state) : state := foldl (λ s c, exec c s) s calls.

(** [getFavorites] answers from the mirror: the mirror is set and younger
    than [CACHE_DURATION]. *)
Definition served_from_mirror (now : Z) (s : state) : Prop :=
  is_Some (favoritesCache s) ∧ now - cacheTimestamp s < CACHE_DURATION.

(** The list [toggleFavorite] persists, given the one it read. *)
Definition toggled_list (favorites : list string) (wallpaperId : string) : list string :=
  if Js.array_includes favorites wallpaperId
  then List.filter (λ id, negb (String.eqb id wallpaperId)) favorites
  else favorites ++ [wallpaperId].

(** The mirror equals the persisted list. *)
Definition synced (s : state) : Prop := favoritesCache s = Some (persisted s).

(** The mirror is not stale: it is unset, or equals the persisted list. *)
Definition coherent (s : state) : Prop := favoritesCache s = None ∨ synced s.

(** The favorites set is empty: nothing persisted, and no mirror or an empty
    one. *)
Definition empty_favorites (s : state) : Prop :=
  persisted s = [] ∧ (favoritesCache s = None ∨ favoritesCache s = Some []).

(** A call that brings no duplicates of its own: every call but an
    [importFavorites] of a list with repeated identifiers. *)
Definition brings_no_duplicates (c : call) : Prop :=
  match c with
  | Import _ _ favoriteIds => NoDup favoriteIds
  | _ => True
  end.

End Favorites.

(** ** The cached reads of [FirestoreService] *)

Module Reads.
Import Firestore.

Definition CACHE_TTL_categories : Z := 10 * 60 * 1000.
Definition CACHE_TTL_wallpapers : Z := 5 * 60 * 1000.
Definition CACHE_TTL_featured : Z := 3 * 60 * 1000.

(** The read requests of the service: [getDoc] on a document reference, the
    [getDocs] queries and [getCountFromServer]. *)
Inductive read : Type :=
| GetDoc (collection : string) (id : string)
| QueryFeatured (limitCount : nat)
| QueryAllCategories
| QueryRelated (categoryId : string) (limitCount : nat)
| QueryPopular (limitCount : nat)
| QueryNew (limitCount : nat)
| CountByCategory (categoryId : string).

(** The state of the service with the read requests sent so far. *)
Record session : Type := Session { service : world; reads : list read }.

(** An operation on the cache and the update log, run within a session. *)
Definition lift {A} (m : M world A) : M session A :=
  λ s, let '(result, w) := m (service s) in
       (result, {| service := w; reads := reads s |}).

Definition ask (r : read) : M session unit :=
  modify (λ s, {| service := service s; reads := reads s ++ [r] |}).

(** [wallpaper.id !== excludeId] is false: the entity's [id] is the string
    [excludeId]. *)
Definition id_is (excludeId : string) (item : gmap string jsval) : bool :=
  match entity_id item with
  | Some (JStr s) => String.eqb s excludeId
  | _ => false
  end.

(** [getFeaturedWallpapers(limitCount)] *)
Definition getFeaturedWallpapers (t_get t_set : Z) (snapshot : settled (list doc))
    (limitCount : nat) : M session payload :=
  let cacheKey := "featured_wallpapers_" +:+ pretty limitCount in
  (cached <- lift (cacheUtils_get cacheKey t_get) ;;
   match hit cached with
   | Some value => ret value
   | None =>
       try_catch
         (n <- limit limitCount ;;
          ask (QueryFeatured n) ;;;
          docs <- await snapshot ;;
          let data := toEntity <$> docs in
          lift (cacheUtils_set cacheKey (PList data) CACHE_TTL_featured t_set) ;;;
          ret (PList data))
         (λ error, lift (handleFirestoreError error "getFeaturedWallpapers") ;;;
                   ret (PList []))
   end)%js.

(** [getAllCategories()] *)
Definition getAllCategories (t_get t_set : Z) (snapshot : settled (list doc))
    : M session payload :=
  let cacheKey := "all_categories" in
  (cached <- lift (cacheUtils_get cacheKey t_get) ;;
   match hit cached with
   | Some value => ret value
   | None =>
       try_catch
         (ask QueryAllCategories ;;;
          docs <- await snapshot ;;
          let data := toEntity <$> docs in
          lift (cacheUtils_set cacheKey (PList data) CACHE_TTL_categories t_set) ;;;
          ret (PList data))
         (λ error, lift (handleFirestoreError error "getAllCategories") ;;;
                   ret (PList []))
   end)%js.

(** [getCategoryById(id)]; the snapshot holds [None] when [docSnap.exists()]
    is false. The result [None] is [null]. *)
Definition getCategoryById (t_get t_set : Z) (snapshot : settled (option doc))
    (id : string) : M session (option payload) :=
  let cacheKey := "category_" +:+ id in
  (cached <- lift (cacheUtils_get cacheKey t_get) ;;
   match hit cached with
   | Some value => ret (Some value)
   | None =>
       try_catch
         (ask (GetDoc "OWP_categories" id) ;;;
          docSnap <- await snapshot ;;
          match docSnap with
          | Some d =>
              let data := toEntity d in
              lift (cacheUtils_set cacheKey (PEntity data) CACHE_TTL_categories t_set) ;;;
              ret (Some (PEntity data))
          | None => ret None
          end)
         (λ error, lift (handleFirestoreError error "getCategoryById") ;;; ret None)
   end)%js.

(** [getWallpaperById(id)] *)
Definition getWallpaperById (t_get t_set : Z) (snapshot : settled (option doc))
    (id : string) : M session (option payload) :=
  let cacheKey := "wallpaper_" +:+ id in
  (cached <- lift (cacheUtils_get cacheKey t_get) ;;
   match hit cached with
   | Some value => ret (Some value)
   | None =>
       try_catch
         (ask (GetDoc "OWP_wallpapers" id) ;;;
          docSnap <- await snapshot ;;
          match docSnap with
          | Some d =>
              let data := toEntity d in
              lift (cacheUtils_set cacheKey (PEntity data) CACHE_TTL_wallpapers t_set) ;;;
              ret (Some (PEntity data))
          | None => ret None
          end)
         (λ error, lift (handleFirestoreError error "getWallpaperById") ;;; ret None)
   end)%js.

(** [getRelatedWallpapers(categoryId, excludeId, limitCount)] *)
Definition getRelatedWallpapers (t_get t_set : Z) (snapshot : settled (list doc))
    (categoryId excludeId : string) (limitCount : nat) : M session payload :=
  let cacheKey :=
    "related_" +:+ categoryId +:+ "_" +:+ excludeId +:+ "_" +:+ pretty limitCount in
  (cached <- lift (cacheUtils_get cacheKey t_get) ;;
   match hit cached with
   | Some value => ret value
   | None =>
       try_catch
         (n <- limit (limitCount + 1) ;;
          ask (QueryRelated categoryId n) ;;;
          docs <- await snapshot ;;
          let data :=
            Js.slice0 limitCount
              (List.filter (λ wallpaper, negb (id_is excludeId wallpaper))
                           (toEntity <$> docs)) in
          lift (cacheUtils_set cacheKey (PList data) CACHE_TTL_wallpapers t_set) ;;;
          ret (PList data))
         (λ error, lift (handleFirestoreError error "getRelatedWallpapers") ;;;
                   ret (PList []))
   end)%js.

(** [getPopularWallpapers(limitCount)] *)
Definition getPopularWallpapers (t_get t_set : Z) (snapshot : settled (list doc))
    (limitCount : nat) : M session payload :=
  let cacheKey := "popular_wallpapers_" +:+ pretty limitCount in
  (cached <- lift (cacheUtils_get cacheKey t_get) ;;
   match hit cached with
   | Some value => ret value
   | None =>
       try_catch
         (n <- limit limitCount ;;
          ask (QueryPopular n) ;;;
          docs <- await snapshot ;;
          let data := toEntity <$> docs in
          lift (cacheUtils_set cacheKey (PList data) CACHE_TTL_wallpapers t_set) ;;;
          ret (PList data))
         (λ error, lift (handleFirestoreError error "getPopularWallpapers") ;;;
                   ret (PList []))
   end)%js.

(** [getNewWallpapers(limitCount)] *)
Definition getNewWallpapers (t_get t_set : Z) (snapshot : settled (list doc))
    (limitCount : nat) : M session payload :=
  let cacheKey := "new_wallpapers_" +:+ pretty limitCount in
  (cached <- lift (cacheUtils_get cacheKey t_get) ;;
   match hit cached with
   | Some value => ret value
   | None =>
       try_catch
         (n <- limit limitCount ;;
          ask (QueryNew n) ;;;
          docs <- await snapshot ;;
          let data := toEntity <$> docs in
          lift (cacheUtils_set cacheKey (PList data) CACHE_TTL_wallpapers t_set) ;;;
          ret (PList data))
         (λ error, lift (handleFirestoreError error "getNewWallpapers") ;;;
                   ret (PList []))
   end)%js.

(** [getWallpapersCountByCategory(categoryId)]: the cached value is returned
    whenever it is not [null], a zero included. *)
Definition getWallpapersCountByCategory (t_get t_set : Z) (snapshot : settled Z)
    (categoryId : string) : M session payload :=
  let cacheKey := "count_" +:+ categoryId in
  (cached <- lift (cacheUtils_get cacheKey t_get) ;;
   match cached with
   | Some value => ret value
   | None =>
       try_catch
         (ask (CountByCategory categoryId) ;;;
          count <- await snapshot ;;
          lift (cacheUtils_set cacheKey (PNumber count) CACHE_TTL_wallpapers t_set) ;;;
          ret (PNumber count))
         (λ error, lift (handleFirestoreError error "getWallpapersCountByCategory") ;;;
                   ret (PNumber 0))
   end)%js.

(** [clearCache()] *)
Definition clearCache : M world unit := modify (with_cache Cache.clear).

(** [invalidateCache(pattern?)]: [None] is a call without argument; an empty
    string is falsy. *)
Definition invalidateCache (pattern : option string) : M world unit :=
  match pattern with
  | Some p => if Js.truthy p then cacheUtils_invalidate p else modify (with_cache Cache.clear)
  | None => modify (with_cache Cache.clear)
  end.

Record CacheStats : Type := Stats { size_ : nat; keys_ : list string }.

(** [getCacheStats()] *)
Definition getCacheStats : M world CacheStats :=
  gets (λ w, {| size_ := size (cache w); keys_ := Cache.keys (cache w) |}).

(** The session after the fetch of a miss: the entry that the read may have
    dropped is gone, the request is logged, [value] is stored. *)
Definition fetched (k : string) (t_get : Z) (r : read) (value : payload) (ttl t_set : Z)
    (s : session) : session :=
  {| service := {| cache := Cache.set k value ttl t_set
                              (Cache.get k t_get (cache (service s))).2;
                   requests := requests (service s) |};
     reads := reads s ++ [r] |}.

(** The session after a miss whose fetch stored nothing. *)
Definition asked (k : string) (t_get : Z) (r : read) (s : session) : session :=
  {| service := {| cache := (Cache.get k t_get (cache (service s))).2;
                   requests := requests (service s) |};
     reads := reads s ++ [r] |}.

(** The outcome shared by the list reads on a miss: the entities of the
    documents, stored under the key, or the empty list when the query is
    rejected. *)
Definition list_read_miss (k : string) (t_get : Z) (r : read) (ttl t_set : Z)
    (snapshot : settled (list doc)) (s : session) : outcome payload * session :=
  match snapshot with
  | Fulfilled docs =>
      (Returned (PList (toEntity <$> docs)),
       fetched k t_get r (PList (toEntity <$> docs)) ttl t_set s)
  | Rejected _ => (Returned (PList []), asked k t_get r s)
  end.

(** The character [c] does not occur in [s]. *)
Fixpoint lacks (c : ascii) (s : string) : bool :=
  match s with
  | EmptyString => true
  | String a s' => negb (Ascii.eqb a c) && lacks c s'
  end.

(** The kind of value each family of keys is written with: entities under
    [wallpaper_] and [category_], a number under [count_], lists under the
    others. *)
Definition expected (key : string) (p : payload) : bool :=
  if String.prefix "wallpaper_" key || String.prefix "category_" key
  then match p with PEntity _ => true | _ => false end
  else if String.prefix "count_" key
  then match p with PNumber _ => true | _ => false end
  else match p with PList _ => true | _ => false end.

(** Every entry of the cache holds the kind of value its key stands for. *)
Definition typed (c : gmap string (Cache.entry payload)) : Prop :=
  ∀ k e, c !! k = Some e → expected k (Cache.data e) = true.

(** What the environment answers to a call. *)
Inductive action : Type :=
| Featured (t_get t_set : Z) (snapshot : settled (list doc)) (limitCount : nat)
| AllCategories (t_get t_set : Z) (snapshot : settled (list doc))
| CategoryById (t_get t_set : Z) (snapshot : settled (option doc)) (id : string)
| WallpaperById (t_get t_set : Z) (snapshot : settled (option doc)) (id : string)
| ByCategory (snapshot : settled (list doc)) (categoryId : string) (limitCount : nat)
    (paginationState : option PaginationState)
| Related (t_get t_set : Z) (snapshot : settled (list doc))
    (categoryId excludeId : string) (limitCount : nat)
| Popular (t_get t_set : Z) (snapshot : settled (list doc)) (limitCount : nat)
| New (t_get t_set : Z) (snapshot : settled (list doc)) (limitCount : nat)
| CountOf (t_get t_set : Z) (snapshot : settled Z) (categoryId : string)
| Search (t_get t_set : Z) (titleSnapshot tagSnapshot : settled (list doc))
    (searchTerm : string) (limitCount : nat)
| IncrementDownload (update : settled unit) (wallpaperId : string)
| IncrementView (update : settled unit) (wallpaperId : string)
| ClearCache
| InvalidateCache (pattern : option string).

Section perform.
Context (toLowerCase toUpperCase : string → string).

(** The session a call leaves. *)
Definition perform (a : action) (s : session) : session :=
  match a with
  | Featured t_get t_set snapshot n => (getFeaturedWallpapers t_get t_set snapshot n s).2
  | AllCategories t_get t_set snapshot => (getAllCategories t_get t_set snapshot s).2
  | CategoryById t_get t_set snapshot id => (getCategoryById t_get t_set snapshot id s).2
  | WallpaperById t_get t_set snapshot id => (getWallpaperById t_get t_set snapshot id s).2
  | ByCategory snapshot categoryId n state =>
      (lift (getWallpapersByCategory (λ _, snapshot) categoryId n state) s).2
  | Related t_get t_set snapshot categoryId excludeId n =>
      (getRelatedWallpapers t_get t_set snapshot categoryId excludeId n s).2
  | Popular t_get t_set snapshot n => (getPopularWallpapers t_get t_set snapshot n s).2
  | New t_get t_set snapshot n => (getNewWallpapers t_get t_set snapshot n s).2
  | CountOf t_get t_set snapshot categoryId =>
      (getWallpapersCountByCategory t_get t_set snapshot categoryId s).2
  | Search t_get t_set titleSnapshot tagSnapshot searchTerm n =>
      (lift (searchWallpapers toLowerCase toUpperCase t_get t_set
               titleSnapshot tagSnapshot searchTerm n) s).2
  | IncrementDownload update id => (lift (incrementDownloadCount update id) s).2
  | IncrementView update id => (lift (incrementViewCount update id) s).2
  | ClearCache => (lift clearCache s).2
  | InvalidateCache pattern => (lift (invalidateCache pattern) s).2
  end.

Definition perform_all (actions : list action) (s : session) : session :=
  foldl (λ s a, perform a s) s actions.
End perform.

End Reads.

(** ** The favorites screen: [loadFavorites] *)

Module FavoritesScreen.
Import Firestore Reads.

(** What the environment answers to the [i]-th [getWallpaperById] of a load:
    the clock reading of its cache read, the way its [getDoc] settles, the
    clock reading of its cache write. *)
Record fetch_env : Type := FetchEnv {
  at_get : Z;
  answer : settled (option doc);
  at_set : Z
}.

(** What the environment answers to the [i]-th [removeFavorite] of a load. *)
Record removal_env : Type := RemovalEnv {
  now0 : Z; read_fails0 : bool;
  now1 : Z; read_fails1 : bool; write_fails1 : bool; now1' : Z
}.

(** The favorites store, the Firestore service, and the state of the screen:
    [favorites], [error], [loading] and [refreshing]. *)
Record app : Type := App {
  store : Favorites.state;
  remote : session;
  favorites : list payload;
  error : option string;
  loading : bool;
  refreshing : bool
}.

Definition on_store {A} (m : M Favorites.state A) : M app A :=
  λ a, let '(result, st) := m (store a) in
       (result, {| store := st; remote := remote a; favorites := favorites a;
                   error := error a; loading := loading a;
                   refreshing := refreshing a |}).

Definition on_remote {A} (m : M session A) : M app A :=
  λ a, let '(result, s) := m (remote a) in
       (result, {| store := store a; remote := s; favorites := favorites a;
                   error := error a; loading := loading a;
                   refreshing := refreshing a |}).

Definition setFavorites (l : list payload) : M app unit :=
  modify (λ a, {| store := store a; remote := remote a; favorites := l;
                  error := error a; loading := loading a;
                  refreshing := refreshing a |}).

Definition setError (e : option string) : M app unit :=
  modify (λ a, {| store := store a; remote := remote a; favorites := favorites a;
                  error := e; loading := loading a; refreshing := refreshing a |}).

Definition setLoading (b : bool) : M app unit :=
  modify (λ a, {| store := store a; remote := remote a; favorites := favorites a;
                  error := error a; loading := b; refreshing := refreshing a |}).

Definition setRefreshing (b : bool) : M app unit :=
  modify (λ a, {| store := store a; remote := remote a; favorites := favorites a;
                  error := error a; loading := loading a; refreshing := b |}).

(** A call of [getWallpaperById] that has run up to its first [await]: it
    returned the cached value, or it sent its request and waits. *)
Inductive pending : Type :=
| Hit (value : payload)
| Asked.

(** [getWallpaperById(id)] up to its [await getDoc(docRef)]. (The [catch] that
    the screen wraps around the call is never reached: [getWallpaperById]
    catches its own errors.) *)
Definition begin_fetch (e : fetch_env) (id : string) : M session pending :=
  (cached <- lift (cacheUtils_get ("wallpaper_" +:+ id) (at_get e)) ;;
   match hit cached with
   | Some value => ret (Hit value)
   | None => ask (GetDoc "OWP_wallpapers" id) ;;; ret Asked
   end)%js.

(** [getWallpaperById(id)] from its [await] on: what it returns, and what it
    does to the cache. *)
Definition fetched_value (e : fetch_env) (p : pending) : option payload :=
  match p with
  | Hit value => Some value
  | Asked =>
      match answer e with
      | Fulfilled (Some d) => Some (PEntity (toEntity d))
      | _ => None
      end
  end.

Definition finish_fetch (e : fetch_env) (id : string) (p : pending)
    (s : session) : session :=
  match p with
  | Hit _ => s
  | Asked =>
      match answer e with
      | Fulfilled (Some d) =>
          (lift (cacheUtils_set ("wallpaper_" +:+ id) (PEntity (toEntity d))
                   CACHE_TTL_wallpapers (at_set e)) s).2
      | _ => s
      end
  end.

(** [favoriteIds.map(async (id) => ...)]: the calls start one after the other,
    each running up to its [await]; [i] is the index of the first. *)
Fixpoint begin_all (fetches : nat → fetch_env) (i : nat) (ids : list string)
    : M session (list pending) :=
  match ids with
  | [] => ret []
  | id :: rest =>
      (p <- begin_fetch (fetches i) id ;;
       ps <- begin_all fetches (S i) rest ;;
       ret (p :: ps))%js
  end.

(** [await Promise.allSettled(favoritesPromises)]: the pending calls finish
    in the order [schedule] in which their requests settle. *)
Definition finish_all (fetches : nat → fetch_env) (ids : list string)
    (pendings : list pending) (schedule : list nat) : M session unit :=
  modify (λ s, foldl (λ s i, match ids !! i, pendings !! i with
                             | Some id, Some p => finish_fetch (fetches i) id p s
                             | _, _ => s
                             end) s schedule).

(** [result.status === 'fulfilled' ? result.value : null] for each call. *)
Definition results (fetches : nat → fetch_env) (pendings : list pending)
    : list (option payload) :=
  imap (λ i p, fetched_value (fetches i) p) pendings.

(** [w.id] *)
Definition payload_id (w : payload) : option jsval :=
  match w with
  | PEntity item => entity_id item
  | _ => None
  end.

(** [validIds.includes(id)] *)
Definition includes_id (validIds : list (option jsval)) (id : string) : bool :=
  existsb (λ v, match v with
                | Some (JStr s) => String.eqb s id
                | _ => false
                end) validIds.

(** [for (const invalidId of invalidIds) await removeFavorite(invalidId)];
    [i] is the index of the first removal. *)
Fixpoint remove_each (removals : nat → removal_env) (i : nat)
    (invalidIds : list string) : M Favorites.state unit :=
  match invalidIds with
  | [] => ret tt
  | invalidId :: rest =>
      let e := removals i in
      (Favorites.removeFavorite (now0 e) (read_fails0 e) (now1 e) (read_fails1 e)
         (write_fails1 e) (now1' e) invalidId ;;;
       remove_each removals (S i) rest)%js
  end.

(** The storage answers every call of a removal. *)
Definition answering (e : removal_env) : Prop :=
  read_fails0 e = false ∧ read_fails1 e = false ∧ write_fails1 e = false.

(** The store has no document for the [i]-th identifier, or cannot be
    reached. *)
Definition unavailable (e : fetch_env) : Prop :=
  answer e = Fulfilled None ∨ ∃ reason, answer e = Rejected reason.

(** The cache holds no copy of any of the wallpapers [ids]. *)
Definition uncached (ids : list string) (s : session) : Prop :=
  ∀ id, id ∈ ids → cache (service s) !! ("wallpaper_" +:+ id) = None.

(** The store delivers, for each of the identifiers [ids], the document of
    that identifier, whose data has no [id] field of its own. *)
Definition delivered (fetches : nat → fetch_env) (ids : list string) : Prop :=
  ∀ i id, ids !! i = Some id →
    ∃ d, answer (fetches i) = Fulfilled (Some d)
         ∧ doc_id d = id ∧ doc_data d !! "id" = None.

(** The item [w] shown on the screen is the wallpaper of identifier [id]. *)
Definition shows (id : string) (w : payload) : Prop :=
  ∃ item, w = PEntity item ∧ entity_id item = Some (JStr id).

(** [loadFavorites(showRefreshIndicator)] *)
Definition loadFavorites (showRefreshIndicator : bool) (now : Z) (read_fails : bool)
    (fetches : nat → fetch_env) (schedule : list nat)
    (removals : nat → removal_env) : M app unit :=
  (try_catch
     ((if showRefreshIndicator then setRefreshing true else setLoading true) ;;;
      setError None ;;;
      favoriteIds <- on_store (Favorites.getFavorites now read_fails) ;;
      if Nat.eqb (length favoriteIds) 0 then setFavorites []
      else
        pendings <- on_remote (begin_all fetches 0 favoriteIds) ;;
        on_remote (finish_all fetches favoriteIds pendings schedule) ;;;
        let validFavorites := omap id (results fetches pendings) in
        let validIds := payload_id <$> validFavorites in
        let invalidIds :=
          List.filter (λ id, negb (includes_id validIds id)) favoriteIds in
        on_store (remove_each removals 0 invalidIds) ;;;
        setFavorites validFavorites)
     (λ _, setError (Some "Erreur lors du chargement des favoris")) ;;;
   setLoading false ;;;
   setRefreshing false)%js.

End FavoritesScreen.

(** * Properties *)

(** ** Strings and ordered maps *)

Lemma append_cons (a : ascii) (s t : string) :
  String a s +:+ t = String a (s +:+ t).
Proof. reflexivity. Qed.

Lemma append_nil (t : string) : EmptyString +:+ t = t.
Proof. reflexivity. Qed.

Lemma prefix_app (p s : string) :
  String.prefix p s = true ↔ ∃ t, s = p +:+ t.
Proof.
  revert s. induction p as [|a p IH]; intros s.
  - split; [intros _; by exists s | by destruct s].
  - setoid_rewrite append_cons. destruct s as [|b s]; cbn [String.prefix].
    + split; [done | by intros [t Ht]].
    + destruct (Ascii.ascii_dec a b) as [->|Hne].
      * rewrite IH. split; intros [t Ht]; exists t; congruence.
      * split; [done | intros [t Ht]; congruence].
Qed.

Lemma includes_substring (s pattern : string) :
  Js.includes s pattern = true ↔ ∃ pre post, s = pre +:+ pattern +:+ post.
Proof.
  induction s as [|a s IH]; cbn [Js.includes].
  - rewrite orb_false_r, prefix_app. split.
    + intros [t Ht]. by exists EmptyString, t.
    + intros [pre [post H]]. destruct pre; [by exists post | done].
  - rewrite orb_true_iff, prefix_app, IH. split.
    + intros [[t Ht]|[pre [post H]]].
      * by exists EmptyString, t.
      * exists (String a pre), post. rewrite append_cons. by rewrite H.
    + intros [pre [post H]]. destruct pre as [|b pre].
      * left. by exists post.
      * right. exists pre, post. rewrite append_cons in H. congruence.
Qed.

Lemma includes_not_substring (s pattern : string) :
  Js.includes s pattern = false ↔ ¬ ∃ pre post, s = pre +:+ pattern +:+ post.
Proof. rewrite <- includes_substring. by destruct (Js.includes s pattern). Qed.

(** ** The cache *)

Section cache_facts.
Context {A : Type}.
Implicit Types (c : gmap string (Cache.entry A)) (k pattern : string).

Lemma sweep_keeps pattern (ks : list string) c k :
  Js.includes k pattern = false →
  foldl (Cache.drop_matching pattern) c ks !! k = c !! k.
Proof.
  intros Hk. revert c. induction ks as [|a ks IH]; intros c; simpl; [done|].
  rewrite IH. unfold Cache.drop_matching.
  destruct (Js.includes a pattern) eqn:Ha; [|done].
  apply lookup_delete_ne. congruence.
Qed.

Lemma sweep_absent pattern (ks : list string) c k :
  c !! k = None → foldl (Cache.drop_matching pattern) c ks !! k = None.
Proof.
  revert c. induction ks as [|a ks IH]; intros c Hc; simpl; [done|].
  apply IH. unfold Cache.drop_matching.
  destruct (Js.includes a pattern); [|done].
  rewrite lookup_delete. by case_decide.
Qed.

Lemma sweep_drops pattern (ks : list string) c k :
  Js.includes k pattern = true → k ∈ ks →
  foldl (Cache.drop_matching pattern) c ks !! k = None.
Proof.
  intros Hk. revert c. induction ks as [|a ks IH]; intros c Hin; simpl.
  - by apply elem_of_nil in Hin.
  - apply elem_of_cons in Hin as [<-|Hin]; [|by apply IH].
    apply sweep_absent. unfold Cache.drop_matching. rewrite Hk.
    apply lookup_delete_eq.
Qed.

Lemma invalidate_lookup pattern c k :
  Cache.invalidate pattern c !! k =
  if Js.includes k pattern then None else c !! k.
Proof.
  unfold Cache.invalidate.
  destruct (Js.includes k pattern) eqn:Hk; [|by apply sweep_keeps].
  destruct (c !! k) as [e|] eqn:Hc; [|by apply sweep_absent].
  apply sweep_drops; [done|].
  unfold Cache.keys. apply list_elem_of_fmap. exists (k, e).
  split; [done|]. by apply elem_of_map_to_list.
Qed.

Lemma get_lookup k now c :
  Cache.get k now c =
  match c !! k with
  | Some e => if bool_decide (Cache.valid e now)
              then (Some (Cache.data e), c) else (None, delete k c)
  | None => (None, c)
  end.
Proof.
  unfold Cache.get, Cache.valid. destruct (c !! k) as [e|]; [|done].
  destruct (Z.gtb_spec (now - Cache.timestamp e) (Cache.ttl e));
    case_bool_decide; (done || lia).
Qed.

End cache_facts.

(** C5. An entry stored by [set(k, v, ttl)] at time [storedAt] is valid at
    [now] iff [now - storedAt <= ttl], and [get(k)] returns [v] exactly when
    it is valid: a read at the time of the write returns [v] (for a [ttl]
    that is not negative), a read more than [ttl] later returns [null].
    The expired entry is deleted by that very [get]: while it is valid the
    read leaves the cache as it is, and reads of other keys, at any time,
    leave the entry in place. *)
Theorem cache_set_then_get {A} (k : string) (v : A) (ttl storedAt now : Z)
    (c : gmap string (Cache.entry A)) :
  let e := Cache.Entry v storedAt ttl in
  let c' := Cache.set k v ttl storedAt c in
  c' !! k = Some e
  ∧ (Cache.valid e now ↔ now - storedAt ≤ ttl)
  ∧ Cache.get k now c' =
      (if bool_decide (now - storedAt ≤ ttl)
       then (Some v, c') else (None, delete k c'))
  ∧ ((Cache.get k now c').1 = Some v ↔ now - storedAt ≤ ttl)
  ∧ Cache.get k storedAt c' =
      (if bool_decide (0 ≤ ttl) then (Some v, c') else (None, delete k c'))
  ∧ (ttl < now - storedAt →
     (Cache.get k now c').1 = None ∧ (Cache.get k now c').2 !! k = None)
  ∧ (∀ k' now', k' ≠ k → (Cache.get k' now' c').2 !! k = Some e).
Proof.
  intros e c'.
  assert (Hk : c' !! k = Some e) by apply lookup_insert_eq.
  assert (Hget : ∀ t, Cache.get k t c' =
            if bool_decide (t - storedAt ≤ ttl)
            then (Some v, c') else (None, delete k c')).
  { intros t. rewrite get_lookup, Hk. unfold Cache.valid; simpl.
    by repeat case_bool_decide. }
  split_and!.
  - done.
  - done.
  - apply Hget.
  - rewrite Hget. case_bool_decide; simpl; [done|]. split; [done | lia].
  - rewrite Hget. repeat case_bool_decide; (done || lia).
  - intros Hlate. rewrite Hget. case_bool_decide; [lia|]. simpl.
    split; [done | apply lookup_delete_eq].
  - intros k' now' Hne. rewrite get_lookup.
    destruct (c' !! k') as [e'|]; [|done].
    case_bool_decide; simpl; [done|]. by rewrite lookup_delete_ne.
Qed.

(** C6. [invalidate(pattern)] removes exactly the entries whose key contains
    [pattern] as a substring: such a key has no entry afterwards, any other
    key keeps the entry it had (or stays absent). With ["wallpaper_42"] and
    ["wallpaper_420"] both stored, [invalidate("wallpaper_42")] removes
    both. *)
Theorem invalidate_removes_exactly {A} (pattern : string)
    (c : gmap string (Cache.entry A)) :
  (∀ k, (∃ pre post, k = pre +:+ pattern +:+ post) →
        Cache.invalidate pattern c !! k = None)
  ∧ (∀ k, ¬ (∃ pre post, k = pre +:+ pattern +:+ post) →
          Cache.invalidate pattern c !! k = c !! k)
  ∧ (∀ (x y : A) ttl t1 t2,
       let c2 := Cache.set "wallpaper_420" y ttl t2
                   (Cache.set "wallpaper_42" x ttl t1 c) in
       c2 !! "wallpaper_42" = Some (Cache.Entry x t1 ttl)
       ∧ c2 !! "wallpaper_420" = Some (Cache.Entry y t2 ttl)
       ∧ Cache.invalidate "wallpaper_42" c2 !! "wallpaper_42" = None
       ∧ Cache.invalidate "wallpaper_42" c2 !! "wallpaper_420" = None).
Proof.
  split_and!.
  - intros k Hk. apply includes_substring in Hk.
    by rewrite invalidate_lookup, Hk.
  - intros k Hk. apply includes_not_substring in Hk.
    by rewrite invalidate_lookup, Hk.
  - intros x y ttl t1 t2 c2. split_and!.
    + unfold c2, Cache.set. by rewrite lookup_insert_ne, lookup_insert_eq.
    + apply lookup_insert_eq.
    + by rewrite invalidate_lookup.
    + by rewrite invalidate_lookup.
Qed.

(** ** The counter increments *)

Import Firestore.

Lemma increment_fulfilled (wallpaperId : string) (w : world) :
  incrementDownloadCount (Fulfilled tt) wallpaperId w =
    (Returned true,
     with_cache (Cache.invalidate ("wallpaper_" +:+ wallpaperId))
       (sent (UpdateIncrement wallpaperId "downloads") w))
  ∧ incrementViewCount (Fulfilled tt) wallpaperId w =
    (Returned true,
     with_cache (Cache.invalidate ("wallpaper_" +:+ wallpaperId))
       (sent (UpdateIncrement wallpaperId "views") w)).
Proof. done. Qed.

Lemma increment_rejected (reason wallpaperId : string) (w : world) :
  incrementDownloadCount (Rejected reason) wallpaperId w =
    (Returned false, sent (UpdateIncrement wallpaperId "downloads") w)
  ∧ incrementViewCount (Rejected reason) wallpaperId w =
    (Returned false, sent (UpdateIncrement wallpaperId "views") w).
Proof. done. Qed.

(** C1, as the code has it. Both increments send the update first. When the
    update is fulfilled, every cache entry whose key contains
    [wallpaper_<id>] is removed, the other entries are kept, and the
    operation returns [true]. When the update is rejected the error is
    caught, the operation returns [false], and the cache is left as it
    was. *)
Theorem increment_invalidates_after_success (wallpaperId : string)
    (update : settled unit) (w : world) :
  (let '(result, w') := incrementDownloadCount update wallpaperId w in
   requests w' = requests w ++ [UpdateIncrement wallpaperId "downloads"]
   ∧ match update with
     | Fulfilled _ =>
         result = Returned true
         ∧ ∀ k, cache w' !! k =
                if Js.includes k ("wallpaper_" +:+ wallpaperId)
                then None else cache w !! k
     | Rejected _ => result = Returned false ∧ cache w' = cache w
     end)
  ∧ (let '(result, w') := incrementViewCount update wallpaperId w in
     requests w' = requests w ++ [UpdateIncrement wallpaperId "views"]
     ∧ match update with
       | Fulfilled _ =>
           result = Returned true
           ∧ ∀ k, cache w' !! k =
                  if Js.includes k ("wallpaper_" +:+ wallpaperId)
                  then None else cache w !! k
       | Rejected _ => result = Returned false ∧ cache w' = cache w
       end).
Proof.
  destruct update as [[]|reason].
  - destruct (increment_fulfilled wallpaperId w) as [-> ->].
    split; (split; [done|]; split; [done|]); intros k; apply invalidate_lookup.
  - by destruct (increment_rejected reason wallpaperId w) as [-> ->].
Qed.

(** C1, as stated, fails: with the update rejected, the entry under
    [wallpaper_7] outlives [incrementDownloadCount("7")] and
    [incrementViewCount("7")]. *)
Lemma increment_rejected_keeps_entry :
  ¬ (∀ wallpaperId update w k,
       Js.includes k ("wallpaper_" +:+ wallpaperId) = true →
       cache (incrementDownloadCount update wallpaperId w).2 !! k = None
       ∧ cache (incrementViewCount update wallpaperId w).2 !! k = None).
Proof.
  intros claim.
  pose (w := {| cache := {["wallpaper_7" := Cache.Entry (PNumber 1) 0 300000]};
                requests := [] |}).
  destruct (claim "7" (Rejected "unavailable") w "wallpaper_7" eq_refl)
    as [Hdownload _].
  destruct (increment_rejected "unavailable" "7" w) as [Hd _].
  rewrite Hd in Hdownload. simpl in Hdownload.
  by rewrite lookup_singleton_eq in Hdownload.
Qed.

(** ** Trimming *)

Lemma trimStart_blank (s : string) :
  Js.all_whitespace s = true → Js.trimStart s = EmptyString.
Proof.
  induction s as [|c s IH]; cbn; [done|].
  destruct (Js.is_whitespace c); [exact IH | done].
Qed.

Lemma trimStart_nonblank (s : string) :
  Js.all_whitespace s = false →
  ∃ c t, Js.trimStart s = String c t ∧ Js.is_whitespace c = false.
Proof.
  induction s as [|c s IH]; cbn; [done|].
  destruct (Js.is_whitespace c) eqn:Hc; [exact IH | by exists c, s].
Qed.

Lemma trimEnd_keeps_head (c : ascii) (t : string) :
  Js.is_whitespace c = false → Js.truthy (Js.trimEnd (String c t)) = true.
Proof.
  intros Hc. cbn [Js.trimEnd]. rewrite Hc. by destruct (Js.trimEnd t).
Qed.

Lemma trim_truthy (s : string) :
  Js.truthy (Js.trim s) = negb (Js.all_whitespace s).
Proof.
  unfold Js.trim. destruct (Js.all_whitespace s) eqn:Hs.
  - by rewrite trimStart_blank.
  - destruct (trimStart_nonblank s Hs) as (c & t & -> & Hc).
    by apply trimEnd_keeps_head.
Qed.

(** ** Insertion-ordered maps *)

Section map_facts.
Context {V : Type}.
Implicit Types (m : Js.Map V) (k : string) (v : V).

Lemma Map_set_keys k v m :
  Js.Map_keys (Js.Map_set k v m) =
  if bool_decide (k ∈ Js.Map_keys m) then Js.Map_keys m else Js.Map_keys m ++ [k].
Proof.
  unfold Js.Map_keys. induction m as [|[k' v'] m IH]; cbn [Js.Map_set].
  - by rewrite bool_decide_false by apply not_elem_of_nil.
  - rewrite !fmap_cons. cbn [fst].
    destruct (String.eqb_spec k' k) as [->|Hne]; rewrite !fmap_cons; cbn [fst].
    + by rewrite bool_decide_true by left.
    + rewrite IH.
      rewrite (bool_decide_ext (k ∈ k' :: m.*1) (k ∈ m.*1)).
      * by case_bool_decide.
      * rewrite elem_of_cons. split; [intros [?|?]; [congruence | done] | auto].
Qed.

Lemma Map_set_NoDup k v m :
  NoDup (Js.Map_keys m) → NoDup (Js.Map_keys (Js.Map_set k v m)).
Proof.
  intros Hm. rewrite Map_set_keys. case_bool_decide; [done|].
  apply NoDup_app. split_and!; [done | | apply NoDup_singleton].
  intros x Hx ->%list_elem_of_singleton. done.
Qed.

Lemma Map_set_elem k v m k' :
  k' ∈ Js.Map_keys (Js.Map_set k v m) ↔ k' ∈ Js.Map_keys m ∨ k' = k.
Proof.
  rewrite Map_set_keys. case_bool_decide as Hk.
  - split; [auto | by intros [?| ->]].
  - by rewrite elem_of_app, list_elem_of_singleton.
Qed.

Lemma Map_get_set k v m k' :
  Js.Map_get k' (Js.Map_set k v m) =
  if bool_decide (k = k') then Some v else Js.Map_get k' m.
Proof.
  induction m as [|[k0 v0] m IH]; simpl.
  - destruct (String.eqb_spec k k'); by case_bool_decide.
  - destruct (String.eqb_spec k0 k) as [->|Hne]; simpl.
    + destruct (String.eqb_spec k k'); by case_bool_decide.
    + destruct (String.eqb_spec k0 k') as [->|Hne']; [|exact IH].
      by rewrite bool_decide_false by congruence.
Qed.

Lemma Map_set_Forall (P : string * V → Prop) k v m :
  P (k, v) → Forall P m → Forall P (Js.Map_set k v m).
Proof.
  intros Hkv Hm. induction m as [|[k0 v0] m IH]; simpl.
  - by constructor.
  - apply Forall_cons in Hm as [H0 Hm].
    destruct (String.eqb_spec k0 k) as [->|Hne]; constructor; auto.
Qed.

End map_facts.

(** ** Search *)

Section collect_facts.
Implicit Types (m : Js.Map (gmap string jsval)) (docs : list doc) (id : string).

Lemma record_all_NoDup docs m :
  NoDup (Js.Map_keys m) → NoDup (Js.Map_keys (foldl record m docs)).
Proof.
  revert m. induction docs as [|d docs IH]; intros m Hm; simpl; [done|].
  apply IH. by apply Map_set_NoDup.
Qed.

Lemma record_all_elem docs m id :
  id ∈ Js.Map_keys (foldl record m docs) ↔
  id ∈ Js.Map_keys m ∨ id ∈ doc_id <$> docs.
Proof.
  revert m. induction docs as [|d docs IH]; intros m; simpl.
  - split; [auto | intros [?|H]; [done | by apply elem_of_nil in H]].
  - rewrite IH. unfold record. rewrite Map_set_elem, elem_of_cons.
    split; [intros [[?|?]|?] | intros [?|[?|?]]]; auto.
Qed.

Lemma record_all_get docs m id :
  Js.Map_get id (foldl record m docs) =
  match latest id docs with
  | Some d => Some (toEntity d)
  | None => Js.Map_get id m
  end.
Proof.
  revert m. induction docs as [|d docs IH]; intros m; simpl; [done|].
  rewrite IH. destruct (latest id docs) as [d'|]; [done|].
  unfold record. rewrite Map_get_set.
  destruct (String.eqb_spec (doc_id d) id); by case_bool_decide.
Qed.

Lemma toEntity_id (d : doc) :
  doc_data d !! "id" = None → entity_id (toEntity d) = Some (JStr (doc_id d)).
Proof.
  intros Hd. unfold entity_id, toEntity.
  rewrite lookup_union_r by done. apply lookup_singleton_eq.
Qed.

Lemma record_all_keyed docs m :
  Forall (λ d, doc_data d !! "id" = None) docs →
  Forall keyed m → Forall keyed (foldl record m docs).
Proof.
  revert m. induction docs as [|d docs IH]; intros m Hdocs Hm; simpl; [done|].
  apply Forall_cons in Hdocs as [Hd Hdocs].
  apply IH; [done|]. apply Map_set_Forall; [|done].
  by apply toEntity_id.
Qed.

Lemma keyed_values_NoDup m :
  Forall keyed m → NoDup (Js.Map_keys m) → NoDup (entity_id <$> Js.Map_values m).
Proof.
  intros Hm Hkeys.
  assert (entity_id <$> Js.Map_values m = (Some ∘ JStr) <$> Js.Map_keys m) as ->.
  { unfold Js.Map_values, Js.Map_keys. rewrite <- !list_fmap_compose.
    apply Forall_fmap_ext_1. eapply Forall_impl; [exact Hm|].
    by intros [k v]. }
  apply NoDup_fmap_2; [|done]. intros x y. simpl. congruence.
Qed.

Lemma collect_docs_of (snapshot : settled (list doc)) m :
  collect snapshot m = foldl record m (docs_of snapshot).
Proof. by destruct snapshot. Qed.

End collect_facts.

(** [limit(n)] lets a positive limit through and throws at zero. *)
Lemma bind_limit {S A} (n : nat) (k : nat → M S A) (s : S) :
  (0 < n)%nat → bind (limit n) k s = k n s.
Proof. intros Hn. unfold bind, limit. by destruct n; [lia|]. Qed.

Lemma bind_limit_zero {S A} (k : nat → M S A) (s : S) :
  ∃ error, bind (limit 0) k s = (Thrown error, s).
Proof. by eexists. Qed.

Section search_facts.
Context (toLowerCase toUpperCase : string → string).

Lemma search_miss (t_get t_set : Z) (titleSnapshot tagSnapshot : settled (list doc))
    (searchTerm : string) (limitCount : nat) (w : world) :
  let cacheKey := "search_" +:+ toLowerCase searchTerm +:+ "_" +:+ pretty limitCount in
  let normalizedTerm := toUpperCase (Js.trim searchTerm) in
  let data := take limitCount
                (Js.Map_values (collect tagSnapshot (collect titleSnapshot []))) in
  (0 < limitCount)%nat →
  Js.all_whitespace searchTerm = false →
  hit (Cache.get cacheKey t_get (cache w)).1 = None →
  searchWallpapers toLowerCase toUpperCase t_get t_set titleSnapshot tagSnapshot
    searchTerm limitCount w =
  (Returned (PList data),
   {| cache := Cache.set cacheKey (PList data) (2 * 60 * 1000) t_set
                 (Cache.get cacheKey t_get (cache w)).2;
      requests := (requests w ++ [QueryTitlePrefix normalizedTerm limitCount])
                    ++ [QueryTagsContainAny [toLowerCase normalizedTerm] limitCount] |}).
Proof.
  intros cacheKey normalizedTerm data Hlimit Hterm Hmiss.
  unfold searchWallpapers. rewrite trim_truthy, Hterm. cbn [negb].
  fold cacheKey. unfold bind at 1. unfold cacheUtils_get.
  destruct (Cache.get cacheKey t_get (cache w)) as [cached c'].
  cbn [fst snd] in *. rewrite Hmiss. unfold try_catch.
  rewrite bind_limit by done. rewrite bind_limit by done. reflexivity.
Qed.

(** With a limit of zero the queries are not built: nothing is sent and
    nothing is stored. *)
Lemma search_limit_zero (t_get t_set : Z) (titleSnapshot tagSnapshot : settled (list doc))
    (searchTerm : string) (w : world) :
  let cacheKey := "search_" +:+ toLowerCase searchTerm +:+ "_" +:+ pretty 0%nat in
  Js.all_whitespace searchTerm = false →
  hit (Cache.get cacheKey t_get (cache w)).1 = None →
  searchWallpapers toLowerCase toUpperCase t_get t_set titleSnapshot tagSnapshot
    searchTerm 0 w =
  (Returned (PList []),
   {| cache := (Cache.get cacheKey t_get (cache w)).2; requests := requests w |}).
Proof.
  intros cacheKey Hterm Hmiss.
  unfold searchWallpapers. rewrite trim_truthy, Hterm. cbn [negb].
  fold cacheKey. unfold bind at 1. unfold cacheUtils_get.
  destruct (Cache.get cacheKey t_get (cache w)) as [cached c'].
  cbn [fst snd] in *. rewrite Hmiss. reflexivity.
Qed.

End search_facts.

(** C10. For a search term made of white space only (the empty string
    included), [searchWallpapers] returns the empty list and leaves the world
    as it found it: no request is sent to the remote store, and the cache is
    the same map as before, neither extended nor relieved of an expired
    entry as a read of the key would do. *)
Theorem search_blank_term (toLowerCase toUpperCase : string → string)
    (t_get t_set : Z) (titleSnapshot tagSnapshot : settled (list doc))
    (searchTerm : string) (limitCount : nat) (w : world) :
  Js.all_whitespace searchTerm = true →
  searchWallpapers toLowerCase toUpperCase t_get t_set titleSnapshot tagSnapshot
    searchTerm limitCount w = (Returned (PList []), w).
Proof.
  intros Hblank. unfold searchWallpapers.
  by rewrite trim_truthy, Hblank.
Qed.

Lemma search_blank_term_witness :
  let expired := Cache.Entry (PList []) 0 120000 in
  let w := {| cache := {["search_  _20" := expired]}; requests := [] |} in
  Js.all_whitespace "  " = true
  ∧ searchWallpapers Js.toLowerCase_ascii Js.toUpperCase_ascii 500000 500001
      (Fulfilled []) (Fulfilled []) "  " 20 w = (Returned (PList []), w).
Proof.
  intros expired w. split; [reflexivity|].
  apply (search_blank_term Js.toLowerCase_ascii Js.toUpperCase_ascii 500000 500001
           (Fulfilled []) (Fulfilled []) "  " 20 w).
  reflexivity.
Defined.

(** C7. When the term is not blank and the cache has no value to return,
    [searchWallpapers] returns the first [limitCount] values of the map
    [merged] that it fills from the title documents and then from the tag
    documents, a rejected query contributing none. Every identifier of either
    result set is a key of [merged] exactly once; the entity under it comes
    from the tag result when that holds the identifier, from the title
    result otherwise. The list returned has at most [limitCount] items and,
    the documents carrying no [id] field of their own, no two of them share
    an [id]. *)
Theorem search_merges_by_identifier (toLowerCase toUpperCase : string → string)
    (t_get t_set : Z) (titleSnapshot tagSnapshot : settled (list doc))
    (searchTerm : string) (limitCount : nat) (w : world) :
  Js.all_whitespace searchTerm = false →
  hit (Cache.get ("search_" +:+ toLowerCase searchTerm +:+ "_" +:+ pretty limitCount)
         t_get (cache w)).1 = None →
  let merged := collect tagSnapshot (collect titleSnapshot []) in
  let data := take limitCount (Js.Map_values merged) in
  (searchWallpapers toLowerCase toUpperCase t_get t_set titleSnapshot tagSnapshot
     searchTerm limitCount w).1 = Returned (PList data)
  ∧ NoDup (Js.Map_keys merged)
  ∧ (∀ id, id ∈ Js.Map_keys merged ↔
           id ∈ doc_id <$> docs_of titleSnapshot ∨ id ∈ doc_id <$> docs_of tagSnapshot)
  ∧ (∀ id, Js.Map_get id merged =
           match latest id (docs_of tagSnapshot) with
           | Some d => Some (toEntity d)
           | None => toEntity <$> latest id (docs_of titleSnapshot)
           end)
  ∧ (length data ≤ limitCount)%nat
  ∧ (Forall (λ d, doc_data d !! "id" = None)
       (docs_of titleSnapshot ++ docs_of tagSnapshot) →
     NoDup (entity_id <$> data))
  ∧ (∀ reason, titleSnapshot = Rejected reason → merged = collect tagSnapshot [])
  ∧ (∀ reason, tagSnapshot = Rejected reason → merged = collect titleSnapshot []).
Proof.
  intros Hterm Hmiss merged data.
  assert (Hkeys : NoDup (Js.Map_keys merged)).
  { unfold merged. rewrite !collect_docs_of.
    apply record_all_NoDup, record_all_NoDup. constructor. }
  split_and!.
  - destruct limitCount as [|n].
    + by rewrite (search_limit_zero _ _ _ _ _ _ _ _ Hterm Hmiss).
    + rewrite (search_miss _ _ _ _ _ _ _ _ _ (Nat.lt_0_succ n) Hterm Hmiss).
      done.
  - exact Hkeys.
  - intros id. unfold merged. rewrite !collect_docs_of, !record_all_elem.
    split; [intros [[H|H]|H] | intros [H|H]]; auto.
    by apply elem_of_nil in H.
  - intros id. unfold merged. rewrite !collect_docs_of, !record_all_get.
    destruct (latest id (docs_of tagSnapshot)); [done|].
    by destruct (latest id (docs_of titleSnapshot)).
  - unfold data. rewrite length_take. lia.
  - intros Hdocs. apply Forall_app in Hdocs as [Htitle Htag].
    unfold data. rewrite fmap_take.
    eapply sublist_NoDup; [|apply sublist_take].
    apply keyed_values_NoDup; [|exact Hkeys].
    unfold merged. rewrite !collect_docs_of.
    apply record_all_keyed; [done|]. apply record_all_keyed; [done|].
    constructor.
  - by intros reason ->.
  - by intros reason ->.
Qed.

Lemma search_merges_by_identifier_witness :
  let a := Doc "a" {["title" := JStr "CAT"]} in
  let b := Doc "b" {["title" := JStr "CATS"]} in
  let b' := Doc "b" {["title" := JStr "CATS"; "views" := JNum 1]} in
  let c := Doc "c" {["title" := JStr "DOG"]} in
  let w := {| cache := ∅; requests := [] |} in
  let merged := collect (Fulfilled [b'; c]) (collect (Fulfilled [a; b]) []) in
  Js.Map_keys merged = ["a"; "b"; "c"]
  ∧ Js.Map_get "b" merged = Some (toEntity b')
  ∧ (searchWallpapers Js.toLowerCase_ascii Js.toUpperCase_ascii 1000 1001
       (Fulfilled [a; b]) (Fulfilled [b'; c]) "Cat" 2 w).1
    = Returned (PList [toEntity a; toEntity b']).
Proof.
  intros a b b' c w merged.
  destruct (search_merges_by_identifier Js.toLowerCase_ascii Js.toUpperCase_ascii
              1000 1001 (Fulfilled [a; b]) (Fulfilled [b'; c]) "Cat" 2 w
              eq_refl eq_refl) as (Hresult & _ & _ & Hget & _).
  split; [reflexivity|]. split; [exact (Hget "b") | exact Hresult].
Defined.

(** ** Pagination *)

Lemma page_fulfilled (respond : request → settled (list doc)) (docs : list doc)
    (categoryId : string) (limitCount : nat) (state : option PaginationState)
    (w : world) :
  (0 < limitCount)%nat →
  respond (QueryByCategory categoryId limitCount (state ≫= lastDoc)) = Fulfilled docs →
  getWallpapersByCategory respond categoryId limitCount state w =
  (Returned (toEntity <$> docs,
             {| lastDoc := last docs; hasMore := Nat.eqb (length docs) limitCount |}),
   sent (QueryByCategory categoryId limitCount (state ≫= lastDoc)) w).
Proof.
  intros Hlimit Hdocs. unfold getWallpapersByCategory, try_catch.
  rewrite bind_limit by done. unfold getDocs, bind, send, modify.
  by rewrite Hdocs.
Qed.

Lemma page_rejected (respond : request → settled (list doc)) (reason : string)
    (categoryId : string) (limitCount : nat) (state : option PaginationState)
    (w : world) :
  (0 < limitCount)%nat →
  respond (QueryByCategory categoryId limitCount (state ≫= lastDoc)) = Rejected reason →
  getWallpapersByCategory respond categoryId limitCount state w =
  (Returned ([], {| lastDoc := None; hasMore := false |}),
   sent (QueryByCategory categoryId limitCount (state ≫= lastDoc)) w).
Proof.
  intros Hlimit Hdocs. unfold getWallpapersByCategory, try_catch.
  rewrite bind_limit by done. unfold getDocs, bind, send, modify.
  by rewrite Hdocs.
Qed.

(** With a limit of zero the query is not built, and nothing is sent. *)
Lemma page_limit_zero (respond : request → settled (list doc)) (categoryId : string)
    (state : option PaginationState) (w : world) :
  getWallpapersByCategory respond categoryId 0 state w =
  (Returned ([], {| lastDoc := None; hasMore := false |}), w).
Proof. reflexivity. Qed.

Lemma startAfter_lookup (l : list doc) (i : nat) (d : doc) :
  NoDup (doc_id <$> l) → l !! i = Some d → startAfter d l = drop (S i) l.
Proof.
  revert i. induction l as [|d0 l IH]; intros i Hl Hi; [done|].
  rewrite fmap_cons in Hl. apply NoDup_cons in Hl as [Hd0 Hl].
  destruct i as [|j]; cbn [startAfter].
  - injection Hi as ->. by rewrite String.eqb_refl.
  - cbn in Hi. destruct (String.eqb_spec (doc_id d0) (doc_id d)) as [Heq|_].
    + exfalso. apply Hd0. rewrite Heq.
      apply list_elem_of_fmap_2. by eapply list_elem_of_lookup_2.
    + by apply IH.
Qed.

Lemma scroll_step (respond : request → settled (list doc)) (categoryId : string)
    (limitCount n : nat) (state : option PaginationState) (w : world) :
  scroll respond categoryId limitCount (S n) state w =
  match getWallpapersByCategory respond categoryId limitCount state w with
  | (Returned (page, state'), w') =>
      let '(pages, final, w'') :=
        scroll respond categoryId limitCount n (Some state') w' in
      (page :: pages, final, w'')
  | (Thrown _, w') => ([], state, w')
  end.
Proof. reflexivity. Qed.

Lemma scroll_queries_S (matching : list doc) (categoryId : string)
    (limitCount i n : nat) :
  scroll_queries matching categoryId limitCount i (S n) =
  QueryByCategory categoryId limitCount (cursor_at matching i)
    :: scroll_queries matching categoryId limitCount (i + limitCount) n.
Proof.
  unfold scroll_queries. cbn [seq fmap list_fmap]. rewrite Nat.add_0_r. f_equal.
  rewrite <- fmap_S_seq, <- list_fmap_compose. apply list_fmap_ext.
  intros _ j _. cbn. do 2 f_equal. lia.
Qed.

(** The documents of the category in a store answering as [serve] does. *)
Lemma serve_category (documents : list doc) (categoryId : string) (n : nat)
    (cursor : option doc) :
  serve documents (QueryByCategory categoryId n cursor) =
  Fulfilled (next_page (List.filter (in_category categoryId) documents) n cursor).
Proof. reflexivity. Qed.

Section scroll_facts.
Context (respond : request → settled (list doc)).
Context (matching : list doc) (categoryId : string) (limitCount : nat).
Hypothesis answers : ∀ n cursor,
  respond (QueryByCategory categoryId n cursor) = Fulfilled (next_page matching n cursor).
Hypothesis distinct : NoDup (doc_id <$> matching).
Hypothesis positive : (0 < limitCount)%nat.

Lemma next_page_at (i : nat) :
  (i ≤ length matching)%nat →
  next_page matching limitCount (cursor_at matching i) =
  take limitCount (drop i matching).
Proof.
  intros Hi. unfold next_page. destruct i as [|j]; [done|]. cbn [cursor_at].
  destruct (lookup_lt_is_Some_2 matching j) as [d Hd]; [lia|].
  rewrite Hd. by rewrite (startAfter_lookup matching j d).
Qed.

Lemma full_page_last (i : nat) :
  (i + limitCount ≤ length matching)%nat →
  last (take limitCount (drop i matching)) = cursor_at matching (i + limitCount).
Proof.
  intros Hi. rewrite last_lookup, length_take, length_drop.
  replace (limitCount `min` (length matching - i))%nat with limitCount by lia.
  rewrite lookup_take_lt by lia. rewrite lookup_drop.
  destruct limitCount as [|p]; [lia|].
  replace (i + S p)%nat with (S (i + p)) by lia. done.
Qed.

(** A fetch from the cursor reached after [i] documents: the query sent
    carries that cursor, and the page holds the documents that follow. *)
Lemma page_at (i : nat) (state : option PaginationState) (w : world) :
  state ≫= lastDoc = cursor_at matching i →
  (i ≤ length matching)%nat →
  getWallpapersByCategory respond categoryId limitCount state w =
  (Returned (toEntity <$> take limitCount (drop i matching),
             {| lastDoc := last (take limitCount (drop i matching));
                hasMore :=
                  Nat.eqb (length (take limitCount (drop i matching))) limitCount |}),
   sent (QueryByCategory categoryId limitCount (cursor_at matching i)) w).
Proof.
  intros Hstate Hi.
  rewrite (page_fulfilled respond (take limitCount (drop i matching))); [|done|].
  - by rewrite Hstate.
  - by rewrite Hstate, answers, next_page_at.
Qed.

(** [n] full pages from the cursor reached after [i] documents. *)
Lemma scroll_pages (n i : nat) (state : option PaginationState) (w : world) :
  state ≫= lastDoc = cursor_at matching i →
  (i + n * limitCount ≤ length matching)%nat →
  ∃ pages final,
    scroll respond categoryId limitCount n state w =
      (pages, final,
       {| cache := cache w;
          requests := requests w ++ scroll_queries matching categoryId limitCount i n |})
    ∧ concat pages = toEntity <$> take (n * limitCount) (drop i matching)
    ∧ ((0 < n)%nat →
       final = Some {| lastDoc := cursor_at matching (i + n * limitCount); hasMore := true |}).
Proof.
  revert i state w. induction n as [|n IH]; intros i state w Hstate Hlen.
  - exists [], state. split_and!; [|done|lia].
    cbn [scroll scroll_queries seq fmap list_fmap]. rewrite app_nil_r. by destruct w.
  - rewrite scroll_step, (page_at i) by (done || lia).
    assert (Hdocs : length (take limitCount (drop i matching)) = limitCount).
    { rewrite length_take, length_drop. lia. }
    rewrite Hdocs, Nat.eqb_refl, full_page_last by lia.
    set (docs := take limitCount (drop i matching)).
    set (state' := {| lastDoc := cursor_at matching (i + limitCount); hasMore := true |}).
    destruct (IH (i + limitCount)%nat (Some state')
                (sent (QueryByCategory categoryId limitCount (cursor_at matching i)) w))
      as (pages & final & Hscroll & Hconcat & Hfinal); [done | lia |].
    rewrite Hscroll. exists ((toEntity <$> docs) :: pages), final.
    split_and!.
    + rewrite scroll_queries_S. cbn [sent cache requests].
      by rewrite <- app_assoc.
    + cbn [concat]. rewrite Hconcat, <- fmap_app. f_equal.
      unfold docs. rewrite <- drop_drop. apply take_take_drop.
    + intros _. destruct n as [|n].
      * cbn [scroll] in Hscroll. injection Hscroll as _ <- _.
        unfold state'. do 3 f_equal. lia.
      * rewrite Hfinal by lia. do 3 f_equal. lia.
Qed.

(** [k] full pages and a last page of [r < limitCount] documents. *)
Lemma scroll_from (k i r : nat) (state : option PaginationState) (w : world) :
  (r < limitCount)%nat →
  state ≫= lastDoc = cursor_at matching i →
  length matching = (i + k * limitCount + r)%nat →
  ∃ pages cursor,
    scroll respond categoryId limitCount (S k) state w =
      (pages, Some cursor,
       {| cache := cache w;
          requests :=
            requests w ++ scroll_queries matching categoryId limitCount i (S k) |})
    ∧ concat pages = toEntity <$> drop i matching
    ∧ hasMore cursor = false
    ∧ length pages = S k.
Proof.
  intros Hr. revert i state w. induction k as [|k IH]; intros i state w Hstate Hlen.
  - rewrite scroll_step, (page_at i) by (done || lia).
    rewrite (take_ge (drop i matching)) by (rewrite length_drop; lia).
    eexists _, _. split_and!.
    + cbn [scroll]. rewrite scroll_queries_S. reflexivity.
    + cbn [concat]. by rewrite app_nil_r.
    + cbn [hasMore]. apply Nat.eqb_neq. rewrite length_drop. lia.
    + done.
  - rewrite scroll_step, (page_at i) by (done || lia).
    assert (Hfull : length (take limitCount (drop i matching)) = limitCount).
    { rewrite length_take, length_drop. lia. }
    rewrite Hfull, Nat.eqb_refl, full_page_last by lia.
    set (state' := {| lastDoc := cursor_at matching (i + limitCount);
                      hasMore := true |}).
    destruct (IH (i + limitCount)%nat (Some state')
                (sent (QueryByCategory categoryId limitCount (cursor_at matching i)) w))
      as (pages & cursor & Hscroll & Hconcat & Hmore & Hpages); [done | lia |].
    rewrite Hscroll. eexists _, cursor. split_and!.
    + rewrite (scroll_queries_S _ _ _ i). cbn [sent cache requests].
      by rewrite <- app_assoc.
    + cbn [concat]. rewrite Hconcat, <- fmap_app. f_equal.
      rewrite <- drop_drop. apply take_drop.
    + done.
    + cbn [length]. by rewrite Hpages.
Qed.

End scroll_facts.

(** C4. Whenever [getWallpapersByCategory] fetches a page, which it does for
    every positive limit when the query it sends is fulfilled, it returns
    the entities of the documents fetched with a cursor whose [hasMore] is
    true iff the page has exactly [limitCount] documents and whose [lastDoc]
    is the last document of the page ([null] for an empty page). No page is
    fetched when the query is rejected or when the limit is zero, [limit(0)]
    being refused before any query is sent: the result is then the empty
    page with [hasMore] false. So [hasMore] comes out true exactly when a
    page was fetched and was full. Hence, over a store whose documents of
    the category number [n * limitCount], a scroll of [n] fetches, each
    sending the cursor of the one before, has fetched them all and still
    ends with [hasMore] true: the fetch from that cursor is sent and
    brings the empty page. *)
Theorem pagination_cursor (respond : request → settled (list doc))
    (categoryId : string) (limitCount : nat) (state : option PaginationState)
    (w : world) :
  let q := QueryByCategory categoryId limitCount (state ≫= lastDoc) in
  let empty := ([], {| lastDoc := None; hasMore := false |}) in
  (∀ docs, (0 < limitCount)%nat → respond q = Fulfilled docs →
     ∃ cursor,
       getWallpapersByCategory respond categoryId limitCount state w =
         (Returned (toEntity <$> docs, cursor), sent q w)
       ∧ (hasMore cursor = true ↔ length docs = limitCount)
       ∧ lastDoc cursor = last docs
       ∧ toEntity <$> lastDoc cursor = last (toEntity <$> docs)
       ∧ (docs = [] → lastDoc cursor = None))
  ∧ (∀ reason, (0 < limitCount)%nat → respond q = Rejected reason →
       getWallpapersByCategory respond categoryId limitCount state w =
         (Returned empty, sent q w))
  ∧ (limitCount = 0%nat →
       getWallpapersByCategory respond categoryId limitCount state w =
         (Returned empty, w))
  ∧ (∃ page cursor w',
       getWallpapersByCategory respond categoryId limitCount state w =
         (Returned (page, cursor), w')
       ∧ (hasMore cursor = true ↔
          (0 < limitCount)%nat
          ∧ ∃ docs, respond q = Fulfilled docs ∧ length docs = limitCount))
  ∧ (∀ (documents : list doc) (n : nat),
       let matching := List.filter (in_category categoryId) documents in
       (0 < limitCount)%nat → (0 < n)%nat →
       NoDup (doc_id <$> matching) →
       length matching = (n * limitCount)%nat →
       ∃ pages cursor,
         let w' :=
           {| cache := cache w;
              requests :=
                requests w ++ scroll_queries matching categoryId limitCount 0 n |} in
         scroll (serve documents) categoryId limitCount n None w =
           (pages, Some cursor, w')
         ∧ concat pages = toEntity <$> matching
         ∧ hasMore cursor = true
         ∧ getWallpapersByCategory (serve documents) categoryId limitCount
             (Some cursor) w' =
           (Returned empty,
            sent (QueryByCategory categoryId limitCount (last matching)) w')).
Proof.
  intros q empty. split_and!.
  - intros docs Hlimit Hdocs. eexists.
    split; [by apply page_fulfilled|]. cbn [hasMore lastDoc].
    split_and!.
    + apply Nat.eqb_eq.
    + done.
    + by rewrite fmap_last.
    + by intros ->.
  - intros reason Hlimit Hdocs. by apply (page_rejected respond reason).
  - intros ->. apply page_limit_zero.
  - destruct limitCount as [|p].
    + eexists _, _, _. split; [apply page_limit_zero|]. cbn [hasMore].
      split; [done|]. intros [Hp _]. lia.
    + destruct (respond q) as [docs|reason] eqn:Hq.
      * eexists _, _, _. split; [apply (page_fulfilled respond docs); [lia|done]|].
        cbn [hasMore]. rewrite Nat.eqb_eq. split.
        -- intros Hlen. split; [lia|]. by exists docs.
        -- intros (_ & docs' & Hdocs' & Hlen). by injection Hdocs' as ->.
      * eexists _, _, _. split; [apply (page_rejected respond reason); [lia|done]|].
        cbn [hasMore]. split; [done|]. by intros (_ & docs & Hdocs & _).
  - intros documents n matching Hlimit Hn Hdistinct Hlen.
    destruct (scroll_pages (serve documents) matching categoryId limitCount
                (serve_category documents categoryId) Hdistinct Hlimit
                n 0%nat None w eq_refl) as (pages & final & Hscroll & Hconcat & Hfinal);
      [lia|].
    specialize (Hfinal Hn). subst final.
    eexists pages, _. cbv zeta. split; [exact Hscroll|]. cbn [hasMore].
    split_and!.
    + rewrite Hconcat, drop_0. by rewrite take_ge by lia.
    + done.
    + rewrite (page_at (serve documents) matching categoryId limitCount
                 (serve_category documents categoryId) Hdistinct Hlimit
                 (0 + n * limitCount)%nat) by (done || lia).
      rewrite drop_ge by lia. rewrite take_nil. cbn [fmap list_fmap last length].
      destruct limitCount as [|p]; [lia|]. cbn [Nat.eqb].
      do 3 f_equal. rewrite last_lookup, Hlen. cbn [plus].
      by destruct (n * S p)%nat eqn:Hnp; [lia|].
Qed.

Lemma pagination_cursor_witness :
  let a := Doc "a" {["categoryId" := JStr "nature"]} in
  let b := Doc "b" {["categoryId" := JStr "nature"]} in
  let c := Doc "c" {["categoryId" := JStr "city"]} in
  let w := {| cache := ∅; requests := [] |} in
  ∃ pages cursor w',
    scroll (serve [a; c; b]) "nature" 1 2 None w = (pages, Some cursor, w')
    ∧ concat pages = [toEntity a; toEntity b]
    ∧ hasMore cursor = true
    ∧ requests w' = [QueryByCategory "nature" 1 None; QueryByCategory "nature" 1 (Some a)]
    ∧ (getWallpapersByCategory (serve [a; c; b]) "nature" 1 (Some cursor) w').1 =
      Returned ([], {| lastDoc := None; hasMore := false |}).
Proof.
  intros a b c w.
  destruct (pagination_cursor (serve [a; c; b]) "nature" 1 None w)
    as (_ & _ & _ & _ & Hscroll).
  destruct (Hscroll [a; c; b] 2%nat) as (pages & cursor & Hrun & Hpages & Hmore & Hnext).
  - lia.
  - lia.
  - apply (bool_decide_unpack _). vm_compute. exact I.
  - reflexivity.
  - cbv zeta in Hrun, Hnext. eexists pages, cursor, _.
    split; [exact Hrun|]. split; [exact Hpages|]. split; [exact Hmore|].
    split; [reflexivity|]. by rewrite Hnext.
Defined.

(** ** Favorites *)

Import Favorites.

Lemma fresh_mirror_Some (mirror : option (list string)) (stamp now : Z)
    (cached : list string) :
  fresh_mirror mirror stamp now = Some cached ↔
  mirror = Some cached ∧ now - stamp < CACHE_DURATION.
Proof.
  unfold fresh_mirror. destruct mirror as [l|]; [|by split; [|intros []]].
  destruct (Z.ltb_spec (now - stamp) CACHE_DURATION); split.
  - intros [= ->]. done.
  - by intros [[= ->] _].
  - done.
  - intros [_ ?]. lia.
Qed.

Lemma getFavorites_mirror (now : Z) (read_fails : bool) (s : state)
    (cached : list string) :
  fresh_mirror (favoritesCache s) (cacheTimestamp s) now = Some cached →
  getFavorites now read_fails s = (Returned cached, s).
Proof. intros H. unfold getFavorites, bind, gets. by rewrite H. Qed.

Lemma getFavorites_reload (now : Z) (s : state) :
  fresh_mirror (favoritesCache s) (cacheTimestamp s) now = None →
  getFavorites now false s =
  (Returned (persisted s),
   {| stored := stored s; favoritesCache := Some (persisted s);
      cacheTimestamp := now |}).
Proof. intros H. unfold getFavorites, bind, gets. by rewrite H. Qed.

Lemma getFavorites_read_rejected (now : Z) (s : state) :
  fresh_mirror (favoritesCache s) (cacheTimestamp s) now = None →
  getFavorites now true s = (Returned [], s).
Proof. intros H. unfold getFavorites, bind, gets. by rewrite H. Qed.

(** [getFavorites] always returns, never touches the persisted item, and
    keeps a mirror that is not stale. *)
Lemma getFavorites_returns (now : Z) (read_fails : bool) (s : state) :
  ∃ favorites s',
    getFavorites now read_fails s = (Returned favorites, s')
    ∧ stored s' = stored s
    ∧ (coherent s → coherent s')
    ∧ (synced s → synced s' ∧ (read_fails = false → favorites = persisted s)).
Proof.
  destruct (fresh_mirror (favoritesCache s) (cacheTimestamp s) now)
    as [cached|] eqn:Hfresh.
  - exists cached, s. rewrite (getFavorites_mirror _ _ _ _ Hfresh).
    split_and!; try done. intros Hs. split; [done|]. intros _.
    apply fresh_mirror_Some in Hfresh as [Hm _]. unfold synced in Hs. congruence.
  - destruct read_fails.
    + exists [], s. rewrite (getFavorites_read_rejected _ _ Hfresh).
      by split_and!.
    + eexists _, _. rewrite (getFavorites_reload _ _ Hfresh).
      split_and!; [done | done | by right | done].
Qed.

Lemma toggleFavorite_written (now : Z) (read_fails : bool) (now' : Z)
    (wallpaperId : string) (s s1 : state) (favorites : list string) :
  getFavorites now read_fails s = (Returned favorites, s1) →
  toggleFavorite now read_fails false now' wallpaperId s =
  (Returned {| isFavorite_ := negb (Js.array_includes favorites wallpaperId);
               message := if Js.array_includes favorites wallpaperId
                          then "Retiré des favoris" else "Ajouté aux favoris" |},
   {| stored := Some (toggled_list favorites wallpaperId);
      favoritesCache := Some (toggled_list favorites wallpaperId);
      cacheTimestamp := now' |}).
Proof.
  intros Hget. unfold toggleFavorite, try_catch, bind at 1. by rewrite Hget.
Qed.

Lemma toggleFavorite_write_rejected (now : Z) (read_fails : bool) (now' : Z)
    (wallpaperId : string) (s s1 : state) (favorites : list string) :
  getFavorites now read_fails s = (Returned favorites, s1) →
  toggleFavorite now read_fails true now' wallpaperId s =
  (Thrown "Erreur lors de la mise à jour des favoris", s1).
Proof.
  intros Hget. unfold toggleFavorite, try_catch, bind at 1. by rewrite Hget.
Qed.

Lemma array_includes_In (a : list string) (x : string) :
  Js.array_includes a x = true ↔ x ∈ a.
Proof.
  unfold Js.array_includes. rewrite existsb_exists. split.
  - intros (y & Hy & ->%String.eqb_eq). by apply list_elem_of_In.
  - intros Hx. exists x. split; [by apply list_elem_of_In | apply String.eqb_refl].
Qed.

Lemma toggled_list_absent (id : string) : toggled_list [] id = [id].
Proof. reflexivity. Qed.

Lemma toggled_list_singleton (id : string) : toggled_list [id] id = [].
Proof.
  unfold toggled_list, Js.array_includes. cbn. by rewrite String.eqb_refl.
Qed.

(** From an empty favorites set [getFavorites] finds no favorite, whether or
    not it reaches the storage. *)
Lemma getFavorites_empty (now : Z) (read_fails : bool) (s : state) :
  empty_favorites s → ∃ s', getFavorites now read_fails s = (Returned [], s').
Proof.
  intros [Hp Hm].
  destruct (fresh_mirror (favoritesCache s) (cacheTimestamp s) now)
    as [cached|] eqn:Hfresh.
  - exists s. rewrite (getFavorites_mirror _ _ _ _ Hfresh).
    apply fresh_mirror_Some in Hfresh as [Hc _].
    destruct Hm as [Hm|Hm]; congruence.
  - destruct read_fails.
    + exists s. by apply getFavorites_read_rejected.
    + eexists. rewrite (getFavorites_reload _ _ Hfresh). by rewrite Hp.
Qed.

(** C8. From an empty favorites set, with the storage answering,
    [toggleFavorite(id)] returns [isFavorite: true] and [getFavorites()] then
    returns [[id]]; a second [toggleFavorite(id)] returns [isFavorite: false]
    and [getFavorites()] then returns the empty list. This holds whatever the
    clock readings, that is, whether the reads are served by the mirror or
    by the storage. *)
Theorem favorites_round_trip (id : string) (s : state)
    (now1 now1' t1 now2 now2' t2 : Z) :
  empty_favorites s →
  ∃ m1 s1 s1' m2 s2 s2',
    toggleFavorite now1 false false now1' id s =
      (Returned {| isFavorite_ := true; message := m1 |}, s1)
    ∧ persisted s1 = [id]
    ∧ getFavorites t1 false s1 = (Returned [id], s1')
    ∧ toggleFavorite now2 false false now2' id s1' =
      (Returned {| isFavorite_ := false; message := m2 |}, s2)
    ∧ persisted s2 = []
    ∧ getFavorites t2 false s2 = (Returned [], s2').
Proof.
  intros Hempty.
  destruct (getFavorites_empty now1 false s Hempty) as [s0 Hget0].
  pose proof (toggleFavorite_written now1 false now1' id s s0 [] Hget0) as Htoggle1.
  rewrite toggled_list_absent in Htoggle1. cbn in Htoggle1.
  set (s1 := {| stored := Some [id]; favoritesCache := Some [id];
                cacheTimestamp := now1' |}) in *.
  assert (Hs1 : synced s1) by done.
  destruct (getFavorites_returns t1 false s1)
    as (l1 & s1' & Hget1 & Hstored1 & _ & Hsync1).
  destruct (Hsync1 Hs1) as [Hs1' Hl1]. rewrite (Hl1 eq_refl) in Hget1.
  change (persisted s1) with [id] in Hget1.
  assert (Hp1' : persisted s1' = [id]) by (unfold persisted; by rewrite Hstored1).
  destruct (getFavorites_returns now2 false s1')
    as (l2 & s1'' & Hget2 & _ & _ & Hsync2).
  destruct (Hsync2 Hs1') as [_ Hl2]. rewrite (Hl2 eq_refl), Hp1' in Hget2.
  pose proof (toggleFavorite_written now2 false now2' id s1' s1'' [id] Hget2)
    as Htoggle2.
  rewrite toggled_list_singleton in Htoggle2.
  assert (Hin : Js.array_includes [id] id = true).
  { apply array_includes_In. by left. }
  rewrite Hin in Htoggle2. cbn in Htoggle2.
  set (s2 := {| stored := Some []; favoritesCache := Some [];
                cacheTimestamp := now2' |}) in *.
  destruct (getFavorites_returns t2 false s2)
    as (l3 & s2' & Hget3 & _ & _ & Hsync3).
  destruct (Hsync3 eq_refl) as [_ Hl3]. rewrite (Hl3 eq_refl) in Hget3.
  by eexists _, s1, s1', _, s2, s2'.
Qed.

Lemma favorites_round_trip_witness :
  let s := {| stored := None; favoritesCache := None; cacheTimestamp := 0 |} in
  ∃ m1 s1 s1' m2 s2 s2',
    toggleFavorite 1000 false false 1001 "w42" s =
      (Returned {| isFavorite_ := true; message := m1 |}, s1)
    ∧ persisted s1 = ["w42"]
    ∧ getFavorites 2000 false s1 = (Returned ["w42"], s1')
    ∧ toggleFavorite 400000 false false 400001 "w42" s1' =
      (Returned {| isFavorite_ := false; message := m2 |}, s2)
    ∧ persisted s2 = []
    ∧ getFavorites 400002 false s2 = (Returned [], s2').
Proof.
  intros s.
  apply (favorites_round_trip "w42" s 1000 1001 2000 400000 400001 400002).
  split; [reflexivity | left; reflexivity].
Defined.

(** *** The mirror and the persisted list *)

Lemma written_synced (favorites : list string) (now : Z) :
  synced {| stored := Some favorites; favoritesCache := Some favorites;
            cacheTimestamp := now |}.
Proof. reflexivity. Qed.

Lemma toggleFavorite_cases (now : Z) (read_fails write_fails : bool) (now' : Z)
    (wallpaperId : string) (s : state) :
  ∃ favorites s1,
    getFavorites now read_fails s = (Returned favorites, s1)
    ∧ stored s1 = stored s
    ∧ (coherent s → coherent s1)
    ∧ toggleFavorite now read_fails write_fails now' wallpaperId s =
      if write_fails
      then (Thrown "Erreur lors de la mise à jour des favoris", s1)
      else (Returned {| isFavorite_ := negb (Js.array_includes favorites wallpaperId);
                        message := if Js.array_includes favorites wallpaperId
                                   then "Retiré des favoris"
                                   else "Ajouté aux favoris" |},
            {| stored := Some (toggled_list favorites wallpaperId);
               favoritesCache := Some (toggled_list favorites wallpaperId);
               cacheTimestamp := now' |}).
Proof.
  destruct (getFavorites_returns now read_fails s)
    as (favorites & s1 & Hget & Hstored & Hcoh & _).
  exists favorites, s1. split_and!; try done.
  destruct write_fails.
  - exact (toggleFavorite_write_rejected _ _ _ _ _ _ favorites Hget).
  - exact (toggleFavorite_written _ _ _ _ _ _ favorites Hget).
Qed.

Lemma clearFavorites_cases (remove_fails : bool) (now : Z) (s : state) :
  clearFavorites remove_fails now s =
  if remove_fails
  then (Thrown "Erreur lors de la suppression des favoris", s)
  else (Returned tt,
        {| stored := None; favoritesCache := Some []; cacheTimestamp := now |}).
Proof. by destruct remove_fails. Qed.

Lemma importFavorites_cases (write_fails : bool) (now : Z)
    (favoriteIds : list string) (s : state) :
  importFavorites write_fails now favoriteIds s =
  if write_fails
  then (Thrown "Erreur lors de l'importation des favoris", s)
  else let validIds := List.filter (λ id, (0 <? String.length id)%nat) favoriteIds in
       (Returned tt,
        {| stored := Some validIds; favoritesCache := Some validIds;
           cacheTimestamp := now |}).
Proof. by destruct write_fails. Qed.

Lemma mutate_synced (m : mutation) (s s' : state) :
  mutate m s = (Returned tt, s') → synced s'.
Proof.
  destruct m as [now r w now' id | r now | w now ids]; cbn [mutate].
  - destruct (toggleFavorite_cases now r w now' id s)
      as (favorites & s1 & _ & _ & _ & Htoggle).
    unfold bind. rewrite Htoggle. destruct w; [done|].
    intros [= <-]. apply written_synced.
  - rewrite clearFavorites_cases. destruct r; [done|]. by intros [= <-].
  - rewrite importFavorites_cases. destruct w; [done|].
    intros [= <-]. apply written_synced.
Qed.

Lemma toggleFavorite_coherent (now : Z) (read_fails write_fails : bool) (now' : Z)
    (wallpaperId : string) (s : state) :
  coherent s →
  coherent (toggleFavorite now read_fails write_fails now' wallpaperId s).2.
Proof.
  intros Hs.
  destruct (toggleFavorite_cases now read_fails write_fails now' wallpaperId s)
    as (favorites & s1 & _ & _ & Hcoh & ->).
  destruct write_fails; cbn [snd]; [auto|]. right. apply written_synced.
Qed.

Lemma exec_coherent (c : call) (s : state) : coherent s → coherent (exec c s).
Proof.
  intros Hs.
  destruct c as [now r|now r id|now r w now' id|now r w now' id
                |now0 r0 now r w now' id|now r|r now|now r|w now ids|];
    cbn [exec].
  - by destruct (getFavorites_returns now r s) as (l & s' & -> & _ & Hc & _); auto.
  - unfold isFavorite, bind.
    by destruct (getFavorites_returns now r s) as (l & s' & -> & _ & Hc & _); auto.
  - by apply toggleFavorite_coherent.
  - unfold addFavorite, bind.
    pose proof (toggleFavorite_coherent now r w now' id s Hs) as H.
    by destruct (toggleFavorite now r w now' id s) as [[result|e] s'].
  - unfold removeFavorite, bind at 1.
    destruct (getFavorites_returns now0 r0 s) as (l & s1 & -> & _ & Hc & _).
    destruct (negb (Js.array_includes l id)); [by auto|].
    unfold bind.
    pose proof (toggleFavorite_coherent now r w now' id s1 (Hc Hs)) as H.
    by destruct (toggleFavorite now r w now' id s1) as [[result|e] s'].
  - unfold getFavoritesCount, bind.
    by destruct (getFavorites_returns now r s) as (l & s' & -> & _ & Hc & _); auto.
  - rewrite clearFavorites_cases. destruct r; [done|]. by right.
  - unfold exportFavorites.
    by destruct (getFavorites_returns now r s) as (l & s' & -> & _ & Hc & _); auto.
  - rewrite importFavorites_cases. destruct w; [done|]. right. apply written_synced.
  - by left.
Qed.

Lemma run_coherent (calls : list call) (s : state) : coherent s → coherent (run calls s).
Proof.
  revert s. induction calls as [|c calls IH]; intros s Hs; [done|].
  apply (IH (exec c s)). by apply exec_coherent.
Qed.

Lemma served_coherent (now : Z) (read_fails : bool) (s : state) :
  coherent s → served_from_mirror now s →
  getFavorites now read_fails s = (Returned (persisted s), s).
Proof.
  intros Hs [[cached Hm] Hfresh]. apply getFavorites_mirror.
  apply fresh_mirror_Some. split; [|done].
  destruct Hs as [Hs|Hs]; [congruence | exact Hs].
Qed.

Lemma stale_only_served (now : Z) (s s' : state) (favorites : list string) :
  getFavorites now false s = (Returned favorites, s') →
  favorites ≠ persisted s → served_from_mirror now s.
Proof.
  intros Hget Hne.
  destruct (fresh_mirror (favoritesCache s) (cacheTimestamp s) now)
    as [cached|] eqn:Hfresh.
  - apply fresh_mirror_Some in Hfresh as [Hm Hlt]. split; [by eexists | done].
  - rewrite (getFavorites_reload _ _ Hfresh) in Hget. congruence.
Qed.

(** C9. After a mutation that returned ([toggleFavorite], [clearFavorites]
    or [importFavorites]) the mirror equals the persisted list. From then
    on, whatever calls of the service follow, a [getFavorites] served by the
    mirror returns the persisted list. In any state, a [getFavorites] whose
    storage read is answered returns something else than the persisted list
    only if the mirror served it, hence within [CACHE_DURATION] of the
    mirror's time stamp. *)
Theorem mirror_converges_after_mutation (m : mutation) (s s' : state) :
  mutate m s = (Returned tt, s') →
  synced s'
  ∧ (∀ calls now read_fails,
       served_from_mirror now (run calls s') →
       getFavorites now read_fails (run calls s') =
         (Returned (persisted (run calls s')), run calls s'))
  ∧ (∀ (s0 s0' : state) now favorites,
       getFavorites now false s0 = (Returned favorites, s0') →
       favorites ≠ persisted s0 →
       is_Some (favoritesCache s0) ∧ now - cacheTimestamp s0 < 5 * 60 * 1000).
Proof.
  intros Hm. pose proof (mutate_synced m s s' Hm) as Hs'.
  split_and!.
  - exact Hs'.
  - intros calls now read_fails. apply served_coherent, run_coherent. by right.
  - intros s0 s0' now favorites. apply stale_only_served.
Qed.

Lemma mirror_converges_after_mutation_witness :
  let s := {| stored := Some ["a"]; favoritesCache := None;
              cacheTimestamp := 0 |} in
  let s' := {| stored := Some ["a"; "b"]; favoritesCache := Some ["a"; "b"];
               cacheTimestamp := 1001 |} in
  mutate (ToggleFavorite 1000 false false 1001 "b") s = (Returned tt, s')
  ∧ synced s'.
Proof.
  intros s s'. split; [reflexivity|].
  apply (mirror_converges_after_mutation
           (ToggleFavorite 1000 false false 1001 "b") s s').
  reflexivity.
Defined.

(** *** [addFavorite] and [removeFavorite] *)

Lemma removeFavorite_absent (now0 : Z) (read_fails0 : bool) (now : Z)
    (read_fails write_fails : bool) (now' : Z) (wallpaperId : string)
    (s s1 : state) (favorites : list string) :
  getFavorites now0 read_fails0 s = (Returned favorites, s1) →
  wallpaperId ∉ favorites →
  removeFavorite now0 read_fails0 now read_fails write_fails now' wallpaperId s =
    (Returned true, s1)
  ∧ stored s1 = stored s.
Proof.
  intros Hget Hid.
  assert (Hno : Js.array_includes favorites wallpaperId = false).
  { destruct (Js.array_includes favorites wallpaperId) eqn:H; [|done].
    by apply array_includes_In in H. }
  unfold removeFavorite, bind at 1. rewrite Hget, Hno. split; [done|].
  destruct (getFavorites_returns now0 read_fails0 s) as (l & s' & Hget' & Hst & _).
  congruence.
Qed.

Lemma addFavorite_present (now : Z) (read_fails : bool) (now' : Z)
    (wallpaperId : string) (s s1 : state) (favorites : list string) :
  getFavorites now read_fails s = (Returned favorites, s1) →
  wallpaperId ∈ favorites →
  let rest := List.filter (λ id, negb (String.eqb id wallpaperId)) favorites in
  addFavorite now read_fails false now' wallpaperId s =
    (Returned false,
     {| stored := Some rest; favoritesCache := Some rest; cacheTimestamp := now' |})
  ∧ wallpaperId ∉ rest.
Proof.
  intros Hget Hid rest. apply array_includes_In in Hid. split.
  - unfold addFavorite, bind.
    rewrite (toggleFavorite_written _ _ _ _ _ _ favorites Hget).
    unfold toggled_list. by rewrite Hid.
  - unfold rest. rewrite list_elem_of_In, filter_In.
    intros [_ H]. by rewrite String.eqb_refl in H.
Qed.

(** C2, on the code. [removeFavorite(id)] with [id] absent from the list
    [getFavorites] answers returns [true] and writes nothing. But
    [addFavorite(id)] with [id] already a favorite is not a no-op: it toggles
    unconditionally, so the identifier is removed from the persisted list
    and from the mirror, and [false] is returned. *)
Theorem addFavorite_present_removes :
  (let s := {| stored := Some ["a"; "b"]; favoritesCache := Some ["a"; "b"];
               cacheTimestamp := 0 |} in
   addFavorite 1000 false false 1001 "a" s =
     (Returned false,
      {| stored := Some ["b"]; favoritesCache := Some ["b"];
         cacheTimestamp := 1001 |}))
  ∧ (∀ now read_fails now' wallpaperId s s1 favorites,
       getFavorites now read_fails s = (Returned favorites, s1) →
       wallpaperId ∈ favorites →
       ∃ s', addFavorite now read_fails false now' wallpaperId s = (Returned false, s')
             ∧ ¬ (wallpaperId ∈ persisted s')
             ∧ favoritesCache s' = Some (persisted s'))
  ∧ (∀ now0 read_fails0 now read_fails write_fails now' wallpaperId s s1 favorites,
       getFavorites now0 read_fails0 s = (Returned favorites, s1) →
       wallpaperId ∉ favorites →
       removeFavorite now0 read_fails0 now read_fails write_fails now' wallpaperId s =
         (Returned true, s1)
       ∧ stored s1 = stored s).
Proof.
  split_and!.
  - reflexivity.
  - intros now read_fails now' wallpaperId s s1 favorites Hget Hid.
    destruct (addFavorite_present now read_fails now' wallpaperId s s1 favorites
                Hget Hid) as [Heval Hrest].
    eexists. split; [exact Heval|]. split; [exact Hrest | reflexivity].
  - intros *. apply removeFavorite_absent.
Qed.

(** *** Storage failures *)

(** C3, as the code has it. A rejected storage write is propagated: when the
    write inside [toggleFavorite] or [importFavorites], or the removal inside
    [clearFavorites], is rejected, the operation throws and the persisted
    item is what it was. A rejected read is not: [getFavorites] always
    returns, and returns the empty list when the read it needs is
    rejected. *)
Theorem write_failures_propagate :
  (∀ now read_fails s,
     ∃ favorites s', getFavorites now read_fails s = (Returned favorites, s')
                     ∧ stored s' = stored s)
  ∧ (∀ now s,
       fresh_mirror (favoritesCache s) (cacheTimestamp s) now = None →
       getFavorites now true s = (Returned [], s))
  ∧ (∀ now read_fails now' wallpaperId s,
       ∃ s', toggleFavorite now read_fails true now' wallpaperId s =
               (Thrown "Erreur lors de la mise à jour des favoris", s')
             ∧ stored s' = stored s)
  ∧ (∀ now s,
       clearFavorites true now s =
         (Thrown "Erreur lors de la suppression des favoris", s))
  ∧ (∀ now favoriteIds s,
       importFavorites true now favoriteIds s =
         (Thrown "Erreur lors de l'importation des favoris", s)).
Proof.
  split_and!.
  - intros now read_fails s.
    destruct (getFavorites_returns now read_fails s) as (l & s' & Hget & Hst & _).
    by exists l, s'.
  - apply getFavorites_read_rejected.
  - intros now read_fails now' wallpaperId s.
    destruct (toggleFavorite_cases now read_fails true now' wallpaperId s)
      as (l & s1 & _ & Hst & _ & Htoggle).
    by exists s1.
  - done.
  - done.
Qed.

(** C3, as stated, fails: a rejected read inside [getFavorites] is caught,
    and the call returns the empty list instead of throwing. *)
Lemma getFavorites_swallows_read_failure :
  ¬ (∀ now s,
       fresh_mirror (favoritesCache s) (cacheTimestamp s) now = None →
       ∃ error s', getFavorites now true s = (Thrown error, s')).
Proof.
  intros claim.
  destruct (claim 1000 {| stored := Some ["a"]; favoritesCache := None;
                          cacheTimestamp := 0 |} eq_refl)
    as (error & s' & Hthrown).
  discriminate Hthrown.
Qed.

(** ** The cached reads *)

Import Reads.

Lemma session_eta (s : session) :
  {| service := {| cache := cache (service s); requests := requests (service s) |};
     reads := reads s |} = s.
Proof. by destruct s as [[c r] rd]. Qed.

(** A valid entry is read without any change of the cache. *)
Lemma get_valid {A} (k : string) (now : Z) (c : gmap string (Cache.entry A))
    (e : Cache.entry A) :
  c !! k = Some e → now - Cache.timestamp e ≤ Cache.ttl e →
  Cache.get k now c = (Some (Cache.data e), c).
Proof.
  intros Hk Hvalid. rewrite get_lookup, Hk.
  by rewrite bool_decide_true.
Qed.

Lemma get_expired {A} (k : string) (now : Z) (c : gmap string (Cache.entry A))
    (e : Cache.entry A) :
  c !! k = Some e → Cache.ttl e < now - Cache.timestamp e →
  Cache.get k now c = (None, delete k c).
Proof.
  intros Hk Hlate. rewrite get_lookup, Hk.
  rewrite bool_decide_false; [done|]. unfold Cache.valid. lia.
Qed.

Lemma get_absent {A} (k : string) (now : Z) (c : gmap string (Cache.entry A)) :
  c !! k = None → Cache.get k now c = (None, c).
Proof. intros Hk. by rewrite get_lookup, Hk. Qed.

(** After a read the key holds the entry it held, or nothing. *)
Lemma get_leaves {A} (k k' : string) (now : Z) (c : gmap string (Cache.entry A)) :
  (Cache.get k now c).2 !! k' = c !! k' ∨ (Cache.get k now c).2 !! k' = None.
Proof.
  rewrite get_lookup. destruct (c !! k) as [e|] eqn:Hk; [|by left].
  case_bool_decide; cbn [snd]; [by left|].
  destruct (decide (k = k')) as [->|Hne].
  - right. apply lookup_delete_eq.
  - left. by apply lookup_delete_ne.
Qed.

(** A read that returns no value leaves no entry under the key. *)
Lemma get_miss_absent {A} (k : string) (now : Z) (c : gmap string (Cache.entry A)) :
  (Cache.get k now c).1 = None → (Cache.get k now c).2 !! k = None.
Proof.
  rewrite get_lookup. destruct (c !! k) as [e|] eqn:Hk; [|done].
  case_bool_decide; cbn [fst snd]; [done|]. intros _. apply lookup_delete_eq.
Qed.

Lemma lift_get (k : string) (now : Z) (s : session) :
  lift (cacheUtils_get k now) s =
  (Returned (Cache.get k now (cache (service s))).1,
   {| service := {| cache := (Cache.get k now (cache (service s))).2;
                    requests := requests (service s) |};
      reads := reads s |}).
Proof.
  unfold lift, cacheUtils_get.
  by destruct (Cache.get k now (cache (service s))) as [value c].
Qed.

Ltac read_miss Hmiss :=
  unfold bind at 1; rewrite lift_get; cbn [fst snd] in *; rewrite Hmiss;
  try match goal with |- context [await ?p] => destruct p as [[]|] end;
  reflexivity.

Ltac read_miss_limited Hmiss :=
  unfold bind at 1; rewrite lift_get; cbn [fst snd] in *; rewrite Hmiss;
  unfold try_catch; rewrite bind_limit by lia;
  try match goal with |- context [await ?p] => destruct p as [[]|] end;
  reflexivity.

Ltac read_limit_zero Hmiss :=
  unfold bind at 1; rewrite lift_get; cbn [fst snd] in *; rewrite Hmiss;
  reflexivity.

Ltac read_hit Hget Hhit :=
  unfold bind at 1; rewrite lift_get, Hget; cbn [fst snd]; rewrite Hhit;
  by rewrite session_eta.

Lemma getWallpaperById_miss (t_get t_set : Z) (snapshot : settled (option doc))
    (id : string) (s : session) :
  hit (Cache.get ("wallpaper_" +:+ id) t_get (cache (service s))).1 = None →
  getWallpaperById t_get t_set snapshot id s =
  match snapshot with
  | Fulfilled (Some d) =>
      (Returned (Some (PEntity (toEntity d))),
       fetched ("wallpaper_" +:+ id) t_get (GetDoc "OWP_wallpapers" id)
         (PEntity (toEntity d)) CACHE_TTL_wallpapers t_set s)
  | _ => (Returned None,
          asked ("wallpaper_" +:+ id) t_get (GetDoc "OWP_wallpapers" id) s)
  end.
Proof. intros Hmiss. unfold getWallpaperById. read_miss Hmiss. Qed.

Lemma getWallpaperById_hit (t_get t_set : Z) (snapshot : settled (option doc))
    (id : string) (s : session) (value : payload) :
  Cache.get ("wallpaper_" +:+ id) t_get (cache (service s)) =
    (Some value, cache (service s)) →
  truthy value = true →
  getWallpaperById t_get t_set snapshot id s = (Returned (Some value), s).
Proof.
  intros Hget Hvalue.
  assert (Hhit : hit (Some value) = Some value) by (cbn; by rewrite Hvalue).
  unfold getWallpaperById. read_hit Hget Hhit.
Qed.

Lemma getCategoryById_miss (t_get t_set : Z) (snapshot : settled (option doc))
    (id : string) (s : session) :
  hit (Cache.get ("category_" +:+ id) t_get (cache (service s))).1 = None →
  getCategoryById t_get t_set snapshot id s =
  match snapshot with
  | Fulfilled (Some d) =>
      (Returned (Some (PEntity (toEntity d))),
       fetched ("category_" +:+ id) t_get (GetDoc "OWP_categories" id)
         (PEntity (toEntity d)) CACHE_TTL_categories t_set s)
  | _ => (Returned None,
          asked ("category_" +:+ id) t_get (GetDoc "OWP_categories" id) s)
  end.
Proof. intros Hmiss. unfold getCategoryById. read_miss Hmiss. Qed.

Lemma getFeaturedWallpapers_miss (t_get t_set : Z) (snapshot : settled (list doc))
    (n : nat) (s : session) :
  (0 < n)%nat →
  hit (Cache.get ("featured_wallpapers_" +:+ pretty n) t_get (cache (service s))).1
    = None →
  getFeaturedWallpapers t_get t_set snapshot n s =
  list_read_miss ("featured_wallpapers_" +:+ pretty n) t_get (QueryFeatured n)
    CACHE_TTL_featured t_set snapshot s.
Proof.
  intros Hn Hmiss. unfold getFeaturedWallpapers. read_miss_limited Hmiss.
Qed.

(** With a limit of zero the query is not built: nothing is asked and
    nothing is stored. *)
Lemma getFeaturedWallpapers_limit_zero (t_get t_set : Z)
    (snapshot : settled (list doc)) (s : session) :
  hit (Cache.get ("featured_wallpapers_" +:+ pretty 0%nat) t_get (cache (service s))).1
    = None →
  getFeaturedWallpapers t_get t_set snapshot 0 s =
  (Returned (PList []),
   {| service :=
        {| cache := (Cache.get ("featured_wallpapers_" +:+ pretty 0%nat) t_get
                       (cache (service s))).2;
           requests := requests (service s) |};
      reads := reads s |}).
Proof. intros Hmiss. unfold getFeaturedWallpapers. read_limit_zero Hmiss. Qed.


Lemma getAllCategories_miss (t_get t_set : Z) (snapshot : settled (list doc))
    (s : session) :
  hit (Cache.get "all_categories" t_get (cache (service s))).1 = None →
  getAllCategories t_get t_set snapshot s =
  list_read_miss "all_categories" t_get QueryAllCategories
    CACHE_TTL_categories t_set snapshot s.
Proof. intros Hmiss. unfold getAllCategories. read_miss Hmiss. Qed.

Lemma getPopularWallpapers_miss (t_get t_set : Z) (snapshot : settled (list doc))
    (n : nat) (s : session) :
  (0 < n)%nat →
  hit (Cache.get ("popular_wallpapers_" +:+ pretty n) t_get (cache (service s))).1
    = None →
  getPopularWallpapers t_get t_set snapshot n s =
  list_read_miss ("popular_wallpapers_" +:+ pretty n) t_get (QueryPopular n)
    CACHE_TTL_wallpapers t_set snapshot s.
Proof.
  intros Hn Hmiss. unfold getPopularWallpapers. read_miss_limited Hmiss.
Qed.

(** With a limit of zero the query is not built: nothing is asked and
    nothing is stored. *)
Lemma getPopularWallpapers_limit_zero (t_get t_set : Z)
    (snapshot : settled (list doc)) (s : session) :
  hit (Cache.get ("popular_wallpapers_" +:+ pretty 0%nat) t_get (cache (service s))).1
    = None →
  getPopularWallpapers t_get t_set snapshot 0 s =
  (Returned (PList []),
   {| service :=
        {| cache := (Cache.get ("popular_wallpapers_" +:+ pretty 0%nat) t_get
                       (cache (service s))).2;
           requests := requests (service s) |};
      reads := reads s |}).
Proof. intros Hmiss. unfold getPopularWallpapers. read_limit_zero Hmiss. Qed.

Lemma getPopularWallpapers_hit (t_get t_set : Z) (snapshot : settled (list doc))
    (n : nat) (s : session) (value : payload) :
  Cache.get ("popular_wallpapers_" +:+ pretty n) t_get (cache (service s)) =
    (Some value, cache (service s)) →
  hit (Some value) = Some value →
  getPopularWallpapers t_get t_set snapshot n s = (Returned value, s).
Proof. intros Hget Hhit. unfold getPopularWallpapers. read_hit Hget Hhit. Qed.

Lemma getNewWallpapers_miss (t_get t_set : Z) (snapshot : settled (list doc))
    (n : nat) (s : session) :
  (0 < n)%nat →
  hit (Cache.get ("new_wallpapers_" +:+ pretty n) t_get (cache (service s))).1
    = None →
  getNewWallpapers t_get t_set snapshot n s =
  list_read_miss ("new_wallpapers_" +:+ pretty n) t_get (QueryNew n)
    CACHE_TTL_wallpapers t_set snapshot s.
Proof.
  intros Hn Hmiss. unfold getNewWallpapers. read_miss_limited Hmiss.
Qed.

(** With a limit of zero the query is not built: nothing is asked and
    nothing is stored. *)
Lemma getNewWallpapers_limit_zero (t_get t_set : Z)
    (snapshot : settled (list doc)) (s : session) :
  hit (Cache.get ("new_wallpapers_" +:+ pretty 0%nat) t_get (cache (service s))).1
    = None →
  getNewWallpapers t_get t_set snapshot 0 s =
  (Returned (PList []),
   {| service :=
        {| cache := (Cache.get ("new_wallpapers_" +:+ pretty 0%nat) t_get
                       (cache (service s))).2;
           requests := requests (service s) |};
      reads := reads s |}).
Proof. intros Hmiss. unfold getNewWallpapers. read_limit_zero Hmiss. Qed.

Lemma getRelatedWallpapers_miss (t_get t_set : Z) (snapshot : settled (list doc))
    (categoryId excludeId : string) (n : nat) (s : session) :
  let k := "related_" +:+ categoryId +:+ "_" +:+ excludeId +:+ "_" +:+ pretty n in
  hit (Cache.get k t_get (cache (service s))).1 = None →
  getRelatedWallpapers t_get t_set snapshot categoryId excludeId n s =
  match snapshot with
  | Fulfilled docs =>
      let data := take n (List.filter (λ w, negb (id_is excludeId w))
                                      (toEntity <$> docs)) in
      (Returned (PList data),
       fetched k t_get (QueryRelated categoryId (n + 1)) (PList data)
         CACHE_TTL_wallpapers t_set s)
  | Rejected _ =>
      (Returned (PList []), asked k t_get (QueryRelated categoryId (n + 1)) s)
  end.
Proof.
  intros k Hmiss. unfold getRelatedWallpapers. fold k. read_miss_limited Hmiss.
Qed.

Lemma getRelatedWallpapers_hit (t_get t_set : Z) (snapshot : settled (list doc))
    (categoryId excludeId : string) (n : nat) (s : session) (value : payload) :
  Cache.get ("related_" +:+ categoryId +:+ "_" +:+ excludeId +:+ "_" +:+ pretty n)
    t_get (cache (service s)) = (Some value, cache (service s)) →
  hit (Some value) = Some value →
  getRelatedWallpapers t_get t_set snapshot categoryId excludeId n s =
    (Returned value, s).
Proof. intros Hget Hhit. unfold getRelatedWallpapers. read_hit Hget Hhit. Qed.

Lemma getWallpapersCountByCategory_miss (t_get t_set : Z) (snapshot : settled Z)
    (categoryId : string) (s : session) :
  (Cache.get ("count_" +:+ categoryId) t_get (cache (service s))).1 = None →
  getWallpapersCountByCategory t_get t_set snapshot categoryId s =
  match snapshot with
  | Fulfilled count =>
      (Returned (PNumber count),
       fetched ("count_" +:+ categoryId) t_get (CountByCategory categoryId)
         (PNumber count) CACHE_TTL_wallpapers t_set s)
  | Rejected _ =>
      (Returned (PNumber 0),
       asked ("count_" +:+ categoryId) t_get (CountByCategory categoryId) s)
  end.
Proof.
  intros Hmiss. unfold getWallpapersCountByCategory.
  unfold bind at 1. rewrite lift_get. cbn [fst snd]. rewrite Hmiss.
  by destruct snapshot.
Qed.

Lemma getWallpapersCountByCategory_hit (t_get t_set : Z) (snapshot : settled Z)
    (categoryId : string) (s : session) (value : payload) :
  Cache.get ("count_" +:+ categoryId) t_get (cache (service s)) =
    (Some value, cache (service s)) →
  getWallpapersCountByCategory t_get t_set snapshot categoryId s =
    (Returned value, s).
Proof.
  intros Hget. unfold getWallpapersCountByCategory.
  unfold bind at 1. rewrite lift_get, Hget. cbn [fst snd]. by rewrite session_eta.
Qed.

Lemma append_empty_r (s : string) : s +:+ EmptyString = s.
Proof. induction s as [|a s IH]; [done|]. by rewrite append_cons, IH. Qed.

Lemma includes_self (s : string) : Js.includes s s = true.
Proof.
  apply includes_substring. exists EmptyString, EmptyString.
  by rewrite append_nil, append_empty_r.
Qed.

(** X1. Read-through of [getWallpaperById]: when the cache has nothing to
    return and the store answers with the document, the entity is returned,
    one [getDoc] is sent and the entity is stored for five minutes. A
    second call no later than that is answered from the cache, whatever the
    store would say: same entity, no request, nothing changed; a call after
    that asks the store again. *)
Theorem wallpaper_read_through (t_get t_set t : Z) (d : doc) (id : string)
    (s : session) :
  hit (Cache.get ("wallpaper_" +:+ id) t_get (cache (service s))).1 = None →
  ∃ s1,
    getWallpaperById t_get t_set (Fulfilled (Some d)) id s =
      (Returned (Some (PEntity (toEntity d))), s1)
    ∧ reads s1 = reads s ++ [GetDoc "OWP_wallpapers" id]
    ∧ cache (service s1) !! ("wallpaper_" +:+ id) =
        Some (Cache.Entry (PEntity (toEntity d)) t_set (5 * 60 * 1000))
    ∧ (t - t_set ≤ 5 * 60 * 1000 →
       ∀ t' snapshot,
         getWallpaperById t t' snapshot id s1 =
           (Returned (Some (PEntity (toEntity d))), s1))
    ∧ (5 * 60 * 1000 < t - t_set →
       ∀ t' snapshot,
         reads (getWallpaperById t t' snapshot id s1).2 =
           reads s1 ++ [GetDoc "OWP_wallpapers" id]).
Proof.
  intros Hmiss.
  set (s1 := fetched ("wallpaper_" +:+ id) t_get (GetDoc "OWP_wallpapers" id)
               (PEntity (toEntity d)) CACHE_TTL_wallpapers t_set s).
  exists s1. split; [by rewrite getWallpaperById_miss|].
  assert (Hentry : cache (service s1) !! ("wallpaper_" +:+ id) =
            Some (Cache.Entry (PEntity (toEntity d)) t_set (5 * 60 * 1000)))
    by apply lookup_insert_eq.
  split_and!; [done | done | |].
  - intros Hfresh t' snapshot. apply getWallpaperById_hit; [|done].
    by apply (get_valid _ _ _ _ Hentry).
  - intros Hlate t' snapshot. rewrite getWallpaperById_miss.
    + by destruct snapshot as [[]|].
    + by rewrite (get_expired _ _ _ _ Hentry).
Qed.

Lemma wallpaper_read_through_witness :
  let d := Doc "w42" {["title" := JStr "CAT"]} in
  let s := {| service := {| cache := ∅; requests := [] |}; reads := [] |} in
  ∃ s1,
    getWallpaperById 1000 1200 (Fulfilled (Some d)) "w42" s =
      (Returned (Some (PEntity (toEntity d))), s1)
    ∧ getWallpaperById 301200 301300 (Rejected "offline") "w42" s1 =
        (Returned (Some (PEntity (toEntity d))), s1).
Proof.
  intros d s.
  destruct (wallpaper_read_through 1000 1200 301200 d "w42" s eq_refl)
    as (s1 & Hfirst & _ & _ & Hhit & _).
  exists s1. split; [exact Hfirst|]. apply Hhit. lia.
Defined.

(** X2. [getWallpaperById] never throws. When the cache has nothing to
    return and the store rejects the read or has no such document, it
    returns [null] and stores nothing, so that the next call, whenever it
    comes, asks the store again. *)
Theorem wallpaper_failure_not_cached (t_get t_set : Z)
    (snapshot : settled (option doc)) (id : string) (s : session) :
  (∃ result s', getWallpaperById t_get t_set snapshot id s = (Returned result, s'))
  ∧ (hit (Cache.get ("wallpaper_" +:+ id) t_get (cache (service s))).1 = None →
     (snapshot = Fulfilled None ∨ ∃ reason, snapshot = Rejected reason) →
     ∃ s',
       getWallpaperById t_get t_set snapshot id s = (Returned None, s')
       ∧ (∀ k, cache (service s') !! k = cache (service s) !! k
               ∨ cache (service s') !! k = None)
       ∧ ∀ t t' snapshot',
           reads (getWallpaperById t t' snapshot' id s').2 =
             reads s ++ [GetDoc "OWP_wallpapers" id; GetDoc "OWP_wallpapers" id]).
Proof.
  set (k := "wallpaper_" +:+ id).
  split.
  - destruct (hit (Cache.get k t_get (cache (service s))).1) as [value|] eqn:Hhit.
    + exists (Some value). eexists. unfold getWallpaperById. fold k.
      unfold bind at 1. rewrite lift_get. cbn [fst snd]. by rewrite Hhit.
    + rewrite (getWallpaperById_miss _ _ _ _ _ Hhit).
      destruct snapshot as [[d|]|reason]; by eexists _, _.
  - intros Hmiss Hsnapshot.
    exists (asked k t_get (GetDoc "OWP_wallpapers" id) s).
    split_and!.
    + rewrite (getWallpaperById_miss _ _ _ _ _ Hmiss).
      by destruct Hsnapshot as [->|[reason ->]].
    + intros k'. apply get_leaves.
    + intros t t' snapshot'.
      assert (Hagain : hit (Cache.get k t
                (cache (service (asked k t_get (GetDoc "OWP_wallpapers" id) s)))).1
              = None).
      { cbn [asked service cache]. revert Hmiss.
        rewrite !get_lookup. destruct (cache (service s) !! k) as [e|] eqn:He.
        - case_bool_decide; cbn [fst snd].
          + rewrite He. case_bool_decide; [done|]. done.
          + by rewrite lookup_delete_eq.
        - cbn [fst snd]. by rewrite He. }
      rewrite (getWallpaperById_miss _ _ _ _ _ Hagain).
      destruct snapshot' as [[d'|]|reason'];
        cbn [snd fetched asked reads]; by rewrite <- app_assoc.
Qed.

Lemma lift_increment_fulfilled (id : string) (s : session) :
  lift (incrementDownloadCount (Fulfilled tt) id) s =
    (Returned true,
     {| service := with_cache (Cache.invalidate ("wallpaper_" +:+ id))
                     (sent (UpdateIncrement id "downloads") (service s));
        reads := reads s |})
  ∧ lift (incrementViewCount (Fulfilled tt) id) s =
    (Returned true,
     {| service := with_cache (Cache.invalidate ("wallpaper_" +:+ id))
                     (sent (UpdateIncrement id "views") (service s));
        reads := reads s |}).
Proof.
  unfold lift. by destruct (increment_fulfilled id (service s)) as [-> ->].
Qed.

(** X3. After an increment whose update was fulfilled, the next
    [getWallpaperById] of that wallpaper never answers from the cache,
    however recent the entry was: it sends a [getDoc] and returns what the
    store answers ([null] when the read is rejected or the document is
    missing). *)
Theorem increment_forces_refetch (id : string) (s : session) (t_get t_set : Z)
    (snapshot : settled (option doc)) :
  ∀ s1,
    s1 = (lift (incrementDownloadCount (Fulfilled tt) id) s).2
    ∨ s1 = (lift (incrementViewCount (Fulfilled tt) id) s).2 →
    reads (getWallpaperById t_get t_set snapshot id s1).2 =
      reads s ++ [GetDoc "OWP_wallpapers" id]
    ∧ (getWallpaperById t_get t_set snapshot id s1).1 =
      Returned match snapshot with
               | Fulfilled (Some d) => Some (PEntity (toEntity d))
               | _ => None
               end.
Proof.
  intros s1 Hs1.
  assert (Hgone : cache (service s1) !! ("wallpaper_" +:+ id) = None).
  { destruct (lift_increment_fulfilled id s) as [Hd Hv].
    destruct Hs1 as [->| ->]; [rewrite Hd | rewrite Hv]; cbn;
      by rewrite invalidate_lookup, includes_self. }
  assert (Hreads : reads s1 = reads s).
  { destruct (lift_increment_fulfilled id s) as [Hd Hv].
    by destruct Hs1 as [->| ->]; [rewrite Hd | rewrite Hv]. }
  rewrite getWallpaperById_miss by (by rewrite (get_absent _ _ _ Hgone)).
  rewrite <- Hreads. by destruct snapshot as [[d|]|reason].
Qed.

Lemma increment_forces_refetch_witness :
  let d := Doc "w42" {["downloads" := JNum 7]} in
  let entry := Cache.Entry (PEntity (toEntity d)) 1000 300000 in
  let s := {| service := {| cache := {["wallpaper_w42" := entry]}; requests := [] |};
              reads := [] |} in
  let s1 := (lift (incrementDownloadCount (Fulfilled tt) "w42") s).2 in
  reads (getWallpaperById 1001 1002 (Rejected "offline") "w42" s1).2 =
    [GetDoc "OWP_wallpapers" "w42"]
  ∧ (getWallpaperById 1001 1002 (Rejected "offline") "w42" s1).1 = Returned None.
Proof.
  intros d entry s s1.
  apply (increment_forces_refetch "w42" s 1001 1002 (Rejected "offline") s1).
  left. reflexivity.
Defined.

(** X4. [getWallpapersCountByCategory] serves any cached count, a zero
    included, since it tests the cached value against [null] and not for
    truthiness: after a fulfilled count, a call no later than five minutes
    after returns that count without a request. A rejected count is reported
    as zero but not stored. *)
Theorem count_read_through (t_get t_set t : Z) (categoryId : string) (s : session) :
  (Cache.get ("count_" +:+ categoryId) t_get (cache (service s))).1 = None →
  (∀ count, ∃ s1,
     getWallpapersCountByCategory t_get t_set (Fulfilled count) categoryId s =
       (Returned (PNumber count), s1)
     ∧ reads s1 = reads s ++ [CountByCategory categoryId]
     ∧ (t - t_set ≤ 5 * 60 * 1000 →
        ∀ t' snapshot,
          getWallpapersCountByCategory t t' snapshot categoryId s1 =
            (Returned (PNumber count), s1)))
  ∧ (∀ reason, ∃ s1,
       getWallpapersCountByCategory t_get t_set (Rejected reason) categoryId s =
         (Returned (PNumber 0), s1)
       ∧ cache (service s1) !! ("count_" +:+ categoryId) = None).
Proof.
  intros Hmiss. split.
  - intros count.
    set (s1 := fetched ("count_" +:+ categoryId) t_get (CountByCategory categoryId)
                 (PNumber count) CACHE_TTL_wallpapers t_set s).
    exists s1. split; [by rewrite getWallpapersCountByCategory_miss|].
    split; [done|]. intros Hfresh t' snapshot.
    apply getWallpapersCountByCategory_hit.
    apply (get_valid _ _ _ (Cache.Entry (PNumber count) t_set (5 * 60 * 1000)));
      [apply lookup_insert_eq | done].
  - intros reason. eexists. split; [by rewrite getWallpapersCountByCategory_miss|].
    by apply get_miss_absent.
Qed.

Lemma count_read_through_witness :
  let s := {| service := {| cache := ∅; requests := [] |}; reads := [] |} in
  ∃ s1,
    getWallpapersCountByCategory 1000 1001 (Fulfilled 0) "nature" s =
      (Returned (PNumber 0), s1)
    ∧ reads s1 = [CountByCategory "nature"]
    ∧ getWallpapersCountByCategory 2000 2001 (Fulfilled 5) "nature" s1 =
        (Returned (PNumber 0), s1).
Proof.
  intros s.
  destruct (count_read_through 1000 1001 2000 "nature" s eq_refl) as [Hok _].
  destruct (Hok 0) as (s1 & Hfirst & Hreads & Hhit).
  exists s1. split; [exact Hfirst|]. split; [exact Hreads|].
  apply Hhit. lia.
Defined.



(** *** The keys of the list reads and the pattern of the increments *)

Lemma includes_lacks (c : ascii) (p s : string) :
  lacks c s = true → Js.includes s (String c p) = false.
Proof.
  induction s as [|a s IH]; cbn [lacks Js.includes String.prefix]; [done|].
  intros [Ha Hs]%andb_true_iff. rewrite (IH Hs), orb_false_r.
  destruct (Ascii.ascii_dec c a) as [->|Hne]; [|done].
  by rewrite Ascii.eqb_refl in Ha.
Qed.

Lemma pretty_N_go_lacks (c : ascii) (x : N) (s : string) :
  (∀ digit, pretty_N_char digit ≠ c) →
  lacks c s = true → lacks c (pretty_N_go x s) = true.
Proof.
  intros Hc. revert s. induction (N.lt_wf_0 x) as [x _ IH]; intros s Hs.
  assert (x = 0 ∨ 0 < x)%N as [->|Hx] by lia.
  - by rewrite pretty_N_go_0.
  - rewrite pretty_N_go_step by done. apply IH; [by apply N.div_lt|].
    cbn [lacks]. rewrite Hs, andb_true_r.
    apply negb_true_iff, Ascii.eqb_neq, Hc.
Qed.

Lemma pretty_nat_lacks_w (n : nat) : lacks "w" (pretty n) = true.
Proof.
  unfold pretty, pretty_nat, pretty, pretty_N.
  case_decide; [done|]. apply pretty_N_go_lacks; [|done].
  intros digit. unfold pretty_N_char. by repeat case_match.
Qed.

Lemma list_key_not_matched (id : string) (n : nat) (k : string) :
  k ∈ ["popular_wallpapers_" +:+ pretty n; "featured_wallpapers_" +:+ pretty n;
       "new_wallpapers_" +:+ pretty n; "all_categories"] →
  Js.includes k ("wallpaper_" +:+ id) = false.
Proof.
  assert (Htail : Js.includes (pretty n) ("wallpaper_" +:+ id) = false)
    by apply includes_lacks, pretty_nat_lacks_w.
  rewrite !elem_of_cons, elem_of_nil.
  intros [->|[->|[->|[->|[]]]]]; [exact Htail .. | reflexivity].
Qed.

Lemma lift_increment_cache (update : settled unit) (id : string) (s s1 : session) :
  s1 = (lift (incrementDownloadCount update id) s).2
  ∨ s1 = (lift (incrementViewCount update id) s).2 →
  reads s1 = reads s
  ∧ ∀ k, Js.includes k ("wallpaper_" +:+ id) = false →
         cache (service s1) !! k = cache (service s) !! k.
Proof.
  intros Hs1. unfold lift in Hs1. destruct update as [[]|reason].
  - destruct (increment_fulfilled id (service s)) as [Hd Hv].
    rewrite Hd, Hv in Hs1.
    destruct Hs1 as [->| ->]; (split; [done|]); intros k Hk; cbn;
      by rewrite invalidate_lookup, Hk.
  - destruct (increment_rejected reason id (service s)) as [Hd Hv].
    rewrite Hd, Hv in Hs1. by destruct Hs1 as [->| ->].
Qed.

(** X6. The increments leave the cached lists alone: whatever the
    wallpaper, the entries of the popular, featured and new lists and of the
    category list are the same after [incrementDownloadCount] or
    [incrementViewCount] as before. So a popular list cached before a
    download is still served, without a request, for as long as its entry is
    valid. *)
Theorem lists_survive_increment (update : settled unit) (id : string) (n : nat)
    (s : session) :
  ∀ s1,
    s1 = (lift (incrementDownloadCount update id) s).2
    ∨ s1 = (lift (incrementViewCount update id) s).2 →
    (∀ k, k ∈ ["popular_wallpapers_" +:+ pretty n; "featured_wallpapers_" +:+ pretty n;
               "new_wallpapers_" +:+ pretty n; "all_categories"] →
          cache (service s1) !! k = cache (service s) !! k)
    ∧ (∀ items stored ttl t t' snapshot,
         cache (service s) !! ("popular_wallpapers_" +:+ pretty n) =
           Some (Cache.Entry (PList items) stored ttl) →
         t - stored ≤ ttl →
         getPopularWallpapers t t' snapshot n s1 = (Returned (PList items), s1)).
Proof.
  intros s1 Hs1.
  destruct (lift_increment_cache update id s s1 Hs1) as [_ Hkeep].
  assert (Hkeys : ∀ k,
            k ∈ ["popular_wallpapers_" +:+ pretty n; "featured_wallpapers_" +:+ pretty n;
                 "new_wallpapers_" +:+ pretty n; "all_categories"] →
            cache (service s1) !! k = cache (service s) !! k).
  { intros k Hk. apply Hkeep. by apply (list_key_not_matched id n). }
  split; [exact Hkeys|].
  intros items stored ttl t t' snapshot Hentry Hvalid.
  apply getPopularWallpapers_hit; [|done].
  apply (get_valid _ _ _ (Cache.Entry (PList items) stored ttl)); [|done].
  rewrite Hkeys; [done | by left].
Qed.

Lemma lists_survive_increment_witness :
  let entry := Cache.Entry (PList []) 1000 300000 in
  let s := {| service := {| cache := {["popular_wallpapers_10" := entry]};
                            requests := [] |};
              reads := [] |} in
  let s1 := (lift (incrementDownloadCount (Fulfilled tt) "w42") s).2 in
  cache (service s1) !! "popular_wallpapers_10" = Some entry.
Proof.
  intros entry s s1.
  destruct (lists_survive_increment (Fulfilled tt) "w42" 10 s s1 (or_introl eq_refl))
    as [Hkeys _].
  rewrite (Hkeys "popular_wallpapers_10"); [reflexivity | left; reflexivity].
Defined.

(** *** Related wallpapers *)

Lemma id_is_entity_id (excludeId : string) (item : gmap string jsval) :
  id_is excludeId item = true ↔ entity_id item = Some (JStr excludeId).
Proof.
  unfold id_is. destruct (entity_id item) as [[x| | |]|]; try by split.
  rewrite String.eqb_eq. split; congruence.
Qed.

Lemma filter_drops_one {A} (f : A → bool) (l : list A) (x : A) :
  In x l → f x = false → (length (List.filter f l) < length l)%nat.
Proof.
  induction l as [|a l IH]; cbn [In List.filter length]; [done|].
  intros [->|Hx] Hf.
  - rewrite Hf. pose proof (filter_length_le f l). lia.
  - specialize (IH Hx Hf). destruct (f a); cbn [length]; lia.
Qed.

(** X7. On a miss, [getRelatedWallpapers] asks the store for one document
    more than [limitCount] and returns at most [limitCount] entities, each
    built from a fetched document and none with the excluded identifier.
    When the store answers with at most [limitCount + 1] documents and the
    excluded one is among them, nothing else is dropped: the result is the
    fetched list without the excluded wallpaper. *)
Theorem related_excludes_and_bounds (t_get t_set : Z) (docs : list doc)
    (categoryId excludeId : string) (limitCount : nat) (s : session) :
  hit (Cache.get ("related_" +:+ categoryId +:+ "_" +:+ excludeId +:+ "_"
                    +:+ pretty limitCount) t_get (cache (service s))).1 = None →
  ∃ data s1,
    getRelatedWallpapers t_get t_set (Fulfilled docs) categoryId excludeId
      limitCount s = (Returned (PList data), s1)
    ∧ reads s1 = reads s ++ [QueryRelated categoryId (limitCount + 1)]
    ∧ (length data ≤ limitCount)%nat
    ∧ (∀ w, w ∈ data →
            entity_id w ≠ Some (JStr excludeId) ∧ ∃ d, d ∈ docs ∧ w = toEntity d)
    ∧ ((length docs ≤ limitCount + 1)%nat →
       (∃ d, d ∈ docs ∧ entity_id (toEntity d) = Some (JStr excludeId)) →
       data = List.filter (λ w, negb (id_is excludeId w)) (toEntity <$> docs)).
Proof.
  intros Hmiss.
  set (kept := List.filter (λ w, negb (id_is excludeId w)) (toEntity <$> docs)).
  exists (take limitCount kept). eexists.
  split; [by rewrite getRelatedWallpapers_miss|].
  split_and!.
  - done.
  - rewrite length_take. lia.
  - intros w Hw.
    assert (Hkept : w ∈ kept)
      by (eapply elem_of_sublist; [exact Hw | apply sublist_take]).
    apply list_elem_of_In, filter_In in Hkept as [Hin Hnot].
    split.
    + intros Hid. apply id_is_entity_id in Hid. by rewrite Hid in Hnot.
    + apply list_elem_of_In, list_elem_of_fmap in Hin as (d & -> & Hd). by exists d.
  - intros Hlen (d & Hd & Hid). apply take_ge.
    assert (length kept < length (toEntity <$> docs))%nat.
    { apply (filter_drops_one _ _ (toEntity d)).
      - apply list_elem_of_In. by apply list_elem_of_fmap_2.
      - apply negb_false_iff. by apply id_is_entity_id. }
    rewrite length_fmap in *. lia.
Qed.

Lemma related_excludes_and_bounds_witness :
  let a := Doc "a" ∅ in
  let b := Doc "b" ∅ in
  let c := Doc "c" ∅ in
  let s := {| service := {| cache := ∅; requests := [] |}; reads := [] |} in
  ∃ data s1,
    getRelatedWallpapers 1000 1001 (Fulfilled [a; b; c]) "nature" "b" 2 s =
      (Returned (PList data), s1)
    ∧ (length data ≤ 2)%nat.
Proof.
  intros a b c s.
  destruct (related_excludes_and_bounds 1000 1001 [a; b; c] "nature" "b" 2 s eq_refl)
    as (data & s1 & Heval & _ & Hlen & _).
  by exists data, s1.
Defined.

Lemma append_assoc (a b c : string) : (a +:+ b) +:+ c = a +:+ (b +:+ c).
Proof. induction a as [|x a IH]; [done|]. by rewrite !append_cons, IH. Qed.

(** X8. The key of [getRelatedWallpapers] joins its parameters with
    underscores, so two calls whose category and excluded identifiers read
    the same once joined share one entry: after a fetch for the first pair,
    a call for the second pair within five minutes is answered with the
    first pair's list, without a request. *)
Theorem related_key_collision (t_get t_set t : Z) (docs : list doc)
    (category1 exclude1 category2 exclude2 : string) (limitCount : nat)
    (s : session) :
  category1 +:+ "_" +:+ exclude1 = category2 +:+ "_" +:+ exclude2 →
  hit (Cache.get ("related_" +:+ category1 +:+ "_" +:+ exclude1 +:+ "_"
                    +:+ pretty limitCount) t_get (cache (service s))).1 = None →
  t - t_set ≤ 5 * 60 * 1000 →
  ∃ data s1,
    getRelatedWallpapers t_get t_set (Fulfilled docs) category1 exclude1
      limitCount s = (Returned (PList data), s1)
    ∧ ∀ t' snapshot,
        getRelatedWallpapers t t' snapshot category2 exclude2 limitCount s1 =
          (Returned (PList data), s1).
Proof.
  intros Hjoined Hmiss Hfresh.
  assert (Hkey : "related_" +:+ category2 +:+ "_" +:+ exclude2 +:+ "_"
                   +:+ pretty limitCount
                 = "related_" +:+ category1 +:+ "_" +:+ exclude1 +:+ "_"
                   +:+ pretty limitCount).
  { f_equal.
    rewrite <- (append_assoc "_" exclude2), <- (append_assoc category2).
    rewrite <- (append_assoc "_" exclude1), <- (append_assoc category1).
    by rewrite Hjoined. }
  set (data := take limitCount
                 (List.filter (λ w, negb (id_is exclude1 w)) (toEntity <$> docs))).
  exists data. eexists. split; [by rewrite getRelatedWallpapers_miss|].
  intros t' snapshot. apply getRelatedWallpapers_hit; [|done].
  rewrite Hkey.
  apply (get_valid _ _ _ (Cache.Entry (PList data) t_set (5 * 60 * 1000)));
    [apply lookup_insert_eq | done].
Qed.

Lemma related_key_collision_witness :
  let a := Doc "w_1" ∅ in
  let b := Doc "w_2" ∅ in
  let s := {| service := {| cache := ∅; requests := [] |}; reads := [] |} in
  ∃ data s1,
    getRelatedWallpapers 1000 1001 (Fulfilled [a; b]) "art_w" "1" 25 s =
      (Returned (PList data), s1)
    ∧ getRelatedWallpapers 2000 2001 (Fulfilled []) "art" "w_1" 25 s1 =
        (Returned (PList data), s1).
Proof.
  intros a b s.
  destruct (related_key_collision 1000 1001 2000 [a; b] "art_w" "1" "art" "w_1" 25 s
              eq_refl eq_refl) as (data & s1 & Hfirst & Hsecond); [lia|].
  exists data, s1. split; [exact Hfirst | apply Hsecond].
Defined.

(** *** Clearing the cache *)

Lemma includes_empty (s : string) : Js.includes s EmptyString = true.
Proof. by destruct s. Qed.

Lemma invalidate_empty_pattern {A} (c : gmap string (Cache.entry A)) :
  Cache.invalidate EmptyString c = ∅.
Proof.
  apply map_eq. intros k. by rewrite invalidate_lookup, includes_empty, lookup_empty.
Qed.

(** X9. [invalidateCache] without a pattern, or with the empty string
    (which is falsy), empties the cache, as [clearCache] does and as
    [cacheUtils.invalidate("")] would, and [getCacheStats] then reports no
    key; with a pattern that is not empty it removes the keys containing
    the pattern and only those. *)
Theorem invalidateCache_patterns (w : world) :
  invalidateCache None w = (Returned tt, with_cache (λ _, ∅) w)
  ∧ invalidateCache (Some EmptyString) w = (Returned tt, with_cache (λ _, ∅) w)
  ∧ clearCache w = (Returned tt, with_cache (λ _, ∅) w)
  ∧ (getCacheStats (with_cache (λ _, ∅) w)).1 =
      Returned {| size_ := 0; keys_ := [] |}
  ∧ Cache.invalidate EmptyString (cache w) = ∅
  ∧ (∀ pattern, pattern ≠ EmptyString →
       ∃ w', invalidateCache (Some pattern) w = (Returned tt, w')
             ∧ requests w' = requests w
             ∧ ∀ k, cache w' !! k =
                    if Js.includes k pattern then None else cache w !! k).
Proof.
  split_and!; try done.
  - apply invalidate_empty_pattern.
  - intros pattern Hne. destruct pattern as [|a p]; [done|].
    eexists. split; [reflexivity|]. split; [done|].
    intros k. apply invalidate_lookup.
Qed.

(** *** The kind of value behind each key *)

Lemma typed_empty : typed ∅.
Proof. intros k e Hk. by rewrite lookup_empty in Hk. Qed.

Lemma typed_get (k : string) (now : Z) (c : gmap string (Cache.entry payload)) :
  typed c → typed (Cache.get k now c).2.
Proof.
  intros Hc k' e He. destruct (get_leaves k k' now c) as [Hsame|Hnone].
  - apply Hc. by rewrite <- Hsame.
  - by rewrite Hnone in He.
Qed.

Lemma typed_set (k : string) (v : payload) (ttl now : Z)
    (c : gmap string (Cache.entry payload)) :
  expected k v = true → typed c → typed (Cache.set k v ttl now c).
Proof.
  intros Hv Hc k' e. unfold Cache.set. rewrite lookup_insert.
  case_decide as Hk; [|apply Hc]. subst k'. by intros [= <-].
Qed.

Lemma typed_invalidate (pattern : string) (c : gmap string (Cache.entry payload)) :
  typed c → typed (Cache.invalidate pattern c).
Proof.
  intros Hc k e. rewrite invalidate_lookup.
  destruct (Js.includes k pattern); [done | apply Hc].
Qed.

Lemma prefix_append (p t : string) : String.prefix p (p +:+ t) = true.
Proof. apply prefix_app. by exists t. Qed.

Lemma expected_wallpaper (id : string) (item : gmap string jsval) :
  expected ("wallpaper_" +:+ id) (PEntity item) = true.
Proof. unfold expected. by rewrite prefix_append. Qed.

Lemma expected_category (id : string) (item : gmap string jsval) :
  expected ("category_" +:+ id) (PEntity item) = true.
Proof. unfold expected. by rewrite (prefix_append "category_"), orb_true_r. Qed.

Lemma expected_count (categoryId : string) (count : Z) :
  expected ("count_" +:+ categoryId) (PNumber count) = true.
Proof.
  unfold expected. rewrite (prefix_append "count_").
  by replace (String.prefix "wallpaper_" ("count_" +:+ categoryId)
              || String.prefix "category_" ("count_" +:+ categoryId)) with false.
Qed.

Ltac typed_step Hs :=
  cbn;
  first [ apply typed_get; exact Hs
        | apply typed_set;
          [ first [ reflexivity | apply expected_wallpaper
                  | apply expected_category | apply expected_count ]
          | apply typed_get; exact Hs ] ].

Ltac typed_read Hs :=
  unfold bind at 1; rewrite lift_get; cbn [fst snd];
  match goal with
  | |- context [hit ?x] => destruct (hit x)
  | |- context [match ?x with Some _ => _ | None => _ end] => destruct x
  end;
  [ typed_step Hs
  | try (unfold try_catch;
         first [ rewrite bind_limit by lia
               | match goal with
                 | |- context [limit ?n] =>
                     destruct (decide (n = 0%nat)) as [->|?];
                     [|rewrite bind_limit by lia]
                 end ]);
    try match goal with
        | |- context [await ?p] => destruct p as [[]|]
        end;
    typed_step Hs ].

Section typed_facts.
Context (toLowerCase toUpperCase : string → string).

Lemma search_typed (t_get t_set : Z) (titleSnapshot tagSnapshot : settled (list doc))
    (searchTerm : string) (n : nat) (w : world) :
  typed (cache w) →
  typed (cache (searchWallpapers toLowerCase toUpperCase t_get t_set
                  titleSnapshot tagSnapshot searchTerm n w).2).
Proof.
  intros Hw. unfold searchWallpapers.
  destruct (negb (Js.truthy (Js.trim searchTerm))); [done|].
  unfold bind at 1, cacheUtils_get.
  pose proof (typed_get ("search_" +:+ toLowerCase searchTerm +:+ "_" +:+ pretty n)
                t_get (cache w) Hw) as Hget.
  destruct (Cache.get _ t_get (cache w)) as [cached c]. cbn [snd] in Hget.
  destruct (hit cached); [done|].
  destruct (decide (n = 0%nat)) as [->|Hn]; [exact Hget|].
  unfold try_catch. rewrite bind_limit by lia. rewrite bind_limit by lia. cbn.
  by apply typed_set.
Qed.

Lemma perform_typed (a : action) (s : session) :
  typed (cache (service s)) →
  typed (cache (service (perform toLowerCase toUpperCase a s))).
Proof.
  intros Hs.
  destruct a as [t_get t_set snapshot n | t_get t_set snapshot
                | t_get t_set snapshot id | t_get t_set snapshot id
                | snapshot categoryId n state
                | t_get t_set snapshot categoryId excludeId n
                | t_get t_set snapshot n | t_get t_set snapshot n
                | t_get t_set snapshot categoryId
                | t_get t_set titleSnapshot tagSnapshot searchTerm n
                | update id | update id | | pattern];
    cbn [perform].
  - unfold getFeaturedWallpapers. typed_read Hs.
  - unfold getAllCategories. typed_read Hs.
  - unfold getCategoryById. typed_read Hs.
  - unfold getWallpaperById. typed_read Hs.
  - unfold lift. destruct n as [|n]; [done|]. by destruct snapshot.
  - unfold getRelatedWallpapers. typed_read Hs.
  - unfold getPopularWallpapers. typed_read Hs.
  - unfold getNewWallpapers. typed_read Hs.
  - unfold getWallpapersCountByCategory. typed_read Hs.
  - unfold lift.
    pose proof (search_typed t_get t_set titleSnapshot tagSnapshot searchTerm n
                  (service s) Hs) as H.
    by destruct (searchWallpapers _ _ _ _ _ _ _ _ (service s)).
  - unfold lift. destruct update as [[]|reason].
    + destruct (increment_fulfilled id (service s)) as [-> _]. cbn.
      by apply typed_invalidate.
    + by destruct (increment_rejected reason id (service s)) as [-> _].
  - unfold lift. destruct update as [[]|reason].
    + destruct (increment_fulfilled id (service s)) as [_ ->]. cbn.
      by apply typed_invalidate.
    + by destruct (increment_rejected reason id (service s)) as [_ ->].
  - cbn. apply typed_empty.
  - destruct pattern as [[|c p]|]; cbn; try apply typed_empty.
    by apply typed_invalidate.
Qed.

Lemma perform_all_typed (actions : list action) (s : session) :
  typed (cache (service s)) →
  typed (cache (service (perform_all toLowerCase toUpperCase actions s))).
Proof.
  revert s. induction actions as [|a actions IH]; intros s Hs; [done|].
  apply (IH (perform toLowerCase toUpperCase a s)). by apply perform_typed.
Qed.

End typed_facts.

Lemma hit_Some (cached : option payload) (value : payload) :
  hit cached = Some value → cached = Some value.
Proof.
  destruct cached as [p|]; [|done]. cbn. by destruct (truthy p); [intros [= ->]|].
Qed.

Lemma get_typed_value (k : string) (now : Z) (c : gmap string (Cache.entry payload))
    (value : payload) :
  typed c → (Cache.get k now c).1 = Some value → expected k value = true.
Proof.
  intros Hc. rewrite get_lookup. destruct (c !! k) as [e|] eqn:He; [|done].
  case_bool_decide; [|done]. intros [= <-]. by apply (Hc k).
Qed.

Lemma expected_entity (k : string) (value : payload) :
  String.prefix "wallpaper_" k || String.prefix "category_" k = true →
  expected k value = true → ∃ item, value = PEntity item.
Proof.
  unfold expected. intros ->. destruct value; [done | by eexists | done].
Qed.

Lemma expected_number (categoryId : string) (value : payload) :
  expected ("count_" +:+ categoryId) value = true → ∃ count, value = PNumber count.
Proof.
  unfold expected. rewrite (prefix_append "count_").
  replace (String.prefix "wallpaper_" ("count_" +:+ categoryId)
           || String.prefix "category_" ("count_" +:+ categoryId)) with false by done.
  destruct value; [done | done | by eexists].
Qed.

Lemma expected_list (k : string) (value : payload) :
  String.prefix "wallpaper_" k || String.prefix "category_" k = false →
  String.prefix "count_" k = false →
  expected k value = true → ∃ items, value = PList items.
Proof.
  unfold expected. intros -> ->. destruct value; [by eexists | done | done].
Qed.

Section kinds.
Context (s : session) (Hs : typed (cache (service s))).

Lemma hit_kind (k : string) (t_get : Z) (value : payload) :
  hit (Cache.get k t_get (cache (service s))).1 = Some value →
  expected k value = true.
Proof. intros Hhit%hit_Some. by apply (get_typed_value k t_get _ _ Hs). Qed.

Ltac kind_of_read Hhit :=
  unfold bind at 1; rewrite lift_get; cbn [fst snd]; rewrite Hhit.

Lemma getWallpaperById_kind (t_get t_set : Z) (snapshot : settled (option doc))
    (id : string) :
  ∃ s', getWallpaperById t_get t_set snapshot id s = (Returned None, s')
        ∨ ∃ item, getWallpaperById t_get t_set snapshot id s =
                    (Returned (Some (PEntity item)), s').
Proof.
  destruct (hit (Cache.get ("wallpaper_" +:+ id) t_get (cache (service s))).1)
    as [value|] eqn:Hhit.
  - destruct (expected_entity ("wallpaper_" +:+ id) value) as [item ->].
    { by rewrite prefix_append. }
    { by apply (hit_kind _ t_get). }
    eexists. right. exists item. unfold getWallpaperById. by kind_of_read Hhit.
  - rewrite (getWallpaperById_miss _ _ _ _ _ Hhit).
    destruct snapshot as [[d|]|reason]; eexists; eauto.
Qed.

Lemma getCategoryById_kind (t_get t_set : Z) (snapshot : settled (option doc))
    (id : string) :
  ∃ s', getCategoryById t_get t_set snapshot id s = (Returned None, s')
        ∨ ∃ item, getCategoryById t_get t_set snapshot id s =
                    (Returned (Some (PEntity item)), s').
Proof.
  destruct (hit (Cache.get ("category_" +:+ id) t_get (cache (service s))).1)
    as [value|] eqn:Hhit.
  - destruct (expected_entity ("category_" +:+ id) value) as [item ->].
    { by rewrite (prefix_append "category_"), orb_true_r. }
    { by apply (hit_kind _ t_get). }
    eexists. right. exists item. unfold getCategoryById. by kind_of_read Hhit.
  - rewrite (getCategoryById_miss _ _ _ _ _ Hhit).
    destruct snapshot as [[d|]|reason]; eexists; eauto.
Qed.

Lemma getWallpapersCountByCategory_kind (t_get t_set : Z) (snapshot : settled Z)
    (categoryId : string) :
  ∃ count s', getWallpapersCountByCategory t_get t_set snapshot categoryId s =
                (Returned (PNumber count), s').
Proof.
  destruct (Cache.get ("count_" +:+ categoryId) t_get (cache (service s))).1
    as [value|] eqn:Hget.
  - destruct (expected_number categoryId value) as [count ->].
    { by apply (get_typed_value _ t_get _ _ Hs). }
    exists count. eexists. unfold getWallpapersCountByCategory.
    unfold bind at 1. rewrite lift_get. cbn [fst snd]. by rewrite Hget.
  - rewrite (getWallpapersCountByCategory_miss _ _ _ _ _ Hget).
    destruct snapshot; by eexists _, _.
Qed.

Lemma list_read_kind (k : string) (t_get : Z) (r : read) (ttl t_set : Z)
    (snapshot : settled (list doc)) :
  ∃ items s', list_read_miss k t_get r ttl t_set snapshot s =
                (Returned (PList items), s').
Proof. destruct snapshot; by eexists _, _. Qed.

Lemma getFeaturedWallpapers_kind (t_get t_set : Z) (snapshot : settled (list doc))
    (n : nat) :
  ∃ items s', getFeaturedWallpapers t_get t_set snapshot n s =
                (Returned (PList items), s').
Proof.
  destruct (hit (Cache.get ("featured_wallpapers_" +:+ pretty n) t_get
                   (cache (service s))).1) as [value|] eqn:Hhit.
  - destruct (expected_list ("featured_wallpapers_" +:+ pretty n) value)
      as [items ->]; [done | done | by apply (hit_kind _ t_get) |].
    exists items. eexists. unfold getFeaturedWallpapers. by kind_of_read Hhit.
  - destruct (decide (n = 0%nat)) as [->|Hn].
    + rewrite (getFeaturedWallpapers_limit_zero _ _ _ _ Hhit). by eexists _, _.
    + assert (Hpos : (0 < n)%nat) by lia.
      rewrite (getFeaturedWallpapers_miss _ _ _ _ _ Hpos Hhit).
      apply list_read_kind.
Qed.

Lemma getPopularWallpapers_kind (t_get t_set : Z) (snapshot : settled (list doc))
    (n : nat) :
  ∃ items s', getPopularWallpapers t_get t_set snapshot n s =
                (Returned (PList items), s').
Proof.
  destruct (hit (Cache.get ("popular_wallpapers_" +:+ pretty n) t_get
                   (cache (service s))).1) as [value|] eqn:Hhit.
  - destruct (expected_list ("popular_wallpapers_" +:+ pretty n) value)
      as [items ->]; [done | done | by apply (hit_kind _ t_get) |].
    exists items. eexists. unfold getPopularWallpapers. by kind_of_read Hhit.
  - destruct (decide (n = 0%nat)) as [->|Hn].
    + rewrite (getPopularWallpapers_limit_zero _ _ _ _ Hhit). by eexists _, _.
    + assert (Hpos : (0 < n)%nat) by lia.
      rewrite (getPopularWallpapers_miss _ _ _ _ _ Hpos Hhit).
      apply list_read_kind.
Qed.

Lemma getNewWallpapers_kind (t_get t_set : Z) (snapshot : settled (list doc))
    (n : nat) :
  ∃ items s', getNewWallpapers t_get t_set snapshot n s =
                (Returned (PList items), s').
Proof.
  destruct (hit (Cache.get ("new_wallpapers_" +:+ pretty n) t_get
                   (cache (service s))).1) as [value|] eqn:Hhit.
  - destruct (expected_list ("new_wallpapers_" +:+ pretty n) value)
      as [items ->]; [done | done | by apply (hit_kind _ t_get) |].
    exists items. eexists. unfold getNewWallpapers. by kind_of_read Hhit.
  - destruct (decide (n = 0%nat)) as [->|Hn].
    + rewrite (getNewWallpapers_limit_zero _ _ _ _ Hhit). by eexists _, _.
    + assert (Hpos : (0 < n)%nat) by lia.
      rewrite (getNewWallpapers_miss _ _ _ _ _ Hpos Hhit).
      apply list_read_kind.
Qed.

Lemma getAllCategories_kind (t_get t_set : Z) (snapshot : settled (list doc)) :
  ∃ items s', getAllCategories t_get t_set snapshot s = (Returned (PList items), s').
Proof.
  destruct (hit (Cache.get "all_categories" t_get (cache (service s))).1)
    as [value|] eqn:Hhit.
  - destruct (expected_list "all_categories" value)
      as [items ->]; [done | done | by apply (hit_kind _ t_get) |].
    exists items. eexists. unfold getAllCategories. by kind_of_read Hhit.
  - rewrite (getAllCategories_miss _ _ _ _ Hhit). apply list_read_kind.
Qed.

Lemma getRelatedWallpapers_kind (t_get t_set : Z) (snapshot : settled (list doc))
    (categoryId excludeId : string) (n : nat) :
  ∃ items s', getRelatedWallpapers t_get t_set snapshot categoryId excludeId n s =
                (Returned (PList items), s').
Proof.
  set (k := "related_" +:+ categoryId +:+ "_" +:+ excludeId +:+ "_" +:+ pretty n).
  destruct (hit (Cache.get k t_get (cache (service s))).1) as [value|] eqn:Hhit.
  - destruct (expected_list k value)
      as [items ->]; [done | done | by apply (hit_kind _ t_get) |].
    exists items. eexists. unfold getRelatedWallpapers. fold k. by kind_of_read Hhit.
  - rewrite (getRelatedWallpapers_miss _ _ _ _ _ _ _ Hhit).
    destruct snapshot; by eexists _, _.
Qed.

End kinds.

Lemma searchWallpapers_kind (toLowerCase toUpperCase : string → string)
    (t_get t_set : Z) (titleSnapshot tagSnapshot : settled (list doc))
    (searchTerm : string) (n : nat) (w : world) :
  typed (cache w) →
  ∃ items w',
    searchWallpapers toLowerCase toUpperCase t_get t_set titleSnapshot tagSnapshot
      searchTerm n w = (Returned (PList items), w').
Proof.
  intros Hw. destruct (Js.all_whitespace searchTerm) eqn:Hblank.
  - exists [], w. unfold searchWallpapers. by rewrite trim_truthy, Hblank.
  - set (k := "search_" +:+ toLowerCase searchTerm +:+ "_" +:+ pretty n).
    destruct (hit (Cache.get k t_get (cache w)).1) as [value|] eqn:Hhit.
    + destruct (expected_list k value) as [items ->]; [done | done | |].
      { apply hit_Some in Hhit. by apply (get_typed_value k t_get _ _ Hw). }
      exists items, (with_cache (λ _, (Cache.get k t_get (cache w)).2) w).
      unfold searchWallpapers.
      rewrite trim_truthy, Hblank. cbn [negb]. fold k.
      unfold bind at 1, cacheUtils_get.
      destruct (Cache.get k t_get (cache w)) as [cached c]. cbn [fst snd] in *.
      by rewrite Hhit.
    + destruct (decide (n = 0%nat)) as [->|Hn].
      * eexists _, _. by apply search_limit_zero.
      * eexists _, _. apply search_miss; [lia | done | done].
Qed.

(** X10. No operation reads a value of the wrong kind from the shared cache:
    the keys of the operations fall into disjoint families, and every
    operation stores under its keys the kind of value it returns. Hence,
    from a cache whose entries match their keys (the empty cache of a fresh
    process is one), after any sequence of calls of the service, with any
    answers of the store and any clock readings, [getWallpaperById] and
    [getCategoryById] return an entity or [null], the count returns a
    number, and the list reads and the search return lists. *)
Theorem results_match_their_kind (toLowerCase toUpperCase : string → string)
    (actions : list action) (s0 : session) :
  typed (cache (service s0)) →
  let s := perform_all toLowerCase toUpperCase actions s0 in
  typed (cache (service s))
  ∧ (∀ t_get t_set snapshot id,
       ∃ s', getWallpaperById t_get t_set snapshot id s = (Returned None, s')
             ∨ ∃ item, getWallpaperById t_get t_set snapshot id s =
                         (Returned (Some (PEntity item)), s'))
  ∧ (∀ t_get t_set snapshot id,
       ∃ s', getCategoryById t_get t_set snapshot id s = (Returned None, s')
             ∨ ∃ item, getCategoryById t_get t_set snapshot id s =
                         (Returned (Some (PEntity item)), s'))
  ∧ (∀ t_get t_set snapshot categoryId,
       ∃ count s', getWallpapersCountByCategory t_get t_set snapshot categoryId s =
                     (Returned (PNumber count), s'))
  ∧ (∀ t_get t_set snapshot n,
       (∃ items s', getFeaturedWallpapers t_get t_set snapshot n s =
                      (Returned (PList items), s'))
       ∧ (∃ items s', getPopularWallpapers t_get t_set snapshot n s =
                        (Returned (PList items), s'))
       ∧ (∃ items s', getNewWallpapers t_get t_set snapshot n s =
                        (Returned (PList items), s'))
       ∧ (∃ items s', getAllCategories t_get t_set snapshot s =
                        (Returned (PList items), s')))
  ∧ (∀ t_get t_set snapshot categoryId excludeId n,
       ∃ items s', getRelatedWallpapers t_get t_set snapshot categoryId excludeId n s =
                     (Returned (PList items), s'))
  ∧ (∀ t_get t_set titleSnapshot tagSnapshot searchTerm n,
       ∃ items w',
         searchWallpapers toLowerCase toUpperCase t_get t_set titleSnapshot
           tagSnapshot searchTerm n (service s) = (Returned (PList items), w')).
Proof.
  intros Hs0 s.
  assert (Hs : typed (cache (service s))) by by apply perform_all_typed.
  split_and!.
  - exact Hs.
  - intros. by apply getWallpaperById_kind.
  - intros. by apply getCategoryById_kind.
  - intros. by apply getWallpapersCountByCategory_kind.
  - intros. split_and!.
    + by apply getFeaturedWallpapers_kind.
    + by apply getPopularWallpapers_kind.
    + by apply getNewWallpapers_kind.
    + by apply getAllCategories_kind.
  - intros. by apply getRelatedWallpapers_kind.
  - intros. by apply searchWallpapers_kind.
Qed.

Lemma results_match_their_kind_witness :
  let s0 := {| service := {| cache := ∅; requests := [] |}; reads := [] |} in
  let actions :=
    [CountOf 1000 1001 (Fulfilled 0) "nature";
     WallpaperById 1002 1003 (Fulfilled (Some (Doc "w42" ∅))) "w42";
     IncrementView (Fulfilled tt) "w42"] in
  typed (cache (service
                  (perform_all Js.toLowerCase_ascii Js.toUpperCase_ascii actions s0))).
Proof.
  intros s0 actions.
  apply (results_match_their_kind Js.toLowerCase_ascii Js.toUpperCase_ascii
           actions s0).
  apply typed_empty.
Defined.

(** *** Search results in the cache *)


Section search_cache.
Context (toLowerCase toUpperCase : string → string).


End search_cache.



(** ** More on the favorites *)

Lemma filter_absent (l : list string) (id : string) :
  id ∉ l → List.filter (λ x, negb (String.eqb x id)) l = l.
Proof.
  induction l as [|a l IH]; [done|]. intros Hid.
  apply not_elem_of_cons in Hid as [Hne Hid]. cbn [List.filter].
  destruct (String.eqb_spec a id) as [->|_]; [done|]. cbn. by rewrite IH.
Qed.

Lemma filter_removes (l : list string) (id : string) :
  id ∉ List.filter (λ x, negb (String.eqb x id)) l.
Proof.
  rewrite list_elem_of_In, filter_In. intros [_ H].
  by rewrite String.eqb_refl in H.
Qed.

Lemma array_includes_false (a : list string) (x : string) :
  Js.array_includes a x = false ↔ x ∉ a.
Proof.
  rewrite <- array_includes_In. by destruct (Js.array_includes a x).
Qed.

Lemma toggled_list_includes (l : list string) (id : string) :
  Js.array_includes (toggled_list l id) id = negb (Js.array_includes l id).
Proof.
  unfold toggled_list. destruct (Js.array_includes l id) eqn:Hin; cbn [negb].
  - apply array_includes_false, filter_removes.
  - apply array_includes_In, elem_of_app. right. by left.
Qed.

Lemma toggled_list_twice (l : list string) (id : string) :
  toggled_list (toggled_list l id) id =
  if Js.array_includes l id
  then List.filter (λ x, negb (String.eqb x id)) l ++ [id]
  else l.
Proof.
  unfold toggled_list at 1. rewrite toggled_list_includes.
  unfold toggled_list. destruct (Js.array_includes l id) eqn:Hin; cbn [negb].
  - done.
  - apply array_includes_false in Hin.
    rewrite List.filter_app, (filter_absent _ _ Hin). cbn.
    by rewrite String.eqb_refl, app_nil_r.
Qed.

Lemma toggled_list_NoDup (l : list string) (id : string) :
  NoDup l → NoDup (toggled_list l id).
Proof.
  intros Hl. unfold toggled_list.
  destruct (Js.array_includes l id) eqn:Hin.
  - apply NoDup_ListNoDup, List.NoDup_filter. by apply NoDup_ListNoDup.
  - apply array_includes_false in Hin. apply NoDup_app. split_and!; [done | |].
    + intros x Hx ->%list_elem_of_singleton. done.
    + apply NoDup_singleton.
Qed.

(** From a state whose mirror equals the persisted list, with the storage
    answering, [getFavorites] returns the persisted list and keeps it. *)
Lemma getFavorites_synced (now : Z) (s : state) :
  synced s →
  ∃ s', getFavorites now false s = (Returned (persisted s), s')
        ∧ synced s' ∧ persisted s' = persisted s.
Proof.
  intros Hs.
  destruct (getFavorites_returns now false s) as (l & s' & Hget & Hst & _ & Hsync).
  destruct (Hsync Hs) as [Hs' Hl]. rewrite (Hl eq_refl) in Hget.
  exists s'. split_and!; [done | done |]. unfold persisted. by rewrite Hst.
Qed.

(** X12. [isFavorite] agrees with the toggle before it: whatever the state
    and the clock, once [toggleFavorite(id)] has returned [isFavorite: b],
    [isFavorite(id)] returns [b] (the storage read of [isFavorite] being
    answered). *)
Theorem isFavorite_after_toggle (now : Z) (read_fails : bool) (now' t : Z)
    (id : string) (s : state) :
  ∃ b message s1 s2,
    toggleFavorite now read_fails false now' id s =
      (Returned {| isFavorite_ := b; message := message |}, s1)
    ∧ isFavorite t false id s1 = (Returned b, s2)
    ∧ (b = true ↔ id ∈ persisted s1).
Proof.
  destruct (toggleFavorite_cases now read_fails false now' id s)
    as (favorites & s0 & _ & _ & _ & Htoggle).
  set (s1 := {| stored := Some (toggled_list favorites id);
                favoritesCache := Some (toggled_list favorites id);
                cacheTimestamp := now' |}) in *.
  destruct (getFavorites_synced t s1 (written_synced _ _)) as (s2 & Hget & _ & _).
  eexists _, _, s1, s2. split; [exact Htoggle|].
  split.
  - unfold isFavorite, bind. rewrite Hget.
    change (persisted s1) with (toggled_list favorites id).
    by rewrite toggled_list_includes.
  - change (persisted s1) with (toggled_list favorites id).
    by rewrite <- array_includes_In, toggled_list_includes.
Qed.

(** X13. Toggling twice, from a state whose mirror equals the persisted
    list and with the storage answering: when the identifier was not a
    favorite, the persisted list is back to what it was; when it was, the
    identifier has moved to the end of the list, the others keeping their
    order. *)
Theorem toggle_twice (now1 now1' now2 now2' : Z) (id : string) (s : state) :
  synced s →
  ∃ r1 s1 r2 s2,
    toggleFavorite now1 false false now1' id s = (Returned r1, s1)
    ∧ toggleFavorite now2 false false now2' id s1 = (Returned r2, s2)
    ∧ isFavorite_ r2 = negb (isFavorite_ r1)
    ∧ synced s2
    ∧ persisted s2 =
      if Js.array_includes (persisted s) id
      then List.filter (λ x, negb (String.eqb x id)) (persisted s) ++ [id]
      else persisted s.
Proof.
  intros Hs.
  destruct (getFavorites_synced now1 s Hs) as (s0 & Hget1 & _ & _).
  pose proof (toggleFavorite_written now1 false now1' id s s0 _ Hget1) as Htoggle1.
  set (l1 := toggled_list (persisted s) id) in *.
  set (s1 := {| stored := Some l1; favoritesCache := Some l1;
                cacheTimestamp := now1' |}) in *.
  destruct (getFavorites_synced now2 s1 (written_synced _ _)) as (s1' & Hget2 & _ & _).
  pose proof (toggleFavorite_written now2 false now2' id s1 s1' _ Hget2) as Htoggle2.
  change (persisted s1) with l1 in Htoggle2.
  eexists _, s1, _, _. split; [exact Htoggle1|]. split; [exact Htoggle2|].
  cbn [isFavorite_]. split_and!.
  - unfold l1. by rewrite toggled_list_includes.
  - apply written_synced.
  - unfold l1. apply toggled_list_twice.
Qed.

Lemma toggle_twice_witness :
  let s := {| stored := Some ["a"; "b"; "c"]; favoritesCache := Some ["a"; "b"; "c"];
              cacheTimestamp := 0 |} in
  ∃ r1 s1 r2 s2,
    toggleFavorite 1000 false false 1001 "a" s = (Returned r1, s1)
    ∧ toggleFavorite 2000 false false 2001 "a" s1 = (Returned r2, s2)
    ∧ persisted s2 = ["b"; "c"; "a"].
Proof.
  intros s.
  destruct (toggle_twice 1000 1001 2000 2001 "a" s eq_refl)
    as (r1 & s1 & r2 & s2 & H1 & H2 & _ & _ & Hlist).
  by exists r1, s1, r2, s2.
Defined.

(** *** No duplicates *)

(** The mirror is not stale and the persisted list has no duplicates. *)
Lemma getFavorites_NoDup (now : Z) (read_fails : bool) (s : state) :
  coherent s → NoDup (persisted s) →
  ∃ favorites s',
    getFavorites now read_fails s = (Returned favorites, s')
    ∧ NoDup favorites ∧ coherent s' ∧ persisted s' = persisted s.
Proof.
  intros Hs Hp.
  destruct (fresh_mirror (favoritesCache s) (cacheTimestamp s) now)
    as [cached|] eqn:Hfresh.
  - exists cached, s. rewrite (getFavorites_mirror _ _ _ _ Hfresh).
    split_and!; try done.
    apply fresh_mirror_Some in Hfresh as [Hm _].
    destruct Hs as [Hs|Hs]; [congruence|]. unfold synced in Hs. congruence.
  - destruct read_fails.
    + exists [], s. rewrite (getFavorites_read_rejected _ _ Hfresh).
      split_and!; try done. constructor.
    + eexists _, _. rewrite (getFavorites_reload _ _ Hfresh).
      split_and!; [done | done | by right | done].
Qed.

Lemma toggleFavorite_NoDup (now : Z) (read_fails write_fails : bool) (now' : Z)
    (id : string) (s : state) :
  coherent s → NoDup (persisted s) →
  coherent (toggleFavorite now read_fails write_fails now' id s).2
  ∧ NoDup (persisted (toggleFavorite now read_fails write_fails now' id s).2).
Proof.
  intros Hs Hp.
  destruct (getFavorites_NoDup now read_fails s Hs Hp)
    as (favorites & s1 & Hget & Hfav & Hs1 & Hp1).
  destruct write_fails.
  - rewrite (toggleFavorite_write_rejected _ _ _ _ _ _ favorites Hget).
    cbn [snd]. by rewrite Hp1.
  - rewrite (toggleFavorite_written _ _ _ _ _ _ favorites Hget). cbn [snd].
    split; [right; apply written_synced|]. by apply toggled_list_NoDup.
Qed.

Lemma exec_NoDup (c : call) (s : state) :
  brings_no_duplicates c → coherent s → NoDup (persisted s) →
  coherent (exec c s) ∧ NoDup (persisted (exec c s)).
Proof.
  intros Hc Hs Hp.
  destruct c as [now r|now r id|now r w now' id|now r w now' id
                |now0 r0 now r w now' id|now r|r now|now r|w now ids|];
    cbn [exec].
  - destruct (getFavorites_NoDup now r s Hs Hp) as (l & s' & -> & _ & ? & Hp').
    cbn [snd]. by rewrite Hp'.
  - unfold isFavorite, bind.
    destruct (getFavorites_NoDup now r s Hs Hp) as (l & s' & -> & _ & ? & Hp').
    unfold ret. cbn [snd]. by rewrite Hp'.
  - by apply toggleFavorite_NoDup.
  - unfold addFavorite, bind.
    pose proof (toggleFavorite_NoDup now r w now' id s Hs Hp) as H.
    by destruct (toggleFavorite now r w now' id s) as [[result|e] s'].
  - cut (∃ s', (removeFavorite now0 r0 now r w now' id s).2 = s'
                ∧ coherent s' ∧ NoDup (persisted s')).
    { by intros (s' & -> & ?). }
    unfold removeFavorite, bind at 1.
    destruct (getFavorites_NoDup now0 r0 s Hs Hp) as (l & s1 & -> & _ & Hs1 & Hp1).
    rewrite <- Hp1 in Hp.
    destruct (negb (Js.array_includes l id)); [by exists s1|].
    unfold bind.
    pose proof (toggleFavorite_NoDup now r w now' id s1 Hs1 Hp) as H.
    destruct (toggleFavorite now r w now' id s1) as [[result|e] s']; by exists s'.
  - unfold getFavoritesCount, bind.
    destruct (getFavorites_NoDup now r s Hs Hp) as (l & s' & -> & _ & ? & Hp').
    unfold ret. cbn [snd]. by rewrite Hp'.
  - rewrite clearFavorites_cases. destruct r; [done|]. cbn [snd].
    split; [by right | constructor].
  - unfold exportFavorites.
    destruct (getFavorites_NoDup now r s Hs Hp) as (l & s' & -> & _ & ? & Hp').
    cbn [snd]. by rewrite Hp'.
  - rewrite importFavorites_cases. destruct w; [done|]. cbn [snd].
    split; [right; apply written_synced|].
    apply NoDup_ListNoDup, List.NoDup_filter. by apply NoDup_ListNoDup.
  - split; [by left | done].
Qed.

(** X14. The favorites list stays free of duplicates: from a state whose
    mirror is not stale and whose persisted list has none, no sequence of
    calls of the service produces one, whatever the clock readings and
    whichever storage calls are rejected, as long as no list with repeated
    identifiers is imported. *)
Theorem favorites_stay_duplicate_free (calls : list call) (s : state) :
  coherent s → NoDup (persisted s) →
  Forall brings_no_duplicates calls →
  coherent (run calls s) ∧ NoDup (persisted (run calls s)).
Proof.
  revert s. induction calls as [|c calls IH]; intros s Hs Hp Hcalls; [done|].
  apply Forall_cons in Hcalls as [Hc Hcalls].
  destruct (exec_NoDup c s Hc Hs Hp) as [Hs' Hp'].
  by apply (IH (exec c s)).
Qed.

Lemma favorites_stay_duplicate_free_witness :
  let s := {| stored := Some ["a"]; favoritesCache := None; cacheTimestamp := 0 |} in
  let calls := [Add 1000 false false 1001 "b"; Toggle 2000 true false 2001 "a";
                Remove 3000 false 3001 false true 3002 "b"] in
  NoDup (persisted (run calls s)).
Proof.
  intros s calls.
  apply (favorites_stay_duplicate_free calls s).
  - left. reflexivity.
  - apply NoDup_singleton.
  - repeat constructor.
Defined.

(** X15. Once [clearFavorites] has returned, [getFavorites] returns the empty
    list at every later clock reading, be the mirror fresh or not and the
    storage read answered or rejected; so no identifier is a favorite and
    the count is zero. *)
Theorem cleared_favorites_stay_empty (now t : Z) (read_fails : bool) (s : state) :
  ∃ s1,
    clearFavorites false now s = (Returned tt, s1)
    ∧ persisted s1 = []
    ∧ (∃ s2, getFavorites t read_fails s1 = (Returned [], s2))
    ∧ (∀ id, ∃ s2, isFavorite t read_fails id s1 = (Returned false, s2))
    ∧ (∃ s2, getFavoritesCount t read_fails s1 = (Returned 0%nat, s2)).
Proof.
  set (s1 := {| stored := None; favoritesCache := Some []; cacheTimestamp := now |}).
  assert (Hempty : empty_favorites s1) by (split; [done | by right]).
  destruct (getFavorites_empty t read_fails s1 Hempty) as [s2 Hget].
  exists s1. split_and!; [done | done | by exists s2 | |].
  - intros id. exists s2. unfold isFavorite, bind. by rewrite Hget.
  - exists s2. unfold getFavoritesCount, bind. by rewrite Hget.
Qed.

(** X16. A rejected read loses favorites on the next toggle: when the
    mirror is unset or older than five minutes and the storage read inside
    [toggleFavorite] is rejected, the toggle takes the list for empty,
    reports the identifier as added and overwrites the persisted list with
    that single identifier. *)
Theorem toggle_after_rejected_read_overwrites (now now' : Z) (id : string)
    (s : state) :
  fresh_mirror (favoritesCache s) (cacheTimestamp s) now = None →
  toggleFavorite now true false now' id s =
    (Returned {| isFavorite_ := true; message := "Ajouté aux favoris" |},
     {| stored := Some [id]; favoritesCache := Some [id]; cacheTimestamp := now' |}).
Proof.
  intros Hfresh.
  by rewrite (toggleFavorite_written _ _ _ _ _ _ []
                (getFavorites_read_rejected _ _ Hfresh)).
Qed.

Lemma toggle_after_rejected_read_overwrites_witness :
  let s := {| stored := Some ["a"; "b"; "c"]; favoritesCache := Some ["a"; "b"; "c"];
              cacheTimestamp := 0 |} in
  persisted (toggleFavorite 300000 true false 300001 "d" s).2 = ["d"].
Proof.
  intros s.
  by rewrite (toggle_after_rejected_read_overwrites 300000 300001 "d" s eq_refl).
Defined.

(** X17. [invalidateCache] makes the next [getFavorites] go to the storage,
    however recent the mirror was: with the read answered it returns the
    persisted list and sets the mirror to it; with the read rejected it
    returns the empty list and leaves the mirror unset. *)
Theorem invalidated_mirror_is_reloaded (t : Z) (s : state) :
  let s1 := (Favorites.invalidateCache s).2 in
  favoritesCache s1 = None
  ∧ stored s1 = stored s
  ∧ getFavorites t false s1 =
      (Returned (persisted s),
       {| stored := stored s; favoritesCache := Some (persisted s);
          cacheTimestamp := t |})
  ∧ getFavorites t true s1 = (Returned [], s1).
Proof. by split_and!. Qed.

(** X18. The mirror is served strictly before five minutes have passed: a
    mirror that differs from the persisted list is returned as it is while
    [now - cacheTimestamp < 300000], and from [300000] on the persisted list
    is read and returned instead, the mirror being set to it. *)
Theorem mirror_freshness_boundary (now : Z) (read_fails : bool) (s : state)
    (mirror : list string) :
  favoritesCache s = Some mirror →
  (now - cacheTimestamp s < 5 * 60 * 1000 →
   getFavorites now read_fails s = (Returned mirror, s))
  ∧ (5 * 60 * 1000 ≤ now - cacheTimestamp s →
     getFavorites now false s =
       (Returned (persisted s),
        {| stored := stored s; favoritesCache := Some (persisted s);
           cacheTimestamp := now |})
     ∧ getFavorites now true s = (Returned [], s)).
Proof.
  intros Hm. split.
  - intros Hlt. apply getFavorites_mirror. by apply fresh_mirror_Some.
  - intros Hge.
    assert (Hstale : fresh_mirror (favoritesCache s) (cacheTimestamp s) now = None).
    { rewrite Hm. unfold fresh_mirror, CACHE_DURATION.
      destruct (Z.ltb_spec (now - cacheTimestamp s) (5 * 60 * 1000)); [lia | done]. }
    split; [by apply getFavorites_reload | by apply getFavorites_read_rejected].
Qed.

Lemma mirror_freshness_boundary_witness :
  let s := {| stored := Some ["a"; "b"]; favoritesCache := Some ["a"];
              cacheTimestamp := 1000 |} in
  getFavorites 300999 false s = (Returned ["a"], s)
  ∧ (getFavorites 301000 false s).1 = Returned ["a"; "b"].
Proof.
  intros s.
  destruct (mirror_freshness_boundary 300999 false s ["a"] eq_refl) as [Hfresh _].
  destruct (mirror_freshness_boundary 301000 false s ["a"] eq_refl) as [_ Hstale].
  split; [apply Hfresh; simpl; lia|].
  destruct Hstale as [-> _]; [simpl; lia | reflexivity].
Defined.

Lemma filter_idempotent {A} (f : A → bool) (l : list A) :
  List.filter f (List.filter f l) = List.filter f l.
Proof.
  induction l as [|a l IH]; [done|]. cbn [List.filter].
  destruct (f a) eqn:Ha; [|exact IH]. cbn [List.filter]. by rewrite Ha, IH.
Qed.

(** X19. [importFavorites] keeps the identifiers that are not empty, in
    their order and with their repetitions; [exportFavorites], at any later
    clock reading, returns exactly that list, and importing what was
    exported changes nothing. *)
Theorem import_export_round_trip (now t now' : Z) (favoriteIds : list string)
    (s : state) :
  let validIds := List.filter (λ id, (0 <? String.length id)%nat) favoriteIds in
  ∃ s1 s2,
    importFavorites false now favoriteIds s = (Returned tt, s1)
    ∧ persisted s1 = validIds
    ∧ (∀ id, id ∈ validIds ↔ id ∈ favoriteIds ∧ id ≠ EmptyString)
    ∧ exportFavorites t false s1 = (Returned validIds, s2)
    ∧ persisted s2 = validIds
    ∧ ∃ s3, importFavorites false now' validIds s2 = (Returned tt, s3)
            ∧ persisted s3 = validIds.
Proof.
  intros validIds.
  set (s1 := {| stored := Some validIds; favoritesCache := Some validIds;
                cacheTimestamp := now |}).
  destruct (getFavorites_synced t s1 (written_synced _ _)) as (s2 & Hget & _ & Hp2).
  exists s1, s2. split_and!; [done | done | | exact Hget | exact Hp2 |].
  - intros id. unfold validIds. rewrite !list_elem_of_In, filter_In.
    destruct id; cbn; split; intros [? ?]; by split.
  - eexists. rewrite importFavorites_cases. split; [reflexivity|].
    unfold persisted. cbn [stored default]. apply filter_idempotent.
Qed.

(** X20. [removeFavorite] of a favorite, from a state whose mirror equals
    the persisted list and with the storage answering, returns [true] and
    persists the list without that identifier, the others in their order;
    a second [removeFavorite] of it returns [true] again and persists
    nothing new. *)
Theorem removeFavorite_idempotent (now0 now now' t0 t t' : Z) (id : string)
    (s : state) :
  synced s →
  ∃ s1 s2,
    removeFavorite now0 false now false false now' id s = (Returned true, s1)
    ∧ persisted s1 = List.filter (λ x, negb (String.eqb x id)) (persisted s)
    ∧ ¬ (id ∈ persisted s1)
    ∧ removeFavorite t0 false t false false t' id s1 = (Returned true, s2)
    ∧ stored s2 = stored s1.
Proof.
  intros Hs.
  assert (Hremove : ∀ n0 n n' (st : state), synced st →
            ∃ st', removeFavorite n0 false n false false n' id st = (Returned true, st')
                   ∧ synced st'
                   ∧ persisted st' =
                     List.filter (λ x, negb (String.eqb x id)) (persisted st)).
  { intros n0 n n' st Hst.
    destruct (getFavorites_synced n0 st Hst) as (st0 & Hget0 & Hst0 & Hp0).
    unfold removeFavorite, bind at 1. rewrite Hget0.
    destruct (Js.array_includes (persisted st) id) eqn:Hin; cbn [negb].
    - destruct (getFavorites_synced n st0 Hst0) as (st1 & Hget1 & _ & _).
      rewrite Hp0 in Hget1. unfold bind.
      rewrite (toggleFavorite_written _ _ _ _ _ _ _ Hget1), Hin. cbn [isFavorite_ negb].
      eexists. split; [reflexivity|]. split; [apply written_synced|].
      unfold toggled_list. by rewrite Hin.
    - exists st0. split; [done|]. split; [done|].
      rewrite Hp0. symmetry. by apply filter_absent, array_includes_false. }
  destruct (Hremove now0 now now' s Hs) as (s1 & Hfirst & Hs1 & Hp1).
  assert (Hgone : id ∉ persisted s1) by (rewrite Hp1; apply filter_removes).
  destruct (getFavorites_synced t0 s1 Hs1) as (s2 & Hget & _ & _).
  destruct (removeFavorite_absent t0 false t false false t' id s1 s2 _ Hget Hgone)
    as [Hsecond Hstored].
  by exists s1, s2.
Qed.

Lemma removeFavorite_idempotent_witness :
  let s := {| stored := Some ["a"; "b"; "c"]; favoritesCache := Some ["a"; "b"; "c"];
              cacheTimestamp := 0 |} in
  ∃ s1 s2,
    removeFavorite 1000 false 1001 false false 1002 "b" s = (Returned true, s1)
    ∧ persisted s1 = ["a"; "c"]
    ∧ removeFavorite 2000 false 2001 false false 2002 "b" s1 = (Returned true, s2)
    ∧ stored s2 = stored s1.
Proof.
  intros s.
  destruct (removeFavorite_idempotent 1000 1001 1002 2000 2001 2002 "b" s eq_refl)
    as (s1 & s2 & H1 & Hp & _ & H2 & Hst).
  by exists s1, s2.
Defined.

(** ** The favorites screen *)

(** [getWallpaperById] is [begin_fetch] followed, once the request has
    settled, by [finish_fetch], and returns [fetched_value]. *)
Lemma getWallpaperById_split (e : FavoritesScreen.fetch_env) (id : string)
    (s : session) :
  ∃ p s1,
    FavoritesScreen.begin_fetch e id s = (Returned p, s1)
    ∧ getWallpaperById (FavoritesScreen.at_get e) (FavoritesScreen.at_set e)
        (FavoritesScreen.answer e) id s =
      (Returned (FavoritesScreen.fetched_value e p),
       FavoritesScreen.finish_fetch e id p s1).
Proof.
  unfold FavoritesScreen.begin_fetch, getWallpaperById.
  unfold bind at 1 3. rewrite lift_get. cbn [fst snd].
  destruct (hit (Cache.get ("wallpaper_" +:+ id) (FavoritesScreen.at_get e)
                   (cache (service s))).1) as [value|].
  - by eexists (FavoritesScreen.Hit value), _.
  - eexists FavoritesScreen.Asked, _. split; [reflexivity|].
    unfold FavoritesScreen.fetched_value, FavoritesScreen.finish_fetch.
    by destruct (FavoritesScreen.answer e) as [[d|]|reason].
Qed.

Lemma filter_filter {A} (f g : A → bool) (l : list A) :
  List.filter f (List.filter g l) = List.filter (λ x, g x && f x) l.
Proof.
  induction l as [|a l IH]; [done|]. cbn [List.filter].
  destruct (g a); cbn [List.filter andb]; [|exact IH].
  destruct (f a); by rewrite IH.
Qed.

(** Removing the identifiers [ids] one after the other keeps the others, in
    their order. *)
Lemma remove_all_filter (ids l : list string) :
  foldl (λ l id, List.filter (λ x, negb (String.eqb x id)) l) l ids =
  List.filter (λ x, negb (Js.array_includes ids x)) l.
Proof.
  revert l. induction ids as [|id ids IH]; intros l; cbn [foldl].
  - symmetry. by apply forallb_filter_id, forallb_forall.
  - rewrite IH, filter_filter. apply filter_ext. intros x.
    unfold Js.array_includes. cbn [existsb].
    rewrite (String.eqb_sym x id). by rewrite negb_orb.
Qed.

Lemma remove_rejected_filter (keep : string → bool) (l : list string) :
  List.filter (λ x, negb (Js.array_includes
                            (List.filter (λ id, negb (keep id)) l) x)) l =
  List.filter keep l.
Proof.
  apply filter_ext_in. intros x Hx.
  destruct (keep x) eqn:Hkeep; cbn.
  - apply negb_true_iff, array_includes_false.
    rewrite list_elem_of_In, filter_In. intros [_ H]. by rewrite Hkeep in H.
  - apply negb_false_iff, array_includes_In.
    rewrite list_elem_of_In, filter_In. by rewrite Hkeep.
Qed.

(** [removeFavorite] from a state whose mirror equals the persisted list,
    with the storage answering. *)
Lemma removeFavorite_synced (n0 n n' : Z) (id : string) (st : state) :
  synced st →
  ∃ st',
    removeFavorite n0 false n false false n' id st = (Returned true, st')
    ∧ synced st'
    ∧ persisted st' = List.filter (λ x, negb (String.eqb x id)) (persisted st).
Proof.
  intros Hst.
  destruct (getFavorites_synced n0 st Hst) as (st0 & Hget0 & Hst0 & Hp0).
  unfold removeFavorite, bind at 1. rewrite Hget0.
  destruct (Js.array_includes (persisted st) id) eqn:Hin; cbn [negb].
  - destruct (getFavorites_synced n st0 Hst0) as (st1 & Hget1 & _ & _).
    rewrite Hp0 in Hget1. unfold bind.
    rewrite (toggleFavorite_written _ _ _ _ _ _ _ Hget1), Hin. cbn [isFavorite_ negb].
    eexists. split; [reflexivity|]. split; [apply written_synced|].
    unfold toggled_list. by rewrite Hin.
  - exists st0. split; [done|]. split; [done|].
    rewrite Hp0. symmetry. by apply filter_absent, array_includes_false.
Qed.

Lemma remove_each_synced (removals : nat → FavoritesScreen.removal_env)
    (ids : list string) (i : nat) (st : state) :
  (∀ j, FavoritesScreen.answering (removals j)) → synced st →
  ∃ st',
    FavoritesScreen.remove_each removals i ids st = (Returned tt, st')
    ∧ synced st'
    ∧ persisted st' =
      foldl (λ l id, List.filter (λ x, negb (String.eqb x id)) l) (persisted st) ids.
Proof.
  intros Hanswering. revert i st.
  induction ids as [|id ids IH]; intros i st Hst.
  - by exists st.
  - cbn [FavoritesScreen.remove_each foldl].
    destruct (Hanswering i) as (-> & -> & ->).
    destruct (removeFavorite_synced (FavoritesScreen.now0 (removals i))
                (FavoritesScreen.now1 (removals i))
                (FavoritesScreen.now1' (removals i)) id st Hst)
      as (st1 & Hremove & Hst1 & Hp1).
    destruct (IH (S i) st1 Hst1) as (st' & Hrest & Hst' & Hp').
    exists st'. unfold bind. rewrite Hremove, Hrest.
    split_and!; [done | done |]. by rewrite Hp', Hp1.
Qed.

Lemma begin_all_uncached (fetches : nat → FavoritesScreen.fetch_env) (i : nat)
    (ids : list string) (s : session) :
  FavoritesScreen.uncached ids s →
  ∃ s', FavoritesScreen.begin_all fetches i ids s =
          (Returned (replicate (length ids) FavoritesScreen.Asked), s').
Proof.
  revert i s. induction ids as [|id ids IH]; intros i s Hs.
  - by exists s.
  - cbn [FavoritesScreen.begin_all length replicate].
    unfold bind at 1. unfold FavoritesScreen.begin_fetch, bind at 1.
    rewrite lift_get, (get_absent _ _ _ (Hs id ltac:(by left))). cbn [fst snd hit].
    unfold bind at 1. cbn [ask modify]. unfold ret at 1. cbn [service reads].
    unfold bind at 1.
    match goal with
    | |- context [FavoritesScreen.begin_all fetches (S i) ids ?s1] =>
        destruct (IH (S i) s1) as (s' & Hrest)
    end.
    { intros id' Hid'. cbn. apply Hs. by right. }
    exists s'. by rewrite Hrest.
Qed.

Lemma results_unavailable (n : nat) (fetches : nat → FavoritesScreen.fetch_env) :
  (∀ i, FavoritesScreen.unavailable (fetches i)) →
  omap id (FavoritesScreen.results fetches (replicate n FavoritesScreen.Asked)) = [].
Proof.
  unfold FavoritesScreen.results. revert fetches.
  induction n as [|n IH]; intros fetches Hfetches; [done|].
  cbn [replicate]. rewrite imap_cons. cbn [omap].
  assert (FavoritesScreen.fetched_value (fetches 0%nat) FavoritesScreen.Asked = None)
    as ->.
  { unfold FavoritesScreen.fetched_value.
    by destruct (Hfetches 0%nat) as [->|[reason ->]]. }
  cbn. apply (IH (fetches ∘ S)). intros i. apply Hfetches.
Qed.

Lemma foldl_skip {S A} (f : S → A → S) (s : S) (l : list A) :
  (∀ s a, f s a = s) → foldl f s l = s.
Proof. intros Hf. induction l as [|a l IH]; [done|]. cbn. by rewrite Hf. Qed.

Lemma filter_none {A} (f : A → bool) (l : list A) :
  (∀ x, In x l → f x = false) → List.filter f l = [].
Proof.
  induction l as [|a l IH]; [done|]. intros Hf. cbn [List.filter].
  rewrite (Hf a) by by left. apply IH. intros x Hx. apply Hf. by right.
Qed.


Lemma bind_returned {S A B} (m : M S A) (k : A → M S B) (s s' : S) (x : A)
    (r : outcome B * S) :
  m s = (Returned x, s') → k x s' = r → bind m k s = r.
Proof. intros Hm Hk. unfold bind. by rewrite Hm. Qed.

Lemma try_catch_returned {S A} (body : M S A) (handler : string → M S A)
    (s s' : S) (x : A) :
  body s = (Returned x, s') → try_catch body handler s = (Returned x, s').
Proof. intros Hbody. unfold try_catch. by rewrite Hbody. Qed.

Lemma on_store_returned {A} (m : M Favorites.state A) (a : FavoritesScreen.app)
    (x : A) (st : Favorites.state) :
  m (FavoritesScreen.store a) = (Returned x, st) →
  FavoritesScreen.on_store m a =
    (Returned x,
     {| FavoritesScreen.store := st;
        FavoritesScreen.remote := FavoritesScreen.remote a;
        FavoritesScreen.favorites := FavoritesScreen.favorites a;
        FavoritesScreen.error := FavoritesScreen.error a;
        FavoritesScreen.loading := FavoritesScreen.loading a;
        FavoritesScreen.refreshing := FavoritesScreen.refreshing a |}).
Proof. intros Hm. unfold FavoritesScreen.on_store. by rewrite Hm. Qed.

Lemma on_remote_returned {A} (m : M session A) (a : FavoritesScreen.app)
    (x : A) (s : session) :
  m (FavoritesScreen.remote a) = (Returned x, s) →
  FavoritesScreen.on_remote m a =
    (Returned x,
     {| FavoritesScreen.store := FavoritesScreen.store a;
        FavoritesScreen.remote := s;
        FavoritesScreen.favorites := FavoritesScreen.favorites a;
        FavoritesScreen.error := FavoritesScreen.error a;
        FavoritesScreen.loading := FavoritesScreen.loading a;
        FavoritesScreen.refreshing := FavoritesScreen.refreshing a |}).
Proof. intros Hm. unfold FavoritesScreen.on_remote. by rewrite Hm. Qed.

Ltac fields :=
  cbn [FavoritesScreen.store FavoritesScreen.remote FavoritesScreen.favorites
       FavoritesScreen.error FavoritesScreen.loading FavoritesScreen.refreshing].

(** The two ways through [loadFavorites] when nothing throws: an empty list
    of favorites ends the load at once; otherwise the fetches are started,
    they finish, and the identifiers without a value are removed. *)
Lemma loadFavorites_none (showRefreshIndicator : bool) (now : Z) (read_fails : bool)
    (fetches : nat → FavoritesScreen.fetch_env) (schedule : list nat)
    (removals : nat → FavoritesScreen.removal_env) (a : FavoritesScreen.app)
    (st0 : Favorites.state) :
  getFavorites now read_fails (FavoritesScreen.store a) = (Returned [], st0) →
  FavoritesScreen.loadFavorites showRefreshIndicator now read_fails fetches schedule
    removals a =
  (Returned tt,
   {| FavoritesScreen.store := st0;
      FavoritesScreen.remote := FavoritesScreen.remote a;
      FavoritesScreen.favorites := [];
      FavoritesScreen.error := None;
      FavoritesScreen.loading := false;
      FavoritesScreen.refreshing := false |}).
Proof.
  intros Hget. unfold FavoritesScreen.loadFavorites.
  destruct a as [st s shown err ld rf]. cbn [FavoritesScreen.store] in Hget.
  destruct showRefreshIndicator.
  all: eapply bind_returned;
    [ apply try_catch_returned;
      eapply bind_returned; [reflexivity|]; fields;
      eapply bind_returned; [reflexivity|]; fields;
      eapply bind_returned; [apply on_store_returned, Hget|]; fields;
      reflexivity
    | reflexivity ].
Qed.

Lemma loadFavorites_some (showRefreshIndicator : bool) (now : Z) (read_fails : bool)
    (fetches : nat → FavoritesScreen.fetch_env) (schedule : list nat)
    (removals : nat → FavoritesScreen.removal_env) (a : FavoritesScreen.app)
    (favoriteIds : list string) (pendings : list FavoritesScreen.pending)
    (st0 st1 : Favorites.state) (s1 : session) :
  let validFavorites := omap id (FavoritesScreen.results fetches pendings) in
  let invalidIds :=
    List.filter
      (λ id, negb (FavoritesScreen.includes_id
                     (FavoritesScreen.payload_id <$> validFavorites) id))
      favoriteIds in
  favoriteIds ≠ [] →
  getFavorites now read_fails (FavoritesScreen.store a) = (Returned favoriteIds, st0) →
  FavoritesScreen.begin_all fetches 0 favoriteIds (FavoritesScreen.remote a) =
    (Returned pendings, s1) →
  FavoritesScreen.remove_each removals 0 invalidIds st0 = (Returned tt, st1) →
  FavoritesScreen.loadFavorites showRefreshIndicator now read_fails fetches
    schedule removals a =
  (Returned tt,
   {| FavoritesScreen.store := st1;
      FavoritesScreen.remote :=
        (FavoritesScreen.finish_all fetches favoriteIds pendings schedule s1).2;
      FavoritesScreen.favorites := validFavorites;
      FavoritesScreen.error := None;
      FavoritesScreen.loading := false;
      FavoritesScreen.refreshing := false |}).
Proof.
  intros validFavorites invalidIds Hsome Hget Hbegin Hremove.
  assert (Hlen : Nat.eqb (length favoriteIds) 0 = false)
    by by destruct favoriteIds.
  unfold FavoritesScreen.loadFavorites.
  destruct a as [st s shown err ld rf].
  cbn [FavoritesScreen.store FavoritesScreen.remote] in Hget, Hbegin.
  destruct showRefreshIndicator.
  all: eapply bind_returned;
    [ apply try_catch_returned;
      eapply bind_returned; [reflexivity|]; fields;
      eapply bind_returned; [reflexivity|]; fields;
      eapply bind_returned; [apply on_store_returned, Hget|]; fields;
      rewrite Hlen;
      eapply bind_returned; [apply on_remote_returned, Hbegin|]; fields;
      eapply bind_returned; [reflexivity|]; fields;
      eapply bind_returned; [apply on_store_returned, Hremove|]; fields;
      reflexivity
    | reflexivity ].
Qed.

(** X21. A load of the favorites screen while the remote store cannot
    deliver the wallpapers erases the favorites: when the mirror equals the
    persisted list, the local storage answers, no favorite has a cached copy
    and every [getWallpaperById] comes back empty (the read is rejected or
    the document is missing), [loadFavorites] takes every favorite for
    invalid and removes it. It ends without an error, with nothing to
    show and with an empty persisted list. *)
Theorem outage_erases_favorites (showRefreshIndicator : bool) (now : Z)
    (fetches : nat → FavoritesScreen.fetch_env) (schedule : list nat)
    (removals : nat → FavoritesScreen.removal_env) (a : FavoritesScreen.app) :
  synced (FavoritesScreen.store a) →
  FavoritesScreen.uncached (persisted (FavoritesScreen.store a))
    (FavoritesScreen.remote a) →
  (∀ i, FavoritesScreen.unavailable (fetches i)) →
  (∀ i, FavoritesScreen.answering (removals i)) →
  ∃ a',
    FavoritesScreen.loadFavorites showRefreshIndicator now false fetches schedule
      removals a = (Returned tt, a')
    ∧ persisted (FavoritesScreen.store a') = []
    ∧ FavoritesScreen.favorites a' = []
    ∧ FavoritesScreen.error a' = None
    ∧ FavoritesScreen.loading a' = false
    ∧ FavoritesScreen.refreshing a' = false.
Proof.
  intros Hsynced Huncached Hfetches Hremovals.
  destruct (getFavorites_synced now _ Hsynced) as (st0 & Hget & Hst0 & Hp0).
  destruct (decide (persisted (FavoritesScreen.store a) = [])) as [Hnone|Hsome].
  - rewrite Hnone in Hget. eexists. split; [by apply loadFavorites_none|].
    fields. by rewrite Hp0.
  - destruct (begin_all_uncached fetches 0 _ _ Huncached) as (s1 & Hbegin).
    pose proof (results_unavailable (length (persisted (FavoritesScreen.store a)))
                  fetches Hfetches) as Hresults.
    destruct (remove_each_synced removals (persisted (FavoritesScreen.store a)) 0 st0
                Hremovals Hst0) as (st1 & Hremove & _ & Hp1).
    pose proof (loadFavorites_some showRefreshIndicator now false fetches schedule
                removals a _ _ st0 st1 s1 Hsome Hget Hbegin) as Hload.
    cbv zeta in Hload. rewrite Hresults in Hload.
    rewrite (forallb_filter_id _ (persisted (FavoritesScreen.store a))) in Hload
      by by apply forallb_forall.
    eexists. split; [exact (Hload Hremove)|]. fields.
    split_and!; try done.
    rewrite Hp1, Hp0, remove_all_filter. apply filter_none.
    intros x Hx. apply negb_false_iff, array_includes_In.
    by apply list_elem_of_In.
Qed.

Lemma outage_erases_favorites_witness :
  let a := {| FavoritesScreen.store :=
                {| stored := Some ["a"; "b"]; favoritesCache := Some ["a"; "b"];
                   cacheTimestamp := 0 |};
              FavoritesScreen.remote :=
                {| service := {| cache := ∅; requests := [] |}; reads := [] |};
              FavoritesScreen.favorites := [];
              FavoritesScreen.error := None;
              FavoritesScreen.loading := false;
              FavoritesScreen.refreshing := false |} in
  let fetches := λ _ : nat, FavoritesScreen.FetchEnv 1000 (Rejected "offline") 1001 in
  let removals :=
    λ _ : nat, FavoritesScreen.RemovalEnv 2000 false 2001 false false 2002 in
  ∃ a',
    FavoritesScreen.loadFavorites false 500 false fetches [1; 0]%nat removals a =
      (Returned tt, a')
    ∧ persisted (FavoritesScreen.store a') = [].
Proof.
  intros a fetches removals.
  destruct (outage_erases_favorites false 500 fetches [1; 0]%nat removals a)
    as (a' & Hload & Hgone & _).
  - reflexivity.
  - intros id _. apply lookup_empty.
  - intros i. right. by exists "offline".
  - intros i. by split_and!.
  - by exists a'.
Defined.

Lemma results_delivered (ids : list string)
    (fetches : nat → FavoritesScreen.fetch_env) :
  FavoritesScreen.delivered fetches ids →
  Forall2 FavoritesScreen.shows ids
    (omap id (FavoritesScreen.results fetches
                (replicate (length ids) FavoritesScreen.Asked))).
Proof.
  unfold FavoritesScreen.results. revert fetches.
  induction ids as [|x ids IH]; intros fetches Hfetches; [constructor|].
  cbn [length replicate]. rewrite imap_cons. cbn [omap].
  destruct (Hfetches 0%nat x eq_refl) as (d & Hd & Hid & Hdata).
  unfold FavoritesScreen.fetched_value at 1. rewrite Hd. cbn.
  constructor.
  - exists (toEntity d). split; [done|]. rewrite <- Hid. by apply toEntity_id.
  - apply (IH (fetches ∘ S)). intros i y Hy. by apply (Hfetches (S i)).
Qed.

Lemma shown_includes (ids : list string) (ws : list payload) (id : string) :
  Forall2 FavoritesScreen.shows ids ws → id ∈ ids →
  FavoritesScreen.includes_id (FavoritesScreen.payload_id <$> ws) id = true.
Proof.
  induction 1 as [|x w ids ws (item & -> & Hitem) _ IH]; intros Hid.
  - by apply elem_of_nil in Hid.
  - rewrite fmap_cons. cbn [FavoritesScreen.includes_id existsb
                             FavoritesScreen.payload_id].
    rewrite Hitem. apply elem_of_cons in Hid as [->|Hid].
    + by rewrite String.eqb_refl.
    + apply orb_true_iff. right. by apply IH.
Qed.

(** X22. A load of the favorites screen when the store delivers every
    favorite: with the mirror equal to the persisted list, the local
    storage read answered, no cached copies, and each [getWallpaperById]
    answered with the document of that identifier, [loadFavorites] removes
    nothing, whatever order the requests settle in; it shows one wallpaper
    for each favorite, in the order of the list, and ends without an
    error. *)
Theorem healthy_load_keeps_favorites (showRefreshIndicator : bool) (now : Z)
    (fetches : nat → FavoritesScreen.fetch_env) (schedule : list nat)
    (removals : nat → FavoritesScreen.removal_env) (a : FavoritesScreen.app) :
  synced (FavoritesScreen.store a) →
  FavoritesScreen.uncached (persisted (FavoritesScreen.store a))
    (FavoritesScreen.remote a) →
  FavoritesScreen.delivered fetches (persisted (FavoritesScreen.store a)) →
  ∃ a',
    FavoritesScreen.loadFavorites showRefreshIndicator now false fetches schedule
      removals a = (Returned tt, a')
    ∧ persisted (FavoritesScreen.store a') = persisted (FavoritesScreen.store a)
    ∧ Forall2 FavoritesScreen.shows (persisted (FavoritesScreen.store a))
        (FavoritesScreen.favorites a')
    ∧ FavoritesScreen.error a' = None
    ∧ FavoritesScreen.loading a' = false
    ∧ FavoritesScreen.refreshing a' = false.
Proof.
  intros Hsynced Huncached Hdelivered.
  destruct (getFavorites_synced now _ Hsynced) as (st0 & Hget & Hst0 & Hp0).
  destruct (decide (persisted (FavoritesScreen.store a) = [])) as [Hnone|Hsome].
  - rewrite Hnone in Hget. eexists. split; [by apply loadFavorites_none|].
    fields. split_and!; try done. rewrite Hnone. constructor.
  - destruct (begin_all_uncached fetches 0 _ _ Huncached) as (s1 & Hbegin).
    pose proof (results_delivered _ fetches Hdelivered) as Hresults.
    pose proof (loadFavorites_some showRefreshIndicator now false fetches schedule
                removals a _ _ st0 st0 s1 Hsome Hget Hbegin) as Hload.
    cbv zeta in Hload. rewrite filter_none in Hload.
    2:{ intros x Hx. apply negb_false_iff.
        apply (shown_includes _ _ _ Hresults). by apply list_elem_of_In. }
    eexists. split; [exact (Hload eq_refl)|]. fields. by split_and!.
Qed.

Lemma healthy_load_keeps_favorites_witness :
  let a := {| FavoritesScreen.store :=
                {| stored := Some ["a"; "b"]; favoritesCache := Some ["a"; "b"];
                   cacheTimestamp := 0 |};
              FavoritesScreen.remote :=
                {| service := {| cache := ∅; requests := [] |}; reads := [] |};
              FavoritesScreen.favorites := [];
              FavoritesScreen.error := None;
              FavoritesScreen.loading := false;
              FavoritesScreen.refreshing := false |} in
  let fetches :=
    λ i : nat,
      FavoritesScreen.FetchEnv 1000
        (Fulfilled (Some (Doc (match i with O => "a" | _ => "b" end) ∅))) 1001 in
  let removals :=
    λ _ : nat, FavoritesScreen.RemovalEnv 2000 false 2001 false false 2002 in
  ∃ a',
    FavoritesScreen.loadFavorites true 500 false fetches [1; 0]%nat removals a =
      (Returned tt, a')
    ∧ persisted (FavoritesScreen.store a') = ["a"; "b"]
    ∧ length (FavoritesScreen.favorites a') = 2%nat.
Proof.
  intros a fetches removals.
  destruct (healthy_load_keeps_favorites true 500 fetches [1; 0]%nat removals a)
    as (a' & Hload & Hkept & Hshown & _).
  - reflexivity.
  - intros id _. apply lookup_empty.
  - intros [|[|i]] id Hid; cbn in Hid; [| |done];
      injection Hid as <-; by eexists.
  - exists a'. split; [exact Hload|]. split; [exact Hkept|].
    by rewrite <- (Forall2_length _ _ _ Hshown).
Defined.

(** ** Scrolling to the end *)

(** X23. Scrolling a category to the end: over a store whose documents of
    the category have distinct identifiers and number [N], the
    [N / limitCount + 1] successive calls, each given the cursor that the one
    before returned, send one query each, the first without a cursor and
    every other one resuming after the last document of the page before it;
    the store settling each query as it is sent, the pages returned hold
    every document of the category exactly once and in the store's order,
    and the last cursor has [hasMore] false. (When [N] is a multiple of
    [limitCount] the last of these fetches is the empty page.) *)
Theorem scroll_fetches_everything (documents : list doc) (categoryId : string)
    (limitCount k r : nat) (w : world) :
  let matching := List.filter (in_category categoryId) documents in
  NoDup (doc_id <$> matching) →
  (r < limitCount)%nat →
  length matching = (k * limitCount + r)%nat →
  ∃ pages cursor,
    scroll (serve documents) categoryId limitCount (S k) None w =
      (pages, Some cursor,
       {| cache := cache w;
          requests :=
            requests w ++ scroll_queries matching categoryId limitCount 0 (S k) |})
    ∧ concat pages = toEntity <$> matching
    ∧ hasMore cursor = false
    ∧ length pages = S k.
Proof.
  intros matching Hdistinct Hr Hlen.
  destruct (scroll_from (serve documents) matching categoryId limitCount
              (serve_category documents categoryId) Hdistinct ltac:(lia)
              k 0%nat r None w Hr eq_refl Hlen)
    as (pages & cursor & Hscroll & Hconcat & Hmore & Hpages).
  exists pages, cursor. rewrite drop_0 in Hconcat. split_and!; try done.
Qed.

Lemma scroll_fetches_everything_witness :
  let nature := λ id, Doc id {["categoryId" := JStr "nature"]} in
  let city := λ id, Doc id {["categoryId" := JStr "city"]} in
  let documents :=
    [nature "a"; city "x"; nature "b"; nature "c"; city "y"; nature "d"; nature "e"] in
  let w := {| cache := ∅; requests := [] |} in
  ∃ pages cursor w',
    scroll (serve documents) "nature" 2 3 None w = (pages, Some cursor, w')
    ∧ concat pages = toEntity <$> [nature "a"; nature "b"; nature "c"; nature "d"; nature "e"]
    ∧ hasMore cursor = false
    ∧ requests w' =
      [QueryByCategory "nature" 2 None;
       QueryByCategory "nature" 2 (Some (nature "b"));
       QueryByCategory "nature" 2 (Some (nature "d"))].
Proof.
  intros nature city documents w.
  destruct (scroll_fetches_everything documents "nature" 2 2 1 w)
    as (pages & cursor & Hscroll & Hconcat & Hmore & _).
  - apply (bool_decide_unpack _). vm_compute. exact I.
  - lia.
  - reflexivity.
  - eexists pages, cursor, _. split; [exact Hscroll|].
    split; [exact Hconcat|]. split; [exact Hmore|]. reflexivity.
Defined.

(** ** A limit of zero *)

Lemma get_twice_absent {A} (k : string) (now now' : Z)
    (c : gmap string (Cache.entry A)) :
  (Cache.get k now c).1 = None →
  Cache.get k now' (Cache.get k now c).2 = (None, (Cache.get k now c).2).
Proof. intros Hnone. by apply get_absent, get_miss_absent. Qed.

(** X24. The empty list that a list read returns for a limit of zero is not
    a cached result. [limit(0)] is refused inside the [try], before the
    query exists: with nothing usable under the key, [getFeaturedWallpapers],
    [getPopularWallpapers], [getNewWallpapers] and [searchWallpapers] called
    with limit 0 return the empty list, send nothing and store nothing, and
    every later call with limit 0 does the same, whatever the store would
    have answered. (With a positive limit an empty answer of the store is
    stored and served.) *)
Theorem limit_zero_fetches_nothing (toLowerCase toUpperCase : string → string)
    (t_get t_set : Z) (snapshot titleSnapshot tagSnapshot : settled (list doc))
    (searchTerm : string) (s : session) :
  ((Cache.get ("featured_wallpapers_" +:+ pretty 0%nat) t_get
      (cache (service s))).1 = None →
   ∃ s1,
     getFeaturedWallpapers t_get t_set snapshot 0 s = (Returned (PList []), s1)
     ∧ reads s1 = reads s
     ∧ cache (service s1) !! ("featured_wallpapers_" +:+ pretty 0%nat) = None
     ∧ ∀ t t' snapshot',
         getFeaturedWallpapers t t' snapshot' 0 s1 = (Returned (PList []), s1))
  ∧ ((Cache.get ("popular_wallpapers_" +:+ pretty 0%nat) t_get
        (cache (service s))).1 = None →
     ∃ s1,
       getPopularWallpapers t_get t_set snapshot 0 s = (Returned (PList []), s1)
       ∧ reads s1 = reads s
       ∧ cache (service s1) !! ("popular_wallpapers_" +:+ pretty 0%nat) = None
       ∧ ∀ t t' snapshot',
           getPopularWallpapers t t' snapshot' 0 s1 = (Returned (PList []), s1))
  ∧ ((Cache.get ("new_wallpapers_" +:+ pretty 0%nat) t_get
        (cache (service s))).1 = None →
     ∃ s1,
       getNewWallpapers t_get t_set snapshot 0 s = (Returned (PList []), s1)
       ∧ reads s1 = reads s
       ∧ cache (service s1) !! ("new_wallpapers_" +:+ pretty 0%nat) = None
       ∧ ∀ t t' snapshot',
           getNewWallpapers t t' snapshot' 0 s1 = (Returned (PList []), s1))
  ∧ (Js.all_whitespace searchTerm = false →
     (Cache.get ("search_" +:+ toLowerCase searchTerm +:+ "_" +:+ pretty 0%nat) t_get
        (cache (service s))).1 = None →
     ∃ w1,
       searchWallpapers toLowerCase toUpperCase t_get t_set titleSnapshot tagSnapshot
         searchTerm 0 (service s) = (Returned (PList []), w1)
       ∧ requests w1 = requests (service s)
       ∧ cache w1 !! ("search_" +:+ toLowerCase searchTerm +:+ "_" +:+ pretty 0%nat)
         = None
       ∧ ∀ t t' titleSnapshot' tagSnapshot',
           searchWallpapers toLowerCase toUpperCase t t' titleSnapshot' tagSnapshot'
             searchTerm 0 w1 = (Returned (PList []), w1)).
Proof.
  split_and!.
  - intros Hnone. eexists.
    split; [apply getFeaturedWallpapers_limit_zero; by rewrite Hnone|].
    cbn [reads service cache]. split_and!; [done | by apply get_miss_absent |].
    intros t t' snapshot'. rewrite getFeaturedWallpapers_limit_zero;
      cbn [reads service requests cache];
      by rewrite (get_twice_absent _ _ _ _ Hnone).
  - intros Hnone. eexists.
    split; [apply getPopularWallpapers_limit_zero; by rewrite Hnone|].
    cbn [reads service cache]. split_and!; [done | by apply get_miss_absent |].
    intros t t' snapshot'. rewrite getPopularWallpapers_limit_zero;
      cbn [reads service requests cache];
      by rewrite (get_twice_absent _ _ _ _ Hnone).
  - intros Hnone. eexists.
    split; [apply getNewWallpapers_limit_zero; by rewrite Hnone|].
    cbn [reads service cache]. split_and!; [done | by apply get_miss_absent |].
    intros t t' snapshot'. rewrite getNewWallpapers_limit_zero;
      cbn [reads service requests cache];
      by rewrite (get_twice_absent _ _ _ _ Hnone).
  - intros Hterm Hnone. eexists.
    split; [apply search_limit_zero; [done | by rewrite Hnone]|].
    cbn [requests cache]. split_and!; [done | by apply get_miss_absent |].
    intros t t' titleSnapshot' tagSnapshot'.
    rewrite search_limit_zero; cbn [requests cache];
      by rewrite ?(get_twice_absent _ _ _ _ Hnone).
Qed.

Lemma limit_zero_fetches_nothing_witness :
  let s := {| service := {| cache := ∅; requests := [] |}; reads := [] |} in
  (∃ s1,
     getFeaturedWallpapers 1000 1001 (Fulfilled [Doc "a" ∅]) 0 s =
       (Returned (PList []), s1)
     ∧ reads s1 = []
     ∧ getFeaturedWallpapers 2000 2001 (Fulfilled [Doc "b" ∅]) 0 s1 =
         (Returned (PList []), s1))
  ∧ (∃ w1,
       searchWallpapers Js.toLowerCase_ascii Js.toUpperCase_ascii 1000 1001
         (Fulfilled [Doc "a" ∅]) (Fulfilled []) "cat" 0 (service s) =
         (Returned (PList []), w1)
       ∧ requests w1 = []).
Proof.
  intros s.
  destruct (limit_zero_fetches_nothing Js.toLowerCase_ascii Js.toUpperCase_ascii
              1000 1001 (Fulfilled [Doc "a" ∅]) (Fulfilled [Doc "a" ∅]) (Fulfilled [])
              "cat" s) as (Hfeatured & _ & _ & Hsearch).
  destruct Hfeatured as (s1 & Hfirst & Hreads & _ & Hagain); [reflexivity|].
  destruct Hsearch as (w1 & Hfound & Hsent & _); [reflexivity | reflexivity |].
  split.
  - exists s1. split; [exact Hfirst|]. split; [exact Hreads | apply Hagain].
  - exists w1. split; [exact Hfound | exact Hsent].
Defined.
